(** * CausalDataGenerator (lingam/experimental/cdg.py): a shallow embedding

    The Python class [CausalDataGenerator] fits a model of a "cause" column
    and of an "effect" column of a pandas DataFrame, keeps the residuals, and
    regenerates the table under interventions.  The embedding below follows
    the source line by line.  What the source takes from pandas, numpy and
    scikit-learn is modelled in the modules [pd], [np] and [sklearn] and in
    the class [Library]; estimators and caller-supplied callables are
    records of (fallible) functions.

    Numbers are exact rationals ([Qc]); rounding of floating-point
    arithmetic is not part of the model, so what is proved equal here
    agrees in the code up to rounding only.  The arrays a caller supplies
    (interventions, outputs of custom mechanisms) are lists or numpy
    arrays, which pandas writes by position; a pandas Series in their place
    would be aligned on its row labels and is not modelled.  An estimator
    is an object with an identity: the code trains it in place. *)

From Stdlib Require Import String List ZArith QArith Qcanon Lia Bool Arith.
From Stdlib Require Import DecimalString.
Import ListNotations.
Close Scope Qc_scope.
Close Scope Q_scope.
Open Scope string_scope.
Open Scope list_scope.

(** ** Exceptions and results *)

Inductive exn_class :=
| TypeError
| ValueError
| RuntimeError
| KeyError
| AttributeError
| NotImplementedError
| OtherException (cls : string).

(** An exception object: its class and [str(e)]. *)
Record exn := Exception { eclass : exn_class; str : string }.

Definition result (A : Type) : Type := (exn + A)%type.

Definition ok {A} (a : A) : result A := inr a.
Definition throw {A} (c : exn_class) (msg : string) : result A :=
  inl (Exception c msg).

(** ** Tables *)

(** A cell: a number, the missing value, or a label (string). *)
Inductive value :=
| Num (q : Qc)
| NaN
| Label (s : string).

(** The source only ever asks whether a dtype is ["category"]. *)
Inductive dtype := category | other.

Definition is_category (d : dtype) : bool :=
  match d with category => true | other => false end.

Record column := Col { cname : string; cdtype : dtype; cells : list value }.

(** A DataFrame: the row labels and the columns, in order.  Column labels may
    repeat (selecting a label twice produces such a frame).  A Series, the
    value of [df[label]] for a label carried by one column, is the frame made
    of that single column. *)
Record frame := Frame { index : list Z; columns : list column }.

Definition value_eqb (a b : value) : bool :=
  match a, b with
  | Num x, Num y => Qc_eq_bool x y
  | NaN, NaN => true
  | Label s, Label t => String.eqb s t
  | _, _ => false
  end.

Definition is_nan (v : value) : bool :=
  match v with NaN => true | _ => false end.

Definition is_label (v : value) : bool :=
  match v with Label _ => true | _ => false end.

Fixpoint index_eqb (a b : list Z) : bool :=
  match a, b with
  | [], [] => true
  | x :: a', y :: b' => Z.eqb x y && index_eqb a' b'
  | _, _ => false
  end.

Fixpoint mapM {A B} (f : A -> result B) (l : list A) : result (list B) :=
  match l with
  | [] => ok []
  | a :: l' =>
      match f a with
      | inl e => inl e
      | inr b =>
          match mapM f l' with
          | inl e => inl e
          | inr bs => ok (b :: bs)
          end
      end
  end.

(** ** numpy: element-wise arithmetic with a one-dimensional array

    The arithmetic is exact: here [(x - q) + q] is [x], where binary
    floating point loses the low bits of [x] to a large [q]. *)
Module np.

Definition add_cell (v : value) (q : Qc) : result value :=
  match v with
  | Num x => ok (Num (x + q)%Qc)
  | NaN => ok NaN
  | Label _ => throw TypeError "unsupported operand type(s) for +"
  end.

Definition sub_cell (v : value) (q : Qc) : result value :=
  match v with
  | Num x => ok (Num (x - q)%Qc)
  | NaN => ok NaN
  | Label _ => throw TypeError "unsupported operand type(s) for -"
  end.

(** [series op array]: element-wise when the lengths agree, the single
    element of a length-one array is broadcast, anything else fails. *)
Definition broadcast (op : value -> Qc -> result value)
           (vs : list value) (p : list Qc) : result (list value) :=
  if Nat.eqb (List.length p) (List.length vs) then
    mapM (fun vq => op (fst vq) (snd vq)) (combine vs p)
  else
    match p with
    | [q] => mapM (fun v => op v q) vs
    | _ => throw ValueError "operands could not be broadcast together"
    end.

(** [np.full(n, np.nan)] *)
Definition full_nan (n : nat) : list value := repeat NaN n.

End np.

(** ** pandas: the DataFrame operations the source uses *)
Module pd.

Definition shape0 (df : frame) : nat := List.length (index df).

(** [df.columns] *)
Definition labels (df : frame) : list string := map cname (columns df).

Definition has_label (name : string) (c : column) : bool :=
  String.eqb (cname c) name.

Definition labelled (name : string) (cols : list column) : list column :=
  filter (has_label name) cols.

(** [name in df.columns] *)
Definition contains (name : string) (df : frame) : bool :=
  existsb (String.eqb name) (labels df).

(** [df[name]]: every column carrying the label. *)
Definition getitem (name : string) (df : frame) : result frame :=
  match labelled name (columns df) with
  | [] => throw KeyError name
  | cs => ok (Frame (index df) cs)
  end.

(** Columns for a list of labels: for each label in turn, every column
    that carries it; a label carried by no column is a KeyError. *)
Fixpoint take_labels (names : list string) (cols : list column)
  : result (list column) :=
  match names with
  | [] => ok []
  | n :: names' =>
      match labelled n cols with
      | [] => throw KeyError (n ++ " not in index")
      | cs =>
          match take_labels names' cols with
          | inl e => inl e
          | inr rest => ok (cs ++ rest)
          end
      end
  end.

(** [df[[n1, n2, ...]]] *)
Definition getitem_list (names : list string) (df : frame) : result frame :=
  match take_labels names (columns df) with
  | inl e => inl e
  | inr cs => ok (Frame (index df) cs)
  end.

(** A Series is a frame with exactly one column; [.dtype], [.name] and
    the like exist on a Series only. *)
Definition as_series (y : frame) : result column :=
  match columns y with
  | [c] => ok c
  | _ => throw AttributeError "'DataFrame' object has no attribute 'dtype'"
  end.

Definition length_mismatch (len n : nat) : string :=
  "Length of values (" ++ NilEmpty.string_of_uint (Nat.to_uint len)
  ++ ") does not match length of index ("
  ++ NilEmpty.string_of_uint (Nat.to_uint n) ++ ")".

(** [pd.Series(values, index=idx, name=name)] *)
Definition Series (vals : list value) (idx : list Z) (name : string)
  : result frame :=
  if Nat.eqb (List.length vals) (List.length idx) then
    ok (Frame idx [Col name other vals])
  else throw ValueError (length_mismatch (List.length vals) (List.length idx)).

(** Overwrite every column labelled [name], or append one. *)
Definition put_column (name : string) (d : dtype) (vals : list value)
           (cols : list column) : list column :=
  if existsb (has_label name) cols then
    map (fun c => if has_label name c then Col name d vals else c) cols
  else cols ++ [Col name d vals].

(** One value for each column labelled [name], in order, on every row. *)
Fixpoint spread (name : string) (n : nat) (vals : list value)
         (cols : list column) : list column :=
  match cols with
  | [] => []
  | c :: cols' =>
      if has_label name c then
        match vals with
        | v :: vals' => Col name other (repeat v n) :: spread name n vals' cols'
        | [] => c :: spread name n vals cols'
        end
      else c :: spread name n vals cols'
  end.

(** The test of [__setitem__] for a duplicated column: several columns
    carry the label, and the value assigned has one item for each. *)
Definition duplicated (name : string) (len : nat) (df : frame) : bool :=
  let k := List.length (labelled name (columns df)) in
  Nat.ltb 1 k && Nat.eqb len k.

(** [df[name] = array].  When the column is duplicated the values go one
    to each column, as scalars; otherwise the array is a column, written to
    every column that carries the label. *)
Definition setitem (name : string) (vals : list value) (df : frame)
  : result frame :=
  if duplicated name (List.length vals) df then
    ok (Frame (index df) (spread name (shape0 df) vals (columns df)))
  else if Nat.eqb (List.length vals) (shape0 df) then
    ok (Frame (index df) (put_column name other vals (columns df)))
  else throw ValueError (length_mismatch (List.length vals) (shape0 df)).

Fixpoint lookup (l : Z) (idx : list Z) (vals : list value) : value :=
  match idx, vals with
  | i :: idx', v :: vals' => if Z.eqb i l then v else lookup l idx' vals'
  | _, _ => NaN
  end.

Fixpoint unique (idx : list Z) : bool :=
  match idx with
  | [] => true
  | i :: idx' => negb (existsb (Z.eqb i) idx') && unique idx'
  end.

(** Alignment of a Series on the frame's index: the values as they are
    when the two indexes are equal, a lookup by label otherwise. *)
Definition align (idx : list Z) (sidx : list Z) (vals : list value)
  : result (list value) :=
  if index_eqb sidx idx then ok vals
  else if unique sidx then ok (map (fun l => lookup l sidx vals) idx)
  else throw ValueError "cannot reindex on an axis with duplicate labels".

(** Pair the columns labelled [name] with the given columns, in order. *)
Fixpoint put_columns (name : string) (new : list column)
         (cols : list column) : list column :=
  match cols with
  | [] => []
  | c :: cols' =>
      if has_label name c then
        match new with
        | n :: new' => Col name (cdtype n) (cells n) :: put_columns name new' cols'
        | [] => c :: put_columns name new cols'
        end
      else c :: put_columns name new cols'
  end.

(** Positions of a row label. *)
Fixpoint positions (l : Z) (idx : list Z) (from : nat) : list nat :=
  match idx with
  | [] => []
  | i :: idx' =>
      if Z.eqb i l then from :: positions l idx' (S from)
      else positions l idx' (S from)
  end.

Definition pick {A} (d : A) (l : list A) (ps : list nat) : list A :=
  map (fun p => nth p l d) ps.

(** The column written for [s[j]], where [s] is a Series with integer row
    labels: the row label [j] is looked up.  A label that is absent raises;
    the cell of a label found once is a scalar, written on every row; a
    label found several times gives the Series of its cells, which is
    aligned with the rows of the table. *)
Definition item_column (name : string) (j : nat) (idx : list Z) (sidx : list Z)
           (s : column) : result column :=
  match positions (Z.of_nat j) sidx 0 with
  | [] => throw KeyError (NilEmpty.string_of_uint (Nat.to_uint j))
  | [p] => ok (Col name other (repeat (nth p (cells s) NaN) (List.length idx)))
  | ps =>
      if index_eqb (pick 0%Z sidx ps) idx
      then ok (Col name (cdtype s) (pick NaN (cells s) ps))
      else throw ValueError "cannot reindex on an axis with duplicate labels"
  end.

(** [s[j]] to the [j]-th column labelled [name], in order, from [j]. *)
Fixpoint spread_items (name : string) (j : nat) (idx : list Z) (sidx : list Z)
         (s : column) (cols : list column) : result (list column) :=
  match cols with
  | [] => ok []
  | c :: cols' =>
      if has_label name c then
        match item_column name j idx sidx s with
        | inl e => inl e
        | inr c' =>
            match spread_items name (S j) idx sidx s cols' with
            | inl e => inl e
            | inr rest => ok (c' :: rest)
            end
        end
      else
        match spread_items name j idx sidx s cols' with
        | inl e => inl e
        | inr rest => ok (c :: rest)
        end
  end.

(** [df[name] = item] where [item] is a Series or, when it has several
    columns, a DataFrame.  A Series assigned to a duplicated column goes
    item by item to the columns; otherwise it is aligned with the rows of
    the table and written to every column that carries the label. *)
Definition setitem_item (name : string) (item : frame) (df : frame)
  : result frame :=
  match columns item with
  | [s] =>
      if duplicated name (List.length (cells s)) df then
        match spread_items name 0 (index df) (index item) s (columns df) with
        | inl e => inl e
        | inr cols => ok (Frame (index df) cols)
        end
      else
        match align (index df) (index item) (cells s) with
        | inl e => inl e
        | inr vals =>
            ok (Frame (index df) (put_column name (cdtype s) vals (columns df)))
        end
  | new =>
      if index_eqb (index item) (index df) then
        if Nat.eqb (List.length (labelled name (columns df))) (List.length new)
        then ok (Frame (index df) (put_columns name new (columns df)))
        else throw ValueError "Columns must be same length as key"
      else throw ValueError "cannot reindex"
  end.

(** Add [p_j] to every cell of the [j]-th column labelled [name]. *)
Fixpoint add_across (name : string) (p : list Qc) (cols : list column)
  : result (list column) :=
  match cols with
  | [] => ok []
  | c :: cols' =>
      if has_label name c then
        match p with
        | q :: p' =>
            match mapM (fun v => np.add_cell v q) (cells c) with
            | inl e => inl e
            | inr vals =>
                match add_across name p' cols' with
                | inl e => inl e
                | inr rest => ok (Col name other vals :: rest)
                end
            end
        | [] => throw ValueError "Unable to coerce to Series"
        end
      else
        match add_across name p cols' with
        | inl e => inl e
        | inr rest => ok (c :: rest)
        end
  end.

(** [df[name] += np.array(p)].  On a Series the addition is element-wise.
    When several columns carry the label, [df[name]] is a DataFrame and the
    array is aligned with its columns: its length must be their number. *)
Definition iadd (name : string) (p : list Qc) (df : frame) : result frame :=
  match labelled name (columns df) with
  | [] => throw KeyError name
  | [c] =>
      match np.broadcast np.add_cell (cells c) p with
      | inl e => inl e
      | inr vals =>
          ok (Frame (index df) (put_column name other vals (columns df)))
      end
  | cs =>
      if Nat.eqb (List.length p) (List.length cs) then
        match add_across name p (columns df) with
        | inl e => inl e
        | inr cols => ok (Frame (index df) cols)
        end
      else throw ValueError "Unable to coerce to Series, length must match the columns"
  end.

(** [df[name] = pd.Categorical(df[name])].  When several columns carry the
    label, [df[name]] is a DataFrame: the categorical made of it holds its
    column labels, one for each of these columns, and the assignment is
    that of a duplicated column, so every cell of them gets the label. *)
Definition set_categorical (name : string) (df : frame) : result frame :=
  match labelled name (columns df) with
  | [] => throw KeyError name
  | [c] =>
      ok (Frame (index df) (put_column name category (cells c) (columns df)))
  | cs =>
      ok (Frame (index df)
                (spread name (shape0 df) (map (fun _ => Label name) cs)
                        (columns df)))
  end.

(** Row positions for a list of labels: every position of each label. *)
Fixpoint take_rows (ls : list Z) (idx : list Z) : result (list nat) :=
  match ls with
  | [] => ok []
  | l :: ls' =>
      match positions l idx 0 with
      | [] => throw KeyError "row label not in index"
      | ps =>
          match take_rows ls' idx with
          | inl e => inl e
          | inr rest => ok (ps ++ rest)
          end
      end
  end.


(** [df.loc[rows, cols]] with two lists of labels. *)
Definition loc (rows : list Z) (cols : list string) (df : frame)
  : result frame :=
  match take_rows rows (index df) with
  | inl e => inl e
  | inr ps =>
      match take_labels cols (columns df) with
      | inl e => inl e
      | inr cs =>
          ok (Frame (pick 0%Z (index df) ps)
                    (map (fun c => Col (cname c) (cdtype c) (pick NaN (cells c) ps)) cs))
      end
  end.

End pd.

(** ** scikit-learn: estimators and input validation *)
Module sklearn.

(** A fitted model.  [predict] and [predict_proba] are functions of the
    fitted parameters and of the feature table; [predict_proba] and
    [classes_] are meaningful for classifiers. *)
Record fitted_model := Model {
  predict : frame -> result (list Qc);
  predict_proba : frame -> result (list (list Qc));
  classes_ : list value
}.

Inductive estimator_type := regressor | classifier | unspecified.

(** An estimator as the caller hands it over: an object, with its identity
    ([id(estimator)]).  [fit_ X y] trains it and gives its fitted state, or
    raises.  Training is in place: an object trained twice is in the state
    of its last training wherever it is referred to.  Within one call of
    [fit] this is accounted for where the attributes are written; what a
    caller does later with an object it has handed over (training it again,
    in another call or by itself) is outside the model. *)
Record estimator := Estimator {
  id_ : nat;
  _estimator_type : estimator_type;
  has_predict_proba : bool;
  fit_ : frame -> frame -> result fitted_model
}.

(** [model_cause is model_effect], for two estimators that were given. *)
Definition same_object (model_cause model_effect : option estimator) : bool :=
  match model_cause, model_effect with
  | Some c, Some e => Nat.eqb (id_ c) (id_ e)
  | _, _ => false
  end.

Definition is_regressor (e : estimator) : bool :=
  match _estimator_type e with regressor => true | _ => false end.

Definition is_classifier (e : estimator) : bool :=
  match _estimator_type e with classifier => true | _ => false end.

(** Array-likes of strings, by number of dimensions. *)
Inductive array_like :=
| Array1D (a : list string)
| Array2D (a : list (list string))
| ArrayND.

(** [check_array(X, dtype=None, ensure_min_features=2)] on a DataFrame:
    no missing value, at least one row, at least two columns. *)
Definition check_array_frame (X : frame) : result unit :=
  if existsb (fun c => existsb is_nan (cells c)) (columns X) then
    throw ValueError "Input contains NaN."
  else if Nat.ltb (pd.shape0 X) 1 then
    throw ValueError "Found array with 0 sample(s) while a minimum of 1 is required."
  else if Nat.ltb (List.length (columns X)) 2 then
    throw ValueError "Found array with too few feature(s) while a minimum of 2 is required."
  else ok tt.

(** [check_array(a, ensure_2d=False, dtype=None, ensure_min_samples=0)
     .reshape((-1, ))]: arrays of one or two dimensions pass and are
    flattened, more dimensions are refused.  A nested list is an array of
    two dimensions when its rows have one length ([np.asarray] refuses it
    otherwise), and an array of two dimensions needs at least one column. *)
Definition check_array_flat (a : array_like) : result (list string) :=
  match a with
  | Array1D l => ok l
  | Array2D [] => ok []
  | Array2D (r :: rest) =>
      if negb (forallb (fun r' => Nat.eqb (List.length r') (List.length r)) rest)
      then
        throw ValueError
          "setting an array element with a sequence. The requested array has an inhomogeneous shape."
      else if Nat.ltb (List.length r) 1 then
        throw ValueError
          "Found array with 0 feature(s) while a minimum of 1 is required."
      else ok (concat (r :: rest))
  | ArrayND => throw ValueError "Found array with dim 3. None expected <= 2."
  end.

(** [check_array(values, ensure_2d=False, dtype=None)] on a
    one-dimensional array-like: a numeric array must not hold a missing
    value (an array with a string in it is an array of strings), and the
    array must not be empty.  The result is [values.shape[0]]. *)
Definition check_array_values (vals : list value) : result nat :=
  if negb (existsb is_label vals) && existsb is_nan vals then
    throw ValueError "Input contains NaN."
  else if Nat.ltb (List.length vals) 1 then
    throw ValueError "Found array with 0 sample(s) while a minimum of 1 is required."
  else ok (List.length vals).

End sklearn.

Import sklearn.

(** What the class takes from its libraries without the source fixing it:
    the random stream behind [check_random_state] with its [choice], the two
    default estimators, and the pipeline that one-hot encodes the categorical
    columns in front of an estimator. *)
Class Library := {
  RandomState : Type;
  (** [random_state.choice(a, p=p)]: validates [p], draws, and leaves the
      stream advanced. *)
  choice : RandomState -> list value -> list Qc -> result value * RandomState;
  LinearRegression : estimator;
  LogisticRegression : estimator;
  (** [Pipeline([("transformer", ColumnTransformer([("categorical",
      OneHotEncoder(sparse=False), categoricals), ("numeric", "passthrough",
      numerics)])), ("estimator", model)])] *)
  Pipeline : list string -> list string -> estimator -> estimator
}.

(** ** Arguments of the two public methods *)

(** The first argument of [fit]. *)
Inductive X_arg :=
| NotADataFrame
| DataFrame (X : frame).

(** A key of an intervention dictionary: a string, or something else (kept
    by its [str()]). *)
Inductive key :=
| StrKey (s : string)
| OtherKey (repr : string).

(** An intervention argument: [None], something that is no dict, or a dict
    given by its items in insertion order (the keys of a dict are distinct).
    The values are lists or arrays, which an assignment to a column writes
    by position. *)
Inductive dict_arg :=
| NoDict
| NotADict
| Dict (items : list (key * list value)).

(** A caller-supplied generative mechanism: called with the feature columns,
    the current column of the variable and the user's arguments; it returns
    a list or an array. *)
Definition mechanism : Type :=
  frame -> frame -> option (list value) -> result (list value).

Inductive callable_arg :=
| NotCallable
| Callable (f : mechanism).

(** ** Observable steps

    The trace records, in order, the calls made to delegates (with the
    tables they are given) and the writes made to the working table and to
    the instance. *)
Inductive event :=
| Trained (name : string) (X y : frame)     (* [model.fit(X, y)] called *)
| Predicted (name : string) (X : frame)     (* [predict] or [predict_proba] called *)
| Called (name : string) (X error : frame)  (* a custom mechanism called *)
| Drawn (name : string) (p : list Qc)       (* one call of [choice] *)
| TableCreated                              (* the working table created *)
| ColumnWritten (name : string)             (* a column of the table assigned *)
| AttributesWritten.                        (* the fitted attributes stored *)

Section CausalDataGenerator.

Context `{Lib : Library}.

(** The attributes [fit] stores on the instance. *)
Record fitted := Fitted {
  _X : frame;
  _cause : string;
  _effect : string;
  _adjustments : list string;
  model_cause_ : option fitted_model;      (* [None] when there is no adjustment *)
  model_effect_ : fitted_model;
  error_cause_ : frame;             (* a Series, as [df[label]] gives it *)
  error_effect_ : frame
}.

(** The instance: its random stream and, once fitted, its attributes. *)
Record CausalDataGenerator := Self {
  _random_state : RandomState;
  attributes : option fitted
}.

(** [__init__]: [check_random_state(random_state)] gives the stream. *)
Definition __init__ (random_state : RandomState) : CausalDataGenerator :=
  Self random_state None.

(** *** The monad of the methods: the instance is threaded, a raise stops
    the method and keeps the instance as it is at that point, and the
    observable steps are collected. *)
Definition M (A : Type) : Type :=
  CausalDataGenerator -> result A * CausalDataGenerator * list event.

Definition ret {A} (a : A) : M A := fun self => (inr a, self, []).

Definition bind {A B} (m : M A) (f : A -> M B) : M B :=
  fun self =>
    match m self with
    | (inl e, self1, t1) => (inl e, self1, t1)
    | (inr a, self1, t1) =>
        match f a self1 with
        | (r, self2, t2) => (r, self2, t1 ++ t2)
        end
    end.

Definition raise {A} (c : exn_class) (msg : string) : M A :=
  fun self => (inl (Exception c msg), self, []).

Definition lift {A} (r : result A) : M A := fun self => (r, self, []).

Definition emit (ev : event) : M unit := fun self => (inr tt, self, [ev]).

(** [try: m except Exception as e: h e] *)
Definition try_except {A} (m : M A) (h : exn -> M A) : M A :=
  fun self =>
    match m self with
    | (inl e, self1, t1) =>
        match h e self1 with
        | (r, self2, t2) => (r, self2, t1 ++ t2)
        end
    | (inr a, self1, t1) => (inr a, self1, t1)
    end.

(** Reading a fitted attribute of an instance that was never fitted. *)
Definition attrs : M fitted :=
  fun self =>
    match attributes self with
    | Some a => (inr a, self, [])
    | None =>
        (inl (Exception AttributeError
                "'CausalDataGenerator' object has no attribute"), self, [])
    end.

Definition store (a : fitted) : M unit :=
  fun self => (inr tt, Self (_random_state self) (Some a), [AttributesWritten]).

(** One call of [self._random_state.choice(classes, p=p)]. *)
Definition draw (name : string) (classes : list value) (p : list Qc) : M value :=
  fun self =>
    match choice (_random_state self) classes p with
    | (r, rs) => (r, Self rs (attributes self), [Drawn name p])
    end.

Notation "x <- m ;; k" := (bind m (fun x => k))
  (at level 100, m at next level, right associativity).
Notation "m ;;; k" := (bind m (fun _ => k))
  (at level 100, right associativity).

(** Writes to the working table. *)
Definition assign (name : string) (vals : list value) (generated : frame)
  : M frame :=
  g <- lift (pd.setitem name vals generated) ;;
  emit (ColumnWritten name) ;;;
  ret g.

Definition assign_item (name : string) (item : frame) (generated : frame)
  : M frame :=
  g <- lift (pd.setitem_item name item generated) ;;
  emit (ColumnWritten name) ;;;
  ret g.

Definition assign_iadd (name : string) (p : list Qc) (generated : frame)
  : M frame :=
  g <- lift (pd.iadd name p generated) ;;
  emit (ColumnWritten name) ;;;
  ret g.

Definition assign_categorical (name : string) (generated : frame) : M frame :=
  g <- lift (pd.set_categorical name generated) ;;
  emit (ColumnWritten name) ;;;
  ret g.

(** [X[name].dtype] *)
Definition dtype_of (name : string) (X : frame) : result dtype :=
  match pd.getitem name X with
  | inl e => inl e
  | inr y =>
      match pd.as_series y with
      | inl e => inl e
      | inr c => ok (cdtype c)
      end
  end.

(** *** [_is_sklearn_estimator] (lines 261-276) *)
Definition _is_sklearn_estimator (estimator : estimator) (is_categorical : bool)
  : M unit :=
  (if is_categorical && is_regressor estimator then
     raise TypeError
       "The Object variable is categorical but the estimator is a regressor."
   else if negb is_categorical && is_classifier estimator then
     raise TypeError
       "The Object variable is not categorical but the estimator is a classifier."
   else ret tt) ;;;
  if is_categorical then
    if has_predict_proba estimator then ret tt
    else raise RuntimeError "Classification models shall have predict_proba()."
  else ret tt.

(** [if y.dtypes == "category"]: the truth value of the comparison; on a
    DataFrame the comparison is a Series of several booleans, which has
    none. *)
Definition dtypes_is_category (y : frame) : result bool :=
  match columns y with
  | [c] => ok (is_category (cdtype c))
  | _ => throw ValueError "The truth value of a Series is ambiguous."
  end.

(** *** [_make_model] (lines 278-313) *)
Definition _make_model (X y : frame) (name : string) (model : option estimator)
  : M (fitted_model * frame) :=
  model <-
    match model with
    | Some model =>
        emit (Trained name X y) ;;;
        match fit_ model X y with
        | inl e => raise RuntimeError (name ++ ".fit(): " ++ str e)
        | inr m => ret m
        end
    | None =>
        is_cat <- lift (dtypes_is_category y) ;;
        let model := if (is_cat : bool) then LogisticRegression else LinearRegression in
        let categoricals :=
          map cname (filter (fun c => is_category (cdtype c)) (columns X)) in
        let numerics :=
          map cname (filter (fun c => negb (is_category (cdtype c))) (columns X)) in
        let model :=
          if Nat.ltb 0 (List.length categoricals)
          then Pipeline categoricals numerics model
          else model in
        emit (Trained name X y) ;;;
        lift (fit_ model X y)
    end ;;
  s <- lift (pd.as_series y) ;;
  resids <-
    (if is_category (cdtype s) then
       ret (np.full_nan (pd.shape0 X))
     else
       emit (Predicted name X) ;;;
       p <- lift (predict model X) ;;
       lift (np.broadcast np.sub_cell (cells s) p)) ;;
  resids <- lift (pd.Series resids (index y) (cname s)) ;;
  ret (model, resids).

(** *** [fit] (lines 42-129) *)

(** The checks of the arguments (lines 76-104); the result is the table and
    the flat sequence of adjustments. *)
Definition fit_checks (X : X_arg) (cause effect : string)
           (adjustments : option array_like)
           (model_cause model_effect : option estimator)
  : M (frame * list string) :=
  X <- match X with
       | NotADataFrame => raise TypeError "X shall be a pandas.DataFrame."
       | DataFrame X => ret X
       end ;;
  lift (check_array_frame X) ;;;
  (if pd.contains cause X then ret tt
   else raise ValueError "cause isn't exist in X.columns.") ;;;
  (if pd.contains effect X then ret tt
   else raise ValueError "effect isn't exist in X.columns.") ;;;
  adjustments <-
    match adjustments with
    | None => ret []
    | Some a => lift (check_array_flat a)
    end ;;
  match model_cause with
  | Some model_cause =>
      d <- lift (dtype_of cause X) ;;
      _is_sklearn_estimator model_cause (is_category d)
  | None => ret tt
  end ;;;
  match model_effect with
  | Some model_effect =>
      d <- lift (dtype_of effect X) ;;
      _is_sklearn_estimator model_effect (is_category d)
  | None => ret tt
  end ;;;
  ret (X, adjustments).

(** The model of the cause and its residuals (lines 106-111). *)
Definition fit_cause (X : frame) (cause : string) (adjustments : list string)
           (model_cause : option estimator)
  : M (option fitted_model * frame) :=
  if Nat.eqb (List.length adjustments) 0 then
    y <- lift (pd.getitem cause X) ;;
    ret (None, y)
  else
    Xa <- lift (pd.getitem_list adjustments X) ;;
    y <- lift (pd.getitem cause X) ;;
    mr <- _make_model Xa y "model_cause" model_cause ;;
    ret (Some (fst mr), snd mr).

(** The model of the effect and its residuals (lines 113-115). *)
Definition fit_effect (X : frame) (cause effect : string)
           (adjustments : list string) (model_effect : option estimator)
  : M (fitted_model * frame) :=
  Xe <- lift (pd.getitem_list (cause :: adjustments) X) ;;
  y <- lift (pd.getitem effect X) ;;
  _make_model Xe y "model_effect" model_effect.

(** The state in which [fit] leaves the object it keeps as [model_cause_].
    The estimator of the cause is trained first (line 110); when the caller
    gave one object for both roles, the training of the effect (line 114)
    has trained it again, and the attribute refers to that object. *)
Definition kept_model_cause (model_cause model_effect : option estimator)
           (trained_cause : option fitted_model)
           (trained_effect : fitted_model) : option fitted_model :=
  match trained_cause with
  | Some m =>
      if same_object model_cause model_effect then Some trained_effect
      else Some m
  | None => None
  end.

Definition fit (X : X_arg) (cause effect : string)
           (adjustments : option array_like)
           (model_cause model_effect : option estimator) : M unit :=
  Xa <- fit_checks X cause effect adjustments model_cause model_effect ;;
  let X := fst Xa in
  let adjustments := snd Xa in
  (* cause *)
  mc <- fit_cause X cause adjustments model_cause ;;
  (* effect *)
  me <- fit_effect X cause effect adjustments model_effect ;;
  (* arguments, estimated values (lines 117-127) *)
  store (Fitted X cause effect adjustments
                (kept_model_cause model_cause model_effect (fst mc) (fst me))
                (fst me) (snd mc) (snd me)).

(** *** [_check_data_dict] (lines 315-333) *)

(** The loop over [data_dict.items()].  The loop variable [name] hides the
    parameter of the same name, so the messages show the key. *)
Fixpoint _check_data_dict_items (items : list (key * list value))
  : M (list (string * list value)) :=
  match items with
  | [] => ret []
  | (k, values) :: items' =>
      match k with
      | OtherKey name => raise TypeError ("A key of " ++ name ++ " shall be str.")
      | StrKey name =>
          a <- attrs ;;
          if negb (existsb (String.eqb name)
                     (_cause a :: _effect a :: _adjustments a)) then
            raise ValueError
              ("Keys of " ++ name
               ++ " shall be cause or effect or a element of adjustments.")
          else
            n <- lift (check_array_values values) ;;
            if negb (Nat.eqb n (pd.shape0 (_X a))) then
              raise ValueError
                ("shape[0] of " ++ name ++ " shall be the same as X.shape[0].")
            else
              rest <- _check_data_dict_items items' ;;
              ret ((name, values) :: rest)
      end
  end.

Definition _check_data_dict (data_dict : dict_arg) (name : string)
  : M (list (string * list value)) :=
  match data_dict with
  | NoDict => ret []
  | NotADict => raise TypeError (name ++ " shall be a dictionary.")
  | Dict items => _check_data_dict_items items
  end.

(** *** [generate] (lines 131-259) *)

(** [if m is not None: if not callable(m): raise TypeError] *)
Definition check_callable (m : option callable_arg) (msg : string)
  : M (option mechanism) :=
  match m with
  | None => ret None
  | Some NotCallable => raise TypeError msg
  | Some (Callable f) => ret (Some f)
  end.

(** [for name, interv_exog_ in interv_exog.items():
       generated[name] = interv_exog_] *)
Fixpoint update_interventions (interv_exog : list (string * list value))
         (generated : frame) : M frame :=
  match interv_exog with
  | [] => ret generated
  | (name, interv_exog_) :: rest =>
      generated <- assign name interv_exog_ generated ;;
      update_interventions rest generated
  end.

(** [self.model_cause_.predict]: the attribute of [None] does not exist. *)
Definition method_of (model_ : option fitted_model) (method : string)
  : M fitted_model :=
  match model_ with
  | Some m => ret m
  | None =>
      raise AttributeError
        ("'NoneType' object has no attribute '" ++ method ++ "'")
  end.

(** [for proba_ in proba:
       predicted.append(self._random_state.choice(model.classes_, p=proba_))] *)
Fixpoint sample (name : string) (m : fitted_model) (proba : list (list Qc))
  : M (list value) :=
  match proba with
  | [] => ret []
  | proba_ :: proba' =>
      v <- draw name (classes_ m) proba_ ;;
      predicted <- sample name m proba' ;;
      ret (v :: predicted)
  end.

(** One variable resolved.  Lines 198-225 (the cause) and 228-255 (the
    effect) are the same block up to the names: the column [target], the
    feature columns, the fitted model and the custom mechanism. *)
Definition resolve (a : fitted) (target : string) (features : list string)
           (model_name : string) (model_ : option fitted_model)
           (custom_name : string) (custom_model : option mechanism)
           (custom_model_args : option (list value))
           (interv_endog : list (string * list value)) (generated : frame)
  : M frame :=
  match find (fun kv => String.eqb (fst kv) target) interv_endog with
  | Some kv => assign target (snd kv) generated
  | None =>
      match custom_model with
      | Some custom_model =>
          predicted <-
            try_except
              (Xf <- lift (pd.getitem_list features generated) ;;
               error <- lift (pd.getitem target generated) ;;
               emit (Called custom_name Xf error) ;;;
               lift (custom_model Xf error custom_model_args))
              (fun e =>
                 raise RuntimeError
                   ("Exception: " ++ custom_name ++ ": " ++ str e)) ;;
          generated <- assign target predicted generated ;;
          d <- lift (dtype_of target (_X a)) ;;
          if is_category d then assign_categorical target generated
          else ret generated
      | None =>
          d <- lift (dtype_of target (_X a)) ;;
          if negb (is_category d) then
            m <- method_of model_ "predict" ;;
            Xf <- lift (pd.getitem_list features generated) ;;
            emit (Predicted model_name Xf) ;;;
            predicted <- lift (predict m Xf) ;;
            assign_iadd target predicted generated
          else
            m <- method_of model_ "predict_proba" ;;
            Xf <- lift (pd.getitem_list features generated) ;;
            emit (Predicted model_name Xf) ;;;
            proba <- lift (predict_proba m Xf) ;;
            predicted <- sample model_name m proba ;;
            generated <- assign target predicted generated ;;
            assign_categorical target generated
      end
  end.

(** The working table before the variables are resolved (lines 186-195):
    the columns of cause, effect and adjustments, the two error series, then
    the exogenous interventions. *)
Definition initial_data (a : fitted) (interv_exog : list (string * list value))
  : M frame :=
  (* initial data *)
  generated <-
    lift (pd.getitem_list (_cause a :: _effect a :: _adjustments a) (_X a)) ;;
  emit TableCreated ;;;
  (* update errors *)
  generated <- assign_item (_cause a) (error_cause_ a) generated ;;
  generated <- assign_item (_effect a) (error_effect_ a) generated ;;
  (* update interventions *)
  update_interventions interv_exog generated.

Definition generate (interv_endog interv_exog : dict_arg)
           (cause_model : option callable_arg)
           (cause_model_args : option (list value))
           (effect_model : option callable_arg)
           (effect_model_args : option (list value)) : M frame :=
  (* check arguments *)
  interv_endog <- _check_data_dict interv_endog "interv_endog" ;;
  interv_exog <- _check_data_dict interv_exog "interv_exog" ;;
  cause_model <- check_callable cause_model "cause_model shall be callable." ;;
  effect_model <- check_callable effect_model "effect_model shall be callable." ;;
  a <- attrs ;;
  generated <- initial_data a interv_exog ;;
  (* cause *)
  generated <-
    resolve a (_cause a) (_adjustments a)
            "model_cause" (model_cause_ a)
            "cause_model" cause_model cause_model_args
            interv_endog generated ;;
  (* effect *)
  generated <-
    resolve a (_effect a) (_cause a :: _adjustments a)
            "model_effect" (Some (model_effect_ a))
            "effect_model" effect_model effect_model_args
            interv_endog generated ;;
  lift (pd.loc (index (_X a)) (pd.labels (_X a)) generated).

End CausalDataGenerator.

Arguments Self {Lib} _ _.

(** ** A concrete library, for running the code on examples *)
Module Toy.

(** Row [i] of a table. *)
Definition row (df : frame) (i : nat) : list value :=
  map (fun c => nth i (cells c) NaN) (columns df).

Definition rows (df : frame) : list (list value) :=
  map (row df) (seq 0 (pd.shape0 df)).

Fixpoint total (r : list value) : result Qc :=
  match r with
  | [] => ok (Q2Qc 0)
  | Num q :: r' =>
      match total r' with
      | inl e => inl e
      | inr s => ok (q + s)%Qc
      end
  | _ :: _ => throw ValueError "could not convert string to float"
  end.

Fixpoint nodup_values (l : list value) : list value :=
  match l with
  | [] => []
  | v :: l' =>
      if existsb (value_eqb v) l' then nodup_values l' else v :: nodup_values l'
  end.

Definition uniform (k : nat) : list Qc :=
  repeat (Q2Qc (1 # Pos.of_nat k)) k.

(** A regressor with nothing to learn: it predicts the sum of the
    features of each row. *)
Definition RowSum : estimator :=
  Estimator 1 regressor false
    (fun X y =>
       ok (Model (fun X => mapM total (rows X))
                 (fun X => throw AttributeError "predict_proba")
                 [])).

(** A classifier that learns the labels of [y] and predicts them
    equally likely. *)
Definition EqualOdds : estimator :=
  Estimator 2 classifier true
    (fun X y =>
       let classes := nodup_values (concat (map cells (columns y))) in
       ok (Model (fun X => throw ValueError "not a regressor")
                 (fun X => ok (map (fun _ => uniform (List.length classes)) (rows X)))
                 classes)).

(** A regressor that predicts zero on every row. *)
Definition Zero : estimator :=
  Estimator 3 regressor false
    (fun X y =>
       ok (Model (fun X => ok (map (fun _ => Q2Qc 0) (rows X)))
                 (fun X => throw AttributeError "predict_proba")
                 [])).

(** The columns an encoder passes through. *)
Definition numeric_only (numerics : list string) (X : frame) : frame :=
  Frame (index X)
        (filter (fun c => existsb (String.eqb (cname c)) numerics) (columns X)).

(** A pipeline that drops the categorical columns in front of an
    estimator. *)
Definition Passthrough (categoricals numerics : list string) (e : estimator)
  : estimator :=
  Estimator (100 + id_ e) (_estimator_type e) (has_predict_proba e)
    (fun X y =>
       match fit_ e (numeric_only numerics X) y with
       | inl err => inl err
       | inr m =>
           ok (Model (fun X => predict m (numeric_only numerics X))
                     (fun X => predict_proba m (numeric_only numerics X))
                     (classes_ m))
       end).

(** A regressor whose training always fails. *)
Definition Broken (msg : string) : estimator :=
  Estimator 4 regressor false (fun X y => throw (OtherException "LinAlgError") msg).

(** The stream is a counter; a draw takes the class at the counter's
    position, modulo the number of classes. *)
Definition toy_choice (r : nat) (a : list value) (p : list Qc)
  : result value * nat :=
  if negb (Nat.eqb (List.length a) (List.length p)) then
    (throw ValueError "'a' and 'p' must have same size", r)
  else
    match nth_error a (r mod List.length a) with
    | Some v => (ok v, S r)
    | None => (throw ValueError "'a' cannot be empty", r)
    end.

#[export] Instance lib : Library := {|
  RandomState := nat;
  choice := toy_choice;
  LinearRegression := RowSum;
  LogisticRegression := EqualOdds;
  Pipeline := Passthrough
|}.

Definition q (n : Z) : value := Num (Q2Qc (inject_Z n)).

(** A table with three rows and the columns a, b, z. *)
Definition Xabz : frame :=
  Frame [0; 1; 2]%Z
        [Col "a" other [q 1; q 2; q 3];
         Col "b" other [q 4; q 6; q 5];
         Col "z" other [q 7; q 9; q 8]].

(** The same with one more column, w. *)
Definition Xabzw : frame :=
  Frame [0; 1; 2]%Z
        [Col "a" other [q 1; q 2; q 3];
         Col "b" other [q 4; q 6; q 5];
         Col "z" other [q 7; q 9; q 8];
         Col "w" other [q 0; q 0; q 1]].

(** Two columns only. *)
Definition Xab : frame :=
  Frame [0; 1; 2]%Z
        [Col "a" other [q 1; q 2; q 3];
         Col "b" other [q 4; q 6; q 5]].

(** Two rows only. *)
Definition Xab2 : frame :=
  Frame [0; 1]%Z
        [Col "a" other [q 1; q 2];
         Col "b" other [q 4; q 6]].

(** Two rows, labelled 5 and 6. *)
Definition Xfar : frame :=
  Frame [5; 6]%Z
        [Col "a" other [q 1; q 2];
         Col "b" other [q 4; q 6]].

(** Three rows, two of which carry the same label. *)
Definition Xrows : frame :=
  Frame [0; 0; 1]%Z
        [Col "a" other [q 1; q 2; q 3];
         Col "b" other [q 4; q 6; q 5];
         Col "z" other [q 7; q 9; q 8]].

(** A categorical cause. *)
Definition Xcat : frame :=
  Frame [0; 1; 2]%Z
        [Col "a" category [Label "u"; Label "v"; Label "u"];
         Col "b" other [q 4; q 6; q 5];
         Col "z" other [q 7; q 9; q 8]].

(** A categorical cause and a numeric effect, nothing else. *)
Definition Xcat2 : frame :=
  Frame [0; 1; 2]%Z
        [Col "a" category [Label "u"; Label "v"; Label "u"];
         Col "b" other [q 4; q 6; q 5]].

(** A custom mechanism that always raises. *)
Definition failing : mechanism :=
  fun X error args => throw (OtherException "ZeroDivisionError") "division by zero".

(** A fresh instance. *)
Definition fresh : CausalDataGenerator := __init__ (0%nat : RandomState).

(** The instance after [fit(Xabz, "a", "b", ["z"])]. *)
Definition fitted_abz : CausalDataGenerator :=
  snd (fst (fit (DataFrame Xabz) "a" "b" (Some (Array1D ["z"])) None None fresh)).

(** The instance after [fit(Xabzw, "a", "b", ["z"])]: column w is not used. *)
Definition fitted_abzw : CausalDataGenerator :=
  snd (fst (fit (DataFrame Xabzw) "a" "b" (Some (Array1D ["z"])) None None fresh)).

(** The instance after [fit(Xcat, "a", "b", ["z"])]: the cause is categorical. *)
Definition fitted_cat : CausalDataGenerator :=
  snd (fst (fit (DataFrame Xcat) "a" "b" (Some (Array1D ["z"])) None None fresh)).

End Toy.

(** ** Vocabulary of the statements *)

(** The names an intervention may target. *)
Definition names (a : fitted) : list string :=
  _cause a :: _effect a :: _adjustments a.

(** An item of an intervention dictionary that passes every check: a string
    key among the names, with an accepted array of one value per row. *)
Definition valid_item (a : fitted) (kv : key * list value) : Prop :=
  exists name,
    fst kv = StrKey name /\ In name (names a) /\
    check_array_values (snd kv) = inr (pd.shape0 (_X a)).

(** An intervention argument that [generate] refuses, with the class of the
    error: the first item that fails a check decides. *)
Inductive rejected (a : fitted) : dict_arg -> exn_class -> Prop :=
| not_a_dict :
    rejected a NotADict TypeError
| key_not_str good repr v rest :
    Forall (valid_item a) good ->
    rejected a (Dict (good ++ (OtherKey repr, v) :: rest)) TypeError
| key_unknown good name v rest :
    Forall (valid_item a) good ->
    ~ In name (names a) ->
    rejected a (Dict (good ++ (StrKey name, v) :: rest)) ValueError
| length_differs good name v rest :
    Forall (valid_item a) good ->
    In name (names a) ->
    List.length v <> pd.shape0 (_X a) ->
    rejected a (Dict (good ++ (StrKey name, v) :: rest)) ValueError.

(** An intervention argument that passes. *)
Definition accepted (a : fitted) (d : dict_arg) : Prop :=
  d = NoDict \/ exists items, d = Dict items /\ Forall (valid_item a) items.

(** A step that leaves the instance as it found it. *)
Definition keeps_self `{Lib : Library} {A} (m : M A) : Prop :=
  forall self, snd (fst (m self)) = self.

(** Every step a method records satisfies [P]. *)
Definition emits `{Lib : Library} {A} (P : event -> Prop) (m : M A) : Prop :=
  forall self r self1 t, m self = (r, self1, t) -> Forall P t.

(** The delegate an event is about. *)
Definition delegate (ev : event) : option string :=
  match ev with
  | Trained name _ _ => Some name
  | Predicted name _ => Some name
  | Called name _ _ => Some name
  | Drawn name _ => Some name
  | _ => None
  end.

(** A step that neither changes the instance nor records anything. *)
Definition silent `{Lib : Library} {A} (m : M A) : Prop :=
  forall self, exists r, m self = (r, self, []).

(** Every column of [df] labelled [name] holds the values [vals], and there
    is such a column. *)
Definition column_is (name : string) (vals : list value) (df : frame) : Prop :=
  (exists c, In c (columns df) /\ cname c = name) /\
  forall c, In c (columns df) -> cname c = name -> cells c = vals.

(** [g'] has the rows of [g] and, under every label but [name], its columns. *)
Definition only_touches (name : string) (g g' : frame) : Prop :=
  index g' = index g /\
  forall c, cname c <> name -> (In c (columns g') <-> In c (columns g)).

(** [d[name]] for an intervention argument. *)
Definition dict_get (d : dict_arg) (name : string) : option (list value) :=
  match d with
  | Dict items =>
      match find (fun kv => match fst kv with
                            | StrKey s => String.eqb s name
                            | OtherKey _ => false
                            end) items with
      | Some kv => Some (snd kv)
      | None => None
      end
  | _ => None
  end.

(** [v] is what a call [choice(classes, p=p)] returned, for some state of
    the random stream. *)
Definition drawn `{Lib : Library} (classes : list value) (v : value)
           (p : list Qc) : Prop :=
  exists r r', choice r classes p = (inr v, r').

(** numpy's contract for [choice]: the sample is an element of the array. *)
Definition choice_contract `{Lib : Library} : Prop :=
  forall r classes p v r', choice r classes p = (inr v, r') -> In v classes.

(** [err] is the error series [fit] keeps for the column [target] of [X],
    modelled by [m] on the columns [features]: a Series with the rows of [X]
    and the name of the target, of all-missing values when the target is
    categorical, and otherwise of the observed values minus the values [m]
    predicts. *)
Definition is_residual (X : frame) (target : string) (features : list string)
           (m : fitted_model) (err : frame) : Prop :=
  exists Xf y resid,
    pd.getitem_list features X = inr Xf /\
    pd.labelled target (columns X) = [y] /\
    err = Frame (index X) [Col target other resid] /\
    List.length resid = pd.shape0 X /\
    if is_category (cdtype y) then resid = np.full_nan (pd.shape0 X)
    else exists p,
        predict m Xf = inr p /\
        np.broadcast np.sub_cell (cells y) p = inr resid.

(** Every column of [df] carries one of the labels [ns]. *)
Definition labels_within (ns : list string) (df : frame) : Prop :=
  forall c, In c (columns df) -> In (cname c) ns.

(** ** Vocabulary of the further properties *)

(** A step whose outcome and trace do not depend on the instance, and which
    leaves the instance as it is. *)
Definition ignores_self `{Lib : Library} {A} (m : M A) : Prop :=
  exists r t, forall self, m self = (r, self, t).

(** A step that changes nothing of the instance but, through a draw, its
    random stream. *)
Definition draws_only `{Lib : Library} {A} (m : M A) : Prop :=
  forall self r self1 t,
    m self = (r, self1, t) ->
    attributes self1 = attributes self /\
    ((forall name p, ~ In (Drawn name p) t) -> self1 = self).

(** The steps that belong to [fit]: the training of a model and the write
    of the attributes. *)
Definition of_fit (ev : event) : Prop :=
  match ev with
  | Trained _ _ _ | AttributesWritten => True
  | _ => False
  end.

(** What an instance holds besides its models: the random stream and, once
    fitted, the table, the names and the two error series. *)
Definition data_of `{Lib : Library} (self : CausalDataGenerator) :=
  (_random_state self,
   option_map (fun a => (_X a, _cause a, _effect a, _adjustments a,
                         error_cause_ a, error_effect_ a))
              (attributes self)).

(** The keys of an intervention argument. *)
Definition keys (d : dict_arg) : list key :=
  match d with
  | Dict items => map fst items
  | _ => []
  end.

(** ** Further examples *)

(** A custom mechanism that returns the same values whatever it is given. *)
Definition constant (vals : list value) : mechanism :=
  fun X error args => ok vals.


(** * Properties *)

Section Properties.

Context `{Lib : Library}.

(** ** Running a method step by step *)

Lemma bind_ok {A B} (m : M A) (f : A -> M B) self a self1 t1 :
  m self = (inr a, self1, t1) ->
  bind m f self =
  (fst (fst (f a self1)), snd (fst (f a self1)), t1 ++ snd (f a self1)).
Proof.
  intros H. unfold bind. rewrite H. destruct (f a self1) as [[r s2] t2].
  reflexivity.
Qed.

Lemma bind_raise {A B} (m : M A) (f : A -> M B) self e self1 t1 :
  m self = (inl e, self1, t1) ->
  bind m f self = (inl e, self1, t1).
Proof. intros H. unfold bind. rewrite H. reflexivity. Qed.

Lemma bind_then {A B} (m : M A) (f : A -> M B) self a self1 t1 r self2 t2 :
  m self = (inr a, self1, t1) ->
  f a self1 = (r, self2, t2) ->
  bind m f self = (r, self2, t1 ++ t2).
Proof. intros Hm Hf. unfold bind. rewrite Hm, Hf. reflexivity. Qed.

Lemma bind_quiet {A B} (m : M A) (f : A -> M B) self a :
  m self = (inr a, self, []) -> bind m f self = f a self.
Proof.
  intros Hm. unfold bind. rewrite Hm. destruct (f a self) as [[r s2] t2].
  reflexivity.
Qed.

Lemma bind_inv {A B} (m : M A) (f : A -> M B) self r self2 t :
  bind m f self = (r, self2, t) ->
  (exists e, m self = (inl e, self2, t) /\ r = inl e) \/
  (exists a self1 t1 t2,
      m self = (inr a, self1, t1) /\ f a self1 = (r, self2, t2) /\ t = t1 ++ t2).
Proof.
  unfold bind. destruct (m self) as [[[e|a] s1] t1].
  - intros H. injection H as <- <- <-. left. eauto.
  - destruct (f a s1) as [[r2 s2] t2] eqn:E. intros H. injection H as <- <- <-.
    right. exists a, s1, t1, t2. auto.
Qed.

Lemma keeps_ret {A} (a : A) : keeps_self (ret a).
Proof. intros s. reflexivity. Qed.

Lemma keeps_raise {A} c msg : keeps_self (@raise _ A c msg).
Proof. intros s. reflexivity. Qed.

Lemma keeps_lift {A} (r : result A) : keeps_self (lift r).
Proof. intros s. reflexivity. Qed.

Lemma keeps_emit ev : keeps_self (emit ev).
Proof. intros s. reflexivity. Qed.

Lemma keeps_attrs : keeps_self attrs.
Proof. intros s. unfold attrs. destruct (attributes s); reflexivity. Qed.

Lemma keeps_bind {A B} (m : M A) (f : A -> M B) :
  keeps_self m -> (forall a, keeps_self (f a)) -> keeps_self (bind m f).
Proof.
  intros Hm Hf s. unfold bind. specialize (Hm s).
  destruct (m s) as [[[e|a] s1] t1]; simpl in *; subst; [reflexivity|].
  specialize (Hf a s). destruct (f a s) as [[r s2] t2]. exact Hf.
Qed.

Lemma keeps_try_except {A} (m : M A) h :
  keeps_self m -> (forall e, keeps_self (h e)) -> keeps_self (try_except m h).
Proof.
  intros Hm Hh s. unfold try_except. specialize (Hm s).
  destruct (m s) as [[[e|a] s1] t1]; simpl in *; subst; [|reflexivity].
  specialize (Hh e s). destruct (h e s) as [[r s2] t2]. exact Hh.
Qed.

Create HintDb keeps.
#[local] Hint Resolve keeps_ret keeps_raise keeps_lift keeps_emit keeps_attrs
  keeps_bind keeps_try_except : keeps.

Ltac keeps :=
  repeat first
    [ apply keeps_ret | apply keeps_raise | apply keeps_lift | apply keeps_emit
    | apply keeps_attrs
    | apply keeps_bind; [|intros ?]
    | apply keeps_try_except; [|intros ?]
    | match goal with
      | |- keeps_self (match ?x with _ => _ end) => destruct x
      | |- keeps_self (if ?x then _ else _) => destruct x
      end ].

Lemma keeps_assign name vals g : keeps_self (assign name vals g).
Proof. unfold assign. keeps. Qed.

Lemma keeps_assign_item name item g : keeps_self (assign_item name item g).
Proof. unfold assign_item. keeps. Qed.

Lemma keeps_assign_iadd name p g : keeps_self (assign_iadd name p g).
Proof. unfold assign_iadd. keeps. Qed.

Lemma keeps_assign_categorical name g : keeps_self (assign_categorical name g).
Proof. unfold assign_categorical. keeps. Qed.

Lemma keeps_update_interventions d g : keeps_self (update_interventions d g).
Proof.
  revert g. induction d as [|[name v] d IH]; intros g; simpl.
  - keeps.
  - apply keeps_bind; [apply keeps_assign|]. intros g'. apply IH.
Qed.

Lemma keeps_check_items items : keeps_self (_check_data_dict_items items).
Proof.
  induction items as [|[k v] items IH]; simpl.
  - keeps.
  - destruct k; [|keeps].
    apply keeps_bind; [keeps|]. intros a.
    destruct (negb _); [keeps|].
    apply keeps_bind; [keeps|]. intros n.
    destruct (negb _); [keeps|].
    apply keeps_bind; [exact IH|]. intros rest. keeps.
Qed.

Lemma keeps_check_data_dict d name : keeps_self (_check_data_dict d name).
Proof. destruct d; simpl; [keeps|keeps|apply keeps_check_items]. Qed.

Lemma keeps_check_callable m msg : keeps_self (check_callable m msg).
Proof. unfold check_callable. keeps. Qed.

Lemma existsb_eqb_In name l : existsb (String.eqb name) l = true <-> In name l.
Proof.
  rewrite existsb_exists. split.
  - intros [x [Hin Heq]]. apply String.eqb_eq in Heq. subst. exact Hin.
  - intros Hin. exists name. split; [exact Hin|apply String.eqb_refl].
Qed.

Lemma check_array_values_length v n :
  check_array_values v = inr n -> n = List.length v.
Proof.
  unfold check_array_values.
  destruct (negb (existsb is_label v) && existsb is_nan v); [discriminate|].
  destruct (Nat.ltb (List.length v) 1); [discriminate|].
  intros H. injection H as <-. reflexivity.
Qed.

Lemma check_array_values_error v e :
  check_array_values v = inl e -> eclass e = ValueError.
Proof.
  unfold check_array_values.
  destruct (negb (existsb is_label v) && existsb is_nan v);
    [intros H; injection H as <-; reflexivity|].
  destruct (Nat.ltb (List.length v) 1); [|discriminate].
  intros H; injection H as <-; reflexivity.
Qed.

(** The checks of the items neither write nor call anything. *)
Lemma check_items_silent items self :
  exists r, _check_data_dict_items items self = (r, self, []).
Proof.
  induction items as [|[k v] items IH]; cbn [_check_data_dict_items].
  - eexists. reflexivity.
  - destruct k as [name|repr]; [|eexists; reflexivity].
    unfold bind at 1. unfold attrs.
    destruct (attributes self) as [a|]; [|eexists; reflexivity].
    match goal with |- context [negb ?b] => destruct b end;
      [|eexists; reflexivity].
    cbn [negb]. unfold bind at 1. unfold lift.
    destruct (check_array_values v) as [e|n]; [eexists; reflexivity|].
    destruct (Nat.eqb n (pd.shape0 (_X a))); [|eexists; reflexivity].
    cbn [negb]. unfold bind at 1. destruct IH as [r ->].
    destruct r as [e|rest]; eexists; reflexivity.
Qed.

Lemma check_data_dict_silent d name self :
  exists r, _check_data_dict d name self = (r, self, []).
Proof.
  destruct d; cbn [_check_data_dict]; [eexists; reflexivity|eexists; reflexivity|].
  apply check_items_silent.
Qed.

(** One valid item: the loop goes on to the next. *)
Lemma check_items_step a name v items self :
  attributes self = Some a ->
  In name (names a) ->
  check_array_values v = inr (pd.shape0 (_X a)) ->
  _check_data_dict_items ((StrKey name, v) :: items) self =
  match _check_data_dict_items items self with
  | (inl e, s, t) => (inl e, s, t)
  | (inr rest, s, t) => (inr ((name, v) :: rest), s, t)
  end.
Proof.
  intros Ha Hin Hv. cbn [_check_data_dict_items].
  unfold bind at 1. unfold attrs. rewrite Ha.
  apply existsb_eqb_In in Hin. unfold names in Hin. rewrite Hin. cbn [negb].
  unfold bind at 1. unfold lift. rewrite Hv. rewrite Nat.eqb_refl. cbn [negb].
  unfold bind at 1.
  destruct (check_items_silent items self) as [r ->].
  destruct r; reflexivity.
Qed.

(** Valid items are passed over. *)
Lemma check_items_valid a good rest self :
  attributes self = Some a ->
  Forall (valid_item a) good ->
  forall e, _check_data_dict_items rest self = (inl e, self, []) ->
  _check_data_dict_items (good ++ rest) self = (inl e, self, []).
Proof.
  intros Ha Hgood e Hrest.
  induction Hgood as [|[k v] good [name [Hk [Hin Hv]]] _ IH]; [exact Hrest|].
  cbn [fst snd] in Hk, Hv. subst k. rewrite <- app_comm_cons.
  rewrite (check_items_step a); [|assumption..]. rewrite IH. reflexivity.
Qed.

Lemma check_items_accept a items self :
  attributes self = Some a ->
  Forall (valid_item a) items ->
  exists d, _check_data_dict_items items self = (inr d, self, []).
Proof.
  intros Ha Hgood.
  induction Hgood as [|[k v] good [name [Hk [Hin Hv]]] _ [d IH]];
    [eexists; reflexivity|].
  cbn [fst snd] in Hk, Hv. subst k.
  rewrite (check_items_step a); [|assumption..]. rewrite IH.
  eexists. reflexivity.
Qed.

Lemma check_data_dict_rejected a d c name self :
  attributes self = Some a ->
  rejected a d c ->
  exists msg, _check_data_dict d name self = (inl (Exception c msg), self, []).
Proof.
  intros Ha Hrej. destruct Hrej as [|good repr v rest Hg|good k v rest Hg Hk
                                    |good k v rest Hg Hk Hlen];
    cbn [_check_data_dict].
  - eexists. reflexivity.
  - eexists. apply (check_items_valid a); [exact Ha|exact Hg|]. reflexivity.
  - eexists. apply (check_items_valid a); [exact Ha|exact Hg|].
    cbn [_check_data_dict_items]. unfold bind at 1. unfold attrs. rewrite Ha.
    destruct (existsb (String.eqb k) (_cause a :: _effect a :: _adjustments a)) eqn:E.
    + apply existsb_eqb_In in E. contradiction.
    + reflexivity.
  - apply existsb_eqb_In in Hk. unfold names in Hk.
    destruct (check_array_values v) as [e|n] eqn:Ev.
    + destruct e as [ce msg]. pose proof (check_array_values_error _ _ Ev) as Hc.
      cbn [eclass] in Hc. subst ce.
      exists msg. apply (check_items_valid a); [exact Ha|exact Hg|].
      cbn [_check_data_dict_items]. unfold bind at 1. unfold attrs.
      rewrite Ha. rewrite Hk. cbn [negb].
      unfold bind at 1. unfold lift. rewrite Ev. reflexivity.
    + pose proof (check_array_values_length _ _ Ev) as ->.
      eexists. apply (check_items_valid a); [exact Ha|exact Hg|].
      cbn [_check_data_dict_items]. unfold bind at 1. unfold attrs.
      rewrite Ha. rewrite Hk. cbn [negb].
      unfold bind at 1. unfold lift. rewrite Ev.
      apply Nat.eqb_neq in Hlen. rewrite Hlen. reflexivity.
Qed.

Lemma check_data_dict_accepted a d name self :
  attributes self = Some a ->
  accepted a d ->
  exists items, _check_data_dict d name self = (inr items, self, []).
Proof.
  intros Ha [->|[items [-> Hv]]]; cbn [_check_data_dict].
  - eexists. reflexivity.
  - apply (check_items_accept a); assumption.
Qed.

(** C5.  On a fitted instance, an intervention argument that is not a dict
    or has a key that is not a string makes [generate] raise a TypeError; a
    key outside cause, effect and the adjustments, or an array whose length
    is not the number of rows of the fitted table, makes it raise a
    ValueError.  The arguments are checked in order ([interv_endog], then
    [interv_exog], the items of a dict one after the other), so the first
    failing check decides.  The error leaves the instance as it was and
    comes before the working table is created or any column written: the
    trace of the call is empty. *)
Theorem generate_rejects_bad_interventions
        (self : CausalDataGenerator) (a : fitted)
        (interv_endog interv_exog : dict_arg)
        (cause_model effect_model : option callable_arg)
        (cause_model_args effect_model_args : option (list value))
        (c : exn_class) :
  attributes self = Some a ->
  rejected a interv_endog c \/
  (accepted a interv_endog /\ rejected a interv_exog c) ->
  exists msg,
    generate interv_endog interv_exog cause_model cause_model_args
             effect_model effect_model_args self
    = (inl (Exception c msg), self, []).
Proof.
  intros Ha [Hrej|[Hacc Hrej]]; unfold generate.
  - destruct (check_data_dict_rejected a _ c "interv_endog" self Ha Hrej)
      as [msg E].
    exists msg. apply bind_raise. exact E.
  - destruct (check_data_dict_accepted a _ "interv_endog" self Ha Hacc)
      as [items E].
    destruct (check_data_dict_rejected a _ c "interv_exog" self Ha Hrej)
      as [msg E'].
    exists msg. rewrite (bind_ok _ _ _ _ _ _ E).
    rewrite (bind_raise _ _ _ _ _ _ E'). reflexivity.
Qed.

Lemma check_array_frame_error X e :
  check_array_frame X = inl e -> eclass e = ValueError.
Proof.
  unfold check_array_frame.
  repeat match goal with
         | |- context [if ?b then _ else _] => destruct b
         end; intros H; try discriminate; injection H as <-; reflexivity.
Qed.

Lemma check_array_frame_columns X :
  List.length (columns X) < 2 -> exists e, check_array_frame X = inl e.
Proof.
  intros Hlt. unfold check_array_frame.
  apply Nat.ltb_lt in Hlt. rewrite Hlt.
  repeat match goal with
         | |- context [if ?b then _ else _] => destruct b
         end; eexists; reflexivity.
Qed.

Lemma check_array_flat_error a e :
  check_array_flat a = inl e -> eclass e = ValueError.
Proof.
  destruct a as [l|[|r rest]|]; cbn [check_array_flat]; try discriminate.
  - destruct (negb _); [intros H; injection H as <-; reflexivity|].
    destruct (Nat.ltb _ _); [intros H; injection H as <-; reflexivity|].
    discriminate.
  - intros H; injection H as <-; reflexivity.
Qed.

(** C6, as amended.  [fit] checks its arguments in a fixed order, and an
    argument that fails a check makes it raise before any model is trained
    and before any attribute is written (the instance is unchanged and the
    trace is empty): first [X] must be a DataFrame (TypeError); then it must
    pass the array check, which asks for at least two columns (ValueError);
    then the cause must be a column (ValueError); then the effect
    (ValueError); then the adjustments, if given, must pass their array
    check (ValueError), which refuses an array of three or more dimensions.
    An array of adjustments that passes need not be flat: it is flattened,
    and [fit] goes on exactly as with the flat sequence of its names; so it
    does with the nested list of one or more rows of one length, at least
    one name each. *)
Theorem fit_validates_in_order
        (X : X_arg) (cause effect : string) (adjustments : option array_like)
        (model_cause model_effect : option estimator)
        (self : CausalDataGenerator) :
  let outcome := fit X cause effect adjustments model_cause model_effect self in
  match X with
  | NotADataFrame =>
      outcome =
      (inl (Exception TypeError "X shall be a pandas.DataFrame."), self, [])
  | DataFrame df =>
      (List.length (columns df) < 2 ->
       exists e, eclass e = ValueError /\ outcome = (inl e, self, [])) /\
      match check_array_frame df with
      | inl e => eclass e = ValueError /\ outcome = (inl e, self, [])
      | inr _ =>
          if negb (pd.contains cause df) then
            outcome =
            (inl (Exception ValueError "cause isn't exist in X.columns."),
             self, [])
          else if negb (pd.contains effect df) then
            outcome =
            (inl (Exception ValueError "effect isn't exist in X.columns."),
             self, [])
          else
            match adjustments with
            | None =>
                outcome =
                fit X cause effect (Some (Array1D []))
                    model_cause model_effect self
            | Some a =>
                (a = ArrayND ->
                 exists msg,
                   outcome = (inl (Exception ValueError msg), self, [])) /\
                (forall r rest,
                    a = Array2D (r :: rest) ->
                    r <> [] ->
                    Forall (fun r' => List.length r' = List.length r) rest ->
                    check_array_flat a = inr (concat (r :: rest))) /\
                match check_array_flat a with
                | inl e => eclass e = ValueError /\ outcome = (inl e, self, [])
                | inr names =>
                    outcome =
                    fit X cause effect (Some (Array1D names))
                        model_cause model_effect self
                end
            end
      end
  end.
Proof.
  intros outcome. subst outcome. destruct X as [|df]; [reflexivity|].
  assert (Hcheck : forall e, check_array_frame df = inl e ->
                   fit (DataFrame df) cause effect adjustments
                       model_cause model_effect self = (inl e, self, [])).
  { intros e He. unfold fit, fit_checks. unfold bind at 1. unfold bind at 1.
    unfold ret at 1. unfold bind at 1. unfold lift at 1. rewrite He.
    reflexivity. }
  split.
  - intros Hlt. destruct (check_array_frame_columns df Hlt) as [e He].
    exists e. split; [exact (check_array_frame_error _ _ He)|auto].
  - destruct (check_array_frame df) as [e|[]] eqn:He.
    + split; [exact (check_array_frame_error _ _ He)|auto].
    + destruct (pd.contains cause df) eqn:Hc; cbn [negb].
      2:{ unfold fit, fit_checks. unfold bind at 1. unfold bind at 1.
          unfold ret at 1. unfold bind at 1. unfold lift at 1. rewrite He.
          unfold bind at 1. rewrite Hc. reflexivity. }
      destruct (pd.contains effect df) eqn:Hf; cbn [negb].
      2:{ unfold fit, fit_checks. unfold bind at 1. unfold bind at 1.
          unfold ret at 1. unfold bind at 1. unfold lift at 1. rewrite He.
          unfold bind at 1. rewrite Hc. unfold ret at 1.
          unfold bind at 1. rewrite Hf. reflexivity. }
      destruct adjustments as [a|]; [|reflexivity].
      assert (Hflat : forall e, check_array_flat a = inl e ->
                fit (DataFrame df) cause effect (Some a)
                    model_cause model_effect self = (inl e, self, [])).
      { intros e Ee. unfold fit, fit_checks. unfold bind at 1. unfold bind at 1.
        unfold ret at 1. unfold bind at 1. unfold lift at 1. rewrite He.
        unfold bind at 1. rewrite Hc. unfold ret at 1.
        unfold bind at 1. rewrite Hf. unfold ret at 1.
        unfold bind at 1. unfold lift at 1. rewrite Ee. reflexivity. }
      split; [|split].
      * intros ->. eexists. apply Hflat. reflexivity.
      * intros r rest -> Hr Hrest. cbn [check_array_flat].
        replace (forallb _ rest) with true.
        2:{ symmetry. apply forallb_forall. rewrite Forall_forall in Hrest.
            intros r' Hin. apply Nat.eqb_eq. exact (Hrest r' Hin). }
        cbn [negb]. destruct r as [|x r]; [contradiction Hr; reflexivity|].
        reflexivity.
      * destruct (check_array_flat a) as [e|names] eqn:Ee.
        -- split; [exact (check_array_flat_error _ _ Ee)|exact (Hflat e eq_refl)].
        -- unfold fit, fit_checks. rewrite Ee. reflexivity.
Qed.

Lemma keeps_bind_at {A B} (m : M A) (f : A -> M B) self :
  snd (fst (m self)) = self ->
  (forall a t, m self = (inr a, self, t) -> snd (fst (f a self)) = self) ->
  snd (fst (bind m f self)) = self.
Proof.
  intros Hm Hf. unfold bind.
  destruct (m self) as [[[e|a] s1] t1]; cbn [fst snd] in *; subst;
    [reflexivity|].
  specialize (Hf a t1 eq_refl). destruct (f a self) as [[r s2] t2]. exact Hf.
Qed.

Lemma keeps_initial_data a exog : keeps_self (initial_data a exog).
Proof.
  unfold initial_data.
  apply keeps_bind; [keeps|]. intros g0.
  apply keeps_bind; [keeps|]. intros _.
  apply keeps_bind; [apply keeps_assign_item|]. intros g1.
  apply keeps_bind; [apply keeps_assign_item|]. intros g2.
  apply keeps_update_interventions.
Qed.

Lemma keeps_bind_lift {A B} (r : result A) (f : A -> M B) :
  (forall a, r = inr a -> keeps_self (f a)) -> keeps_self (bind (lift r) f).
Proof.
  intros Hf s. unfold bind, lift. destruct r as [e|a]; [reflexivity|].
  specialize (Hf a eq_refl s). destruct (f a s) as [[r s2] t2]. exact Hf.
Qed.

(** Without a custom mechanism, a variable that is not categorical is
    resolved without a draw. *)
Lemma keeps_resolve_continuous a target features model_name model_
      custom_name custom_model_args interv_endog generated :
  dtype_of target (_X a) = inr other ->
  keeps_self (resolve a target features model_name model_
                      custom_name None custom_model_args
                      interv_endog generated).
Proof.
  intros Hd. unfold resolve.
  destruct (find _ interv_endog); [apply keeps_assign|].
  apply keeps_bind_lift. intros d Hd'. rewrite Hd in Hd'.
  injection Hd' as <-. cbn [is_category negb].
  apply keeps_bind; [unfold method_of; keeps|]. intros m.
  apply keeps_bind; [keeps|]. intros Xf.
  apply keeps_bind; [keeps|]. intros _.
  apply keeps_bind; [keeps|]. intros p.
  apply keeps_assign_iadd.
Qed.

(** C10.  When the fitted cause and effect columns are not categorical and
    no custom mechanism is given, [generate] does not touch the instance:
    its random stream is only read in the categorical branches.  So a second
    call with the same arguments returns what the first returned. *)
Theorem generate_continuous_deterministic
        (self : CausalDataGenerator) (a : fitted)
        (interv_endog interv_exog : dict_arg)
        (cause_model_args effect_model_args : option (list value))
        (r : result frame) (self1 : CausalDataGenerator) (t : list event) :
  attributes self = Some a ->
  dtype_of (_cause a) (_X a) = inr other ->
  dtype_of (_effect a) (_X a) = inr other ->
  generate interv_endog interv_exog None cause_model_args
           None effect_model_args self = (r, self1, t) ->
  self1 = self /\
  generate interv_endog interv_exog None cause_model_args
           None effect_model_args self1 = (r, self1, t).
Proof.
  intros Ha Hc He Hrun.
  assert (K : snd (fst (generate interv_endog interv_exog None
                          cause_model_args None effect_model_args self))
              = self).
  { unfold generate.
    apply keeps_bind_at; [apply keeps_check_data_dict|]. intros endog t1 _.
    apply keeps_bind_at; [apply keeps_check_data_dict|]. intros exog t2 _.
    apply keeps_bind_at; [apply keeps_check_callable|]. intros cm t3 Ecm.
    injection Ecm as <- _.
    apply keeps_bind_at; [apply keeps_check_callable|]. intros em t4 Eem.
    injection Eem as <- _.
    apply keeps_bind_at; [apply keeps_attrs|]. intros a0 t5 Ea.
    unfold attrs in Ea. rewrite Ha in Ea. injection Ea as <- _.
    apply keeps_bind; [apply keeps_initial_data|]. intros g3.
    apply keeps_bind; [apply keeps_resolve_continuous; exact Hc|]. intros g4.
    apply keeps_bind; [apply keeps_resolve_continuous; exact He|]. intros g5.
    keeps. }
  rewrite Hrun in K. cbn [fst snd] in K. subst self1.
  split; [reflexivity|exact Hrun].
Qed.

(** ** What a method records *)

Lemma emits_ret {A} P (a : A) : emits P (ret a).
Proof. intros s r s1 t H. injection H as _ _ <-. constructor. Qed.

Lemma emits_raise {A} P c msg : emits P (@raise _ A c msg).
Proof. intros s r s1 t H. injection H as _ _ <-. constructor. Qed.

Lemma emits_lift {A} P (x : result A) : emits P (lift x).
Proof. intros s r s1 t H. injection H as _ _ <-. constructor. Qed.

Lemma emits_attrs P : emits P attrs.
Proof.
  intros s r s1 t H. unfold attrs in H.
  destruct (attributes s); injection H as _ _ <-; constructor.
Qed.

Lemma emits_emit (P : event -> Prop) ev : P ev -> emits P (emit ev).
Proof.
  intros HP s r s1 t H. injection H as _ _ <-. constructor; [exact HP|constructor].
Qed.

Lemma emits_bind {A B} P (m : M A) (f : A -> M B) :
  emits P m -> (forall a, emits P (f a)) -> emits P (bind m f).
Proof.
  intros Hm Hf s r s2 t H. apply bind_inv in H.
  destruct H as [[e [H _]]|[a [s1 [t1 [t2 [H1 [H2 ->]]]]]]].
  - exact (Hm _ _ _ _ H).
  - apply Forall_app. split; [exact (Hm _ _ _ _ H1)|exact (Hf _ _ _ _ _ H2)].
Qed.

Lemma emits_try_except {A} P (m : M A) h :
  emits P m -> (forall e, emits P (h e)) -> emits P (try_except m h).
Proof.
  intros Hm Hh s r s2 t H. unfold try_except in H.
  destruct (m s) as [[[e|a] s1] t1] eqn:E.
  - destruct (h e s1) as [[r2 s3] t2] eqn:E2. injection H as _ _ <-.
    apply Forall_app. split; [exact (Hm _ _ _ _ E)|exact (Hh _ _ _ _ _ E2)].
  - injection H as _ _ <-. exact (Hm _ _ _ _ E).
Qed.

Lemma emits_draw (P : event -> Prop) name classes p :
  P (Drawn name p) -> emits P (draw name classes p).
Proof.
  intros HP s r s1 t H. unfold draw in H.
  destruct (choice (_random_state s) classes p). injection H as _ _ <-.
  constructor; [exact HP|constructor].
Qed.

Lemma emits_store (P : event -> Prop) a : P AttributesWritten -> emits P (store a).
Proof.
  intros HP s r s1 t H. injection H as _ _ <-. constructor; [exact HP|constructor].
Qed.

Ltac emits :=
  repeat first
    [ apply emits_ret | apply emits_raise | apply emits_lift | apply emits_attrs
    | apply emits_bind; [|intros ?]
    | apply emits_try_except; [|intros ?]
    | match goal with
      | |- emits _ (match ?x with _ => _ end) => destruct x
      | |- emits _ (if ?x then _ else _) => destruct x
      end ].

Lemma emits_assign (P : event -> Prop) name vals g :
  P (ColumnWritten name) -> emits P (assign name vals g).
Proof. intros HP. unfold assign. emits. apply emits_emit. exact HP. Qed.

Lemma emits_assign_item (P : event -> Prop) name item g :
  P (ColumnWritten name) -> emits P (assign_item name item g).
Proof. intros HP. unfold assign_item. emits. apply emits_emit. exact HP. Qed.

Lemma emits_assign_iadd (P : event -> Prop) name p g :
  P (ColumnWritten name) -> emits P (assign_iadd name p g).
Proof. intros HP. unfold assign_iadd. emits. apply emits_emit. exact HP. Qed.

Lemma emits_assign_categorical (P : event -> Prop) name g :
  P (ColumnWritten name) -> emits P (assign_categorical name g).
Proof. intros HP. unfold assign_categorical. emits. apply emits_emit. exact HP. Qed.

Lemma emits_update_interventions (P : event -> Prop) d g :
  (forall name, P (ColumnWritten name)) -> emits P (update_interventions d g).
Proof.
  intros HP. revert g. induction d as [|[name v] d IH]; intros g;
    cbn [update_interventions].
  - emits.
  - apply emits_bind; [apply emits_assign; apply HP|]. intros g'. apply IH.
Qed.

Lemma emits_sample (P : event -> Prop) name m proba :
  (forall p, P (Drawn name p)) -> emits P (sample name m proba).
Proof.
  intros HP. induction proba as [|p proba IH]; cbn [sample].
  - emits.
  - apply emits_bind; [apply emits_draw; apply HP|]. intros v.
    apply emits_bind; [exact IH|]. intros vs. emits.
Qed.

Lemma emits_silent {A} P (m : M A) :
  (forall self, exists r, m self = (r, self, [])) -> emits P m.
Proof.
  intros Hm s r s1 t H. destruct (Hm s) as [r' E]. rewrite E in H.
  injection H as _ _ <-. constructor.
Qed.

Lemma emits_is_sklearn_estimator P e c : emits P (_is_sklearn_estimator e c).
Proof. unfold _is_sklearn_estimator. emits. Qed.

(** [_make_model] records the training call, with the tables it is given,
    and the prediction behind the residuals. *)
Lemma emits_make_model X y name model :
  emits (fun ev => ev = Trained name X y \/ ev = Predicted name X)
        (_make_model X y name model).
Proof.
  unfold _make_model.
  apply emits_bind.
  - destruct model as [est|].
    + apply emits_bind; [apply emits_emit; auto|]. intros _. emits.
    + apply emits_bind; [emits|]. intros c.
      apply emits_bind; [apply emits_emit; auto|]. intros _. emits.
  - intros m. apply emits_bind; [emits|]. intros sc.
    apply emits_bind; [|intros ?; emits].
    destruct (is_category (cdtype sc)); [emits|].
    apply emits_bind; [apply emits_emit; auto|]. intros _. emits.
Qed.

Lemma emits_weaken {A} (P Q : event -> Prop) (m : M A) :
  (forall ev, P ev -> Q ev) -> emits P m -> emits Q m.
Proof.
  intros HPQ Hm s r s1 t H. eapply Forall_impl; [exact HPQ|].
  exact (Hm _ _ _ _ H).
Qed.

(** An event that a step cannot record was recorded after it: the step
    returned and the rest of the method ran. *)
Lemma peel {A B} (P : event -> Prop) ev (m : M A) (f : A -> M B)
      self r self2 t :
  emits P m -> ~ P ev ->
  bind m f self = (r, self2, t) -> In ev t ->
  exists a self1 t1 t2,
    m self = (inr a, self1, t1) /\ f a self1 = (r, self2, t2) /\
    t = t1 ++ t2 /\ Forall P t1 /\ In ev t2.
Proof.
  intros Hm Hev H Hin. apply bind_inv in H.
  destruct H as [[e [H _]]|[a [s1 [t1 [t2 [H1 [H2 ->]]]]]]].
  - exfalso. apply Hev. pose proof (Hm _ _ _ _ H) as HF.
    rewrite Forall_forall in HF. exact (HF _ Hin).
  - pose proof (Hm _ _ _ _ H1) as HF.
    exists a, s1, t1, t2. repeat split; auto.
    apply in_app_or in Hin. destruct Hin as [Hin|Hin]; [|exact Hin].
    exfalso. apply Hev. rewrite Forall_forall in HF. exact (HF _ Hin).
Qed.

Lemma keeps_make_model X y name model : keeps_self (_make_model X y name model).
Proof.
  unfold _make_model. apply keeps_bind.
  - destruct model; keeps.
  - intros m. keeps.
Qed.

Lemma keeps_is_sklearn_estimator e c : keeps_self (_is_sklearn_estimator e c).
Proof. unfold _is_sklearn_estimator. keeps. Qed.

Lemma keeps_fit_checks X cause effect adjustments mc me :
  keeps_self (fit_checks X cause effect adjustments mc me).
Proof.
  unfold fit_checks.
  apply keeps_bind; [keeps|]. intros X'.
  apply keeps_bind; [keeps|]. intros _.
  apply keeps_bind; [keeps|]. intros _.
  apply keeps_bind; [keeps|]. intros _.
  apply keeps_bind; [keeps|]. intros adjs.
  apply keeps_bind.
  { destruct mc; [|keeps]. apply keeps_bind; [keeps|]. intros d.
    apply keeps_is_sklearn_estimator. }
  intros _. apply keeps_bind.
  { destruct me; [|keeps]. apply keeps_bind; [keeps|]. intros d.
    apply keeps_is_sklearn_estimator. }
  intros _. keeps.
Qed.

Lemma emits_fit_checks P X cause effect adjustments mc me :
  emits P (fit_checks X cause effect adjustments mc me).
Proof.
  unfold fit_checks.
  apply emits_bind; [emits|]. intros X'.
  apply emits_bind; [emits|]. intros _.
  apply emits_bind; [emits|]. intros _.
  apply emits_bind; [emits|]. intros _.
  apply emits_bind; [emits|]. intros adjs.
  apply emits_bind.
  { destruct mc; [|emits]. apply emits_bind; [emits|]. intros d.
    apply emits_is_sklearn_estimator. }
  intros _. apply emits_bind.
  { destruct me; [|emits]. apply emits_bind; [emits|]. intros d.
    apply emits_is_sklearn_estimator. }
  intros _. emits.
Qed.

Lemma keeps_fit_cause X cause adjs mc : keeps_self (fit_cause X cause adjs mc).
Proof.
  unfold fit_cause. destruct (Nat.eqb _ 0); [keeps|].
  apply keeps_bind; [keeps|]. intros Xa.
  apply keeps_bind; [keeps|]. intros y.
  apply keeps_bind; [apply keeps_make_model|]. intros mr. keeps.
Qed.

Lemma keeps_fit_effect X cause effect adjs me :
  keeps_self (fit_effect X cause effect adjs me).
Proof.
  unfold fit_effect.
  apply keeps_bind; [keeps|]. intros Xe.
  apply keeps_bind; [keeps|]. intros y. apply keeps_make_model.
Qed.

(** The training call of the cause is the one on the adjustment columns. *)
Lemma emits_fit_cause X cause adjs mc :
  emits (fun ev =>
           exists Xa y,
             pd.getitem_list adjs X = inr Xa /\ pd.getitem cause X = inr y /\
             (ev = Trained "model_cause" Xa y \/ ev = Predicted "model_cause" Xa))
        (fit_cause X cause adjs mc).
Proof.
  unfold fit_cause. destruct (Nat.eqb _ 0); [emits|].
  intros s r s1 t H.
  unfold bind at 1 in H. unfold lift at 1 in H.
  destruct (pd.getitem_list adjs X) as [e|Xa] eqn:EXa.
  { injection H as _ _ <-. constructor. }
  unfold bind at 1 in H. unfold lift at 1 in H.
  destruct (pd.getitem cause X) as [e|y] eqn:Ey.
  { injection H as _ _ <-. constructor. }
  cbn [app] in H.
  assert (K : emits (fun ev => ev = Trained "model_cause" Xa y
                               \/ ev = Predicted "model_cause" Xa)
                    (bind (_make_model Xa y "model_cause" mc)
                          (fun mr => ret (Some (fst mr), snd mr)))).
  { apply emits_bind; [apply emits_make_model|]. intros mr. emits. }
  destruct (bind _ _ s) as [[r2 s2] t2] eqn:E2.
  injection H as _ _ <-. cbn [app].
  eapply Forall_impl; [|exact (K _ _ _ _ E2)].
  intros ev Hev. exists Xa, y. auto.
Qed.

Lemma emits_fit_effect X cause effect adjs me :
  emits (fun ev =>
           exists Xe y,
             pd.getitem_list (cause :: adjs) X = inr Xe /\
             pd.getitem effect X = inr y /\
             (ev = Trained "model_effect" Xe y \/ ev = Predicted "model_effect" Xe))
        (fit_effect X cause effect adjs me).
Proof.
  unfold fit_effect.
  intros s r s1 t H.
  unfold bind at 1 in H. unfold lift at 1 in H.
  destruct (pd.getitem_list (cause :: adjs) X) as [e|Xe] eqn:EXe.
  { injection H as _ _ <-. constructor. }
  unfold bind at 1 in H. unfold lift at 1 in H.
  destruct (pd.getitem effect X) as [e|y] eqn:Ey.
  { injection H as _ _ <-. constructor. }
  cbn [app] in H.
  destruct (_make_model Xe y "model_effect" me s) as [[r2 s2] t2] eqn:E2.
  injection H as _ _ <-. cbn [app].
  eapply Forall_impl; [|exact (emits_make_model _ _ _ _ _ _ _ _ E2)].
  intros ev Hev. exists Xe, y. auto.
Qed.

(** A caller's estimator whose training raises: the error is wrapped, and
    nothing more happens. *)
Lemma make_model_supplied_fails X y name est e self :
  fit_ est X y = inl e ->
  _make_model X y name (Some est) self =
  (inl (Exception RuntimeError (name ++ ".fit(): " ++ str e)), self,
   [Trained name X y]).
Proof.
  intros He. unfold _make_model. unfold bind at 1. unfold bind at 1.
  unfold emit at 1. rewrite He. reflexivity.
Qed.

Lemma fit_cause_trained X cause adjs est self r self1 t Xa y e :
  fit_cause X cause adjs (Some est) self = (r, self1, t) ->
  In (Trained "model_cause" Xa y) t ->
  fit_ est Xa y = inl e ->
  r = inl (Exception RuntimeError ("model_cause.fit(): " ++ str e)) /\
  self1 = self /\ t = [Trained "model_cause" Xa y].
Proof.
  intros H Hin He.
  pose proof (emits_fit_cause _ _ _ _ _ _ _ _ H) as HF.
  rewrite Forall_forall in HF.
  destruct (HF _ Hin) as [Xa' [y' [EXa [Ey [Hev|Hev]]]]]; [|discriminate].
  injection Hev as <- <-.
  unfold fit_cause in H. destruct (Nat.eqb _ 0).
  - unfold bind, lift, ret in H. rewrite Ey in H. injection H as _ _ <-.
    destruct Hin.
  - unfold bind at 1 in H. unfold lift at 1 in H. rewrite EXa in H.
    unfold bind at 1 in H. unfold lift at 1 in H. rewrite Ey in H.
    unfold bind at 1 in H. rewrite (make_model_supplied_fails _ _ _ _ _ _ He) in H.
    injection H as <- <- <-. auto.
Qed.

Lemma fit_effect_trained X cause effect adjs est self r self1 t Xe y e :
  fit_effect X cause effect adjs (Some est) self = (r, self1, t) ->
  In (Trained "model_effect" Xe y) t ->
  fit_ est Xe y = inl e ->
  r = inl (Exception RuntimeError ("model_effect.fit(): " ++ str e)) /\
  self1 = self /\ t = [Trained "model_effect" Xe y].
Proof.
  intros H Hin He.
  pose proof (emits_fit_effect _ _ _ _ _ _ _ _ _ H) as HF.
  rewrite Forall_forall in HF.
  destruct (HF _ Hin) as [Xe' [y' [EXe [Ey [Hev|Hev]]]]]; [|discriminate].
  injection Hev as <- <-.
  unfold fit_effect in H.
  unfold bind at 1 in H. unfold lift at 1 in H. rewrite EXe in H.
  unfold bind at 1 in H. unfold lift at 1 in H. rewrite Ey in H.
  rewrite (make_model_supplied_fails _ _ _ _ _ _ He) in H.
  injection H as <- <- <-. auto.
Qed.

Lemma fit_model_cause_failure X cause effect adjustments est model_effect
      self r self1 t Xa y e :
  fit X cause effect adjustments (Some est) model_effect self = (r, self1, t) ->
  In (Trained "model_cause" Xa y) t ->
  fit_ est Xa y = inl e ->
  r = inl (Exception RuntimeError ("model_cause.fit(): " ++ str e)) /\
  self1 = self /\ t = [Trained "model_cause" Xa y].
Proof.
  intros H Hin He. unfold fit in H.
  destruct (peel (fun _ => False) _ _ _ _ _ _ _
                 (emits_fit_checks _ _ _ _ _ _ _) (fun F => F) H Hin)
    as [Xv [s1 [t1 [t2 [Hc [H' [-> [HF Hin2]]]]]]]].
  clear H. rename H' into H.
  destruct t1 as [|ev t1]; [|inversion HF; contradiction]. cbn [app] in *.
  pose proof (keeps_fit_checks X cause effect adjustments (Some est)
                model_effect self) as K.
  rewrite Hc in K. cbn [fst snd] in K. subst s1.
  apply bind_inv in H.
  destruct H as [[e' [H ->]]|[mc [s1 [tc [t3 [H1 [H2 ->]]]]]]].
  - destruct (fit_cause_trained _ _ _ _ _ _ _ _ _ _ _ H Hin2 He) as [E [-> ->]].
    injection E as ->. split; [reflexivity|split; reflexivity].
  - apply in_app_or in Hin2. destruct Hin2 as [Hin2|Hin2].
    + destruct (fit_cause_trained _ _ _ _ _ _ _ _ _ _ _ H1 Hin2 He) as [E _].
      discriminate.
    + exfalso.
      match type of H2 with
      | ?m _ = _ =>
          assert (K2 : emits (fun ev => delegate ev <> Some "model_cause") m)
      end.
      { apply emits_bind.
        - eapply emits_weaken; [|apply emits_fit_effect].
          intros ev [Xe [y' [_ [_ [->| ->]]]]]; discriminate.
        - intros me. apply emits_store. discriminate. }
      pose proof (K2 _ _ _ _ H2) as HF2. rewrite Forall_forall in HF2.
      apply (HF2 _ Hin2). reflexivity.
Qed.

Lemma fit_model_effect_failure X cause effect adjustments model_cause est
      self r self1 t Xe y e :
  fit X cause effect adjustments model_cause (Some est) self = (r, self1, t) ->
  In (Trained "model_effect" Xe y) t ->
  fit_ est Xe y = inl e ->
  r = inl (Exception RuntimeError ("model_effect.fit(): " ++ str e)) /\
  self1 = self /\
  exists t0, t = t0 ++ [Trained "model_effect" Xe y] /\
             Forall (fun ev => delegate ev <> Some "model_effect") t0.
Proof.
  intros H Hin He. unfold fit in H.
  destruct (peel (fun _ => False) _ _ _ _ _ _ _
                 (emits_fit_checks _ _ _ _ _ _ _) (fun F => F) H Hin)
    as [Xv [s1 [t1 [t2 [Hc [H' [-> [HF Hin2]]]]]]]].
  clear H. rename H' into H.
  destruct t1 as [|ev t1]; [|inversion HF; contradiction]. cbn [app] in *.
  pose proof (keeps_fit_checks X cause effect adjustments model_cause
                (Some est) self) as K.
  rewrite Hc in K. cbn [fst snd] in K. subst s1.
  assert (Kc : emits (fun ev => delegate ev <> Some "model_effect")
                 (fit_cause (fst Xv) cause (snd Xv) model_cause)).
  { eapply emits_weaken; [|apply emits_fit_cause].
    intros ev [Xa [y' [_ [_ [->| ->]]]]]; discriminate. }
  destruct (peel _ (Trained "model_effect" Xe y) _ _ _ _ _ _ Kc
                 (fun K' => K' eq_refl) H Hin2)
    as [mc [s1 [tc [t3 [H1 [H' [-> [HFc Hin3]]]]]]]].
  clear H. rename H' into H.
  pose proof (keeps_fit_cause (fst Xv) cause (snd Xv) model_cause self) as K1.
  rewrite H1 in K1. cbn [fst snd] in K1. subst s1.
  apply bind_inv in H.
  destruct H as [[e' [H ->]]|[me [s1 [te [t4 [H2 [H3 ->]]]]]]].
  - destruct (fit_effect_trained _ _ _ _ _ _ _ _ _ _ _ _ H Hin3 He)
      as [E [-> ->]].
    injection E as ->. split; [reflexivity|]. split; [reflexivity|].
    exists tc. split; [reflexivity|exact HFc].
  - apply in_app_or in Hin3. destruct Hin3 as [Hin3|Hin3].
    + destruct (fit_effect_trained _ _ _ _ _ _ _ _ _ _ _ _ H2 Hin3 He)
        as [E _].
      discriminate.
    + exfalso. unfold store in H3. injection H3 as _ _ <-.
      destruct Hin3 as [Hin3|[]]. discriminate.
Qed.

(** ** The structure of a run of [generate] *)

Lemma emits_initial_data a exog :
  emits (fun ev => delegate ev = None) (initial_data a exog).
Proof.
  unfold initial_data.
  apply emits_bind; [emits|]. intros g0.
  apply emits_bind; [apply emits_emit; reflexivity|]. intros _.
  apply emits_bind; [apply emits_assign_item; reflexivity|]. intros g1.
  apply emits_bind; [apply emits_assign_item; reflexivity|]. intros g2.
  apply emits_update_interventions. reflexivity.
Qed.

Lemma emits_resolve a target features model_name model_ custom_name
      custom_model custom_model_args interv_endog generated :
  emits (fun ev => delegate ev = None \/ delegate ev = Some model_name
                   \/ delegate ev = Some custom_name)
        (resolve a target features model_name model_ custom_name
                 custom_model custom_model_args interv_endog generated).
Proof.
  unfold resolve.
  destruct (find _ interv_endog); [apply emits_assign; auto|].
  destruct custom_model as [f|].
  - apply emits_bind.
    + apply emits_try_except; [|intros e; emits].
      apply emits_bind; [emits|]. intros Xf.
      apply emits_bind; [emits|]. intros err.
      apply emits_bind; [apply emits_emit; auto|]. intros _. emits.
    + intros predicted.
      apply emits_bind; [apply emits_assign; auto|]. intros g.
      apply emits_bind; [emits|]. intros d.
      destruct (is_category d); [apply emits_assign_categorical; auto|emits].
  - apply emits_bind; [emits|]. intros d.
    destruct (negb (is_category d)).
    + apply emits_bind; [unfold method_of; emits|]. intros m.
      apply emits_bind; [emits|]. intros Xf.
      apply emits_bind; [apply emits_emit; auto|]. intros _.
      apply emits_bind; [emits|]. intros p.
      apply emits_assign_iadd; auto.
    + apply emits_bind; [unfold method_of; emits|]. intros m.
      apply emits_bind; [emits|]. intros Xf.
      apply emits_bind; [apply emits_emit; auto|]. intros _.
      apply emits_bind; [emits|]. intros proba.
      apply emits_bind; [apply emits_sample; auto|]. intros predicted.
      apply emits_bind; [apply emits_assign; auto|]. intros g.
      apply emits_assign_categorical; auto.
Qed.

Lemma silent_check_callable m msg : silent (check_callable m msg).
Proof. intros self. destruct m as [[|f]|]; eexists; reflexivity. Qed.

Lemma silent_check_data_dict d name : silent (_check_data_dict d name).
Proof. intros self. apply check_data_dict_silent. Qed.

Lemma silent_attrs : silent attrs.
Proof.
  intros self. unfold attrs. destruct (attributes self); eexists; reflexivity.
Qed.

Lemma bind_silent_inv {A B} (m : M A) (f : A -> M B) self r self2 t :
  silent m ->
  bind m f self = (r, self2, t) ->
  (exists e, m self = (inl e, self, []) /\ r = inl e /\ self2 = self /\ t = []) \/
  (exists a, m self = (inr a, self, []) /\ f a self = (r, self2, t)).
Proof.
  intros Hm H. destruct (Hm self) as [x E]. apply bind_inv in H.
  destruct H as [[e [H ->]]|[a [s1 [t1 [t2 [H1 [H2 ->]]]]]]].
  - rewrite E in H. injection H as -> <- <-. left. exists e. auto.
  - rewrite E in H1. injection H1 as -> <- <-. right. exists a. auto.
Qed.

(** A run of [generate]: either it stops before the variables are resolved,
    having called no delegate, or the arguments passed the checks, the
    initial table was built, and the run is that of the two resolutions and
    of the final selection. *)
Lemma generate_inv interv_endog interv_exog cause_model cause_model_args
      effect_model effect_model_args self r self2 t :
  generate interv_endog interv_exog cause_model cause_model_args
           effect_model effect_model_args self = (r, self2, t) ->
  (exists e, r = inl e /\ self2 = self /\
             Forall (fun ev => delegate ev = None) t) \/
  (exists endog exog cm em a g t1 t2,
      _check_data_dict interv_endog "interv_endog" self = (inr endog, self, []) /\
      _check_data_dict interv_exog "interv_exog" self = (inr exog, self, []) /\
      check_callable cause_model "cause_model shall be callable." self
      = (inr cm, self, []) /\
      check_callable effect_model "effect_model shall be callable." self
      = (inr em, self, []) /\
      attributes self = Some a /\
      initial_data a exog self = (inr g, self, t1) /\
      Forall (fun ev => delegate ev = None) t1 /\
      bind (resolve a (_cause a) (_adjustments a) "model_cause" (model_cause_ a)
                    "cause_model" cm cause_model_args endog g)
           (fun g1 =>
              bind (resolve a (_effect a) (_cause a :: _adjustments a)
                            "model_effect" (Some (model_effect_ a))
                            "effect_model" em effect_model_args endog g1)
                   (fun g2 => lift (pd.loc (index (_X a)) (pd.labels (_X a)) g2)))
           self = (r, self2, t2) /\
      t = t1 ++ t2).
Proof.
  intros H. unfold generate in H.
  apply bind_silent_inv in H; [|apply silent_check_data_dict].
  destruct H as [[e [_ [-> [-> ->]]]]|[endog [E1 H]]]; [left; eauto|].
  apply bind_silent_inv in H; [|apply silent_check_data_dict].
  destruct H as [[e [_ [-> [-> ->]]]]|[exog [E2 H]]]; [left; eauto|].
  apply bind_silent_inv in H; [|apply silent_check_callable].
  destruct H as [[e [_ [-> [-> ->]]]]|[cm [E3 H]]]; [left; eauto|].
  apply bind_silent_inv in H; [|apply silent_check_callable].
  destruct H as [[e [_ [-> [-> ->]]]]|[em [E4 H]]]; [left; eauto|].
  apply bind_silent_inv in H; [|apply silent_attrs].
  destruct H as [[e [_ [-> [-> ->]]]]|[a [E5 H]]]; [left; eauto|].
  unfold attrs in E5. destruct (attributes self) as [a'|] eqn:Ea;
    [|discriminate]. injection E5 as ->.
  apply bind_inv in H.
  destruct H as [[e [H ->]]|[g [s1 [t1 [t2 [H1 [H2 ->]]]]]]].
  - pose proof (keeps_initial_data a exog self) as K.
    rewrite H in K. cbn [fst snd] in K. subst self2.
    left. exists e. repeat split. exact (emits_initial_data _ _ _ _ _ _ H).
  - pose proof (keeps_initial_data a exog self) as K.
    rewrite H1 in K. cbn [fst snd] in K. subst s1.
    right. exists endog, exog, cm, em, a, g, t1, t2.
    repeat split; try assumption.
    exact (emits_initial_data _ _ _ _ _ _ H1).
Qed.

(** A custom mechanism that raises: the error is wrapped, and the column is
    not written. *)
Lemma resolve_custom_called a target features model_name model_ custom_name
      f custom_model_args interv_endog generated self r self1 t Xf err e :
  resolve a target features model_name model_ custom_name (Some f)
          custom_model_args interv_endog generated self = (r, self1, t) ->
  In (Called custom_name Xf err) t ->
  f Xf err custom_model_args = inl e ->
  r = inl (Exception RuntimeError ("Exception: " ++ custom_name ++ ": " ++ str e))
  /\ self1 = self /\ t = [Called custom_name Xf err].
Proof.
  intros H Hin He. unfold resolve in H.
  destruct (find _ interv_endog).
  { exfalso.
    pose proof (emits_assign (fun ev => delegate ev = None) _ _ _ eq_refl
                  _ _ _ _ H) as HF.
    rewrite Forall_forall in HF. specialize (HF _ Hin). discriminate. }
  unfold bind at 1 in H. unfold try_except at 1 in H.
  unfold bind at 1 in H. unfold lift at 1 in H.
  destruct (pd.getitem_list features generated) as [e1|Xf'].
  { unfold raise in H. injection H as _ _ <-. destruct Hin. }
  unfold bind at 1 in H. unfold lift at 1 in H.
  destruct (pd.getitem target generated) as [e1|err'].
  { unfold raise in H. injection H as _ _ <-. destruct Hin. }
  unfold bind at 1 in H. unfold emit at 1 in H. unfold lift at 1 in H.
  destruct (f Xf' err' custom_model_args) as [e1|predicted] eqn:Ef.
  - unfold raise in H. cbn [app] in H. injection H as <- <- <-.
    destruct Hin as [Hin|[]]. injection Hin as -> ->.
    rewrite He in Ef. injection Ef as ->. auto.
  - cbn [app] in H.
    match type of H with
    | match ?x with _ => _ end = _ => destruct x as [[r2 s2] t2] eqn:E2
    end.
    injection H as _ _ <-. cbn [app] in Hin.
    destruct Hin as [Hin|Hin].
    + injection Hin as -> ->. rewrite He in Ef. discriminate.
    + exfalso.
      assert (K : emits (fun ev => delegate ev = None)
                    (bind (assign target predicted generated)
                       (fun g => bind (lift (dtype_of target (_X a)))
                          (fun d => if is_category d
                                    then assign_categorical target g
                                    else ret g)))).
      { apply emits_bind; [apply emits_assign; reflexivity|]. intros g.
        apply emits_bind; [emits|]. intros d.
        destruct (is_category d);
          [apply emits_assign_categorical; reflexivity|emits]. }
      pose proof (K _ _ _ _ E2) as HF.
      rewrite Forall_forall in HF. specialize (HF _ Hin). discriminate.
Qed.

Lemma generate_cause_model_failure interv_endog interv_exog f
      cause_model_args effect_model effect_model_args
      self r self1 t Xf err e :
  generate interv_endog interv_exog (Some (Callable f)) cause_model_args
           effect_model effect_model_args self = (r, self1, t) ->
  In (Called "cause_model" Xf err) t ->
  f Xf err cause_model_args = inl e ->
  r = inl (Exception RuntimeError ("Exception: cause_model: " ++ str e)) /\
  exists t0, t = t0 ++ [Called "cause_model" Xf err] /\
             Forall (fun ev => delegate ev <> Some "cause_model") t0.
Proof.
  intros H Hin He. apply generate_inv in H.
  destruct H as [[e' [_ [_ HF]]]|
                 [endog [exog [cm [em [a [g [t1 [t2 H]]]]]]]]].
  { rewrite Forall_forall in HF. specialize (HF _ Hin). discriminate. }
  destruct H as [_ [_ [E3 [_ [_ [_ [HF1 [H ->]]]]]]]].
  injection E3 as <-.
  assert (HF1' : Forall (fun ev => delegate ev <> Some "cause_model") t1).
  { eapply Forall_impl; [|exact HF1]. intros ev ->. discriminate. }
  apply in_app_or in Hin. destruct Hin as [Hin|Hin].
  { rewrite Forall_forall in HF1. specialize (HF1 _ Hin). discriminate. }
  apply bind_inv in H.
  destruct H as [[e' [H ->]]|[g1 [s1 [tc [t3 [H1 [H2 ->]]]]]]].
  - destruct (resolve_custom_called _ _ _ _ _ _ _ _ _ _ _ _ _ _ _ _ _ H Hin He)
      as [E [_ ->]].
    injection E as ->. split; [reflexivity|]. exists t1. auto.
  - exfalso. apply in_app_or in Hin. destruct Hin as [Hin|Hin].
    + destruct (resolve_custom_called _ _ _ _ _ _ _ _ _ _ _ _ _ _ _ _ _
                  H1 Hin He) as [E _].
      discriminate.
    + assert (K : emits (fun ev => delegate ev <> Some "cause_model")
                    (bind (resolve a (_effect a) (_cause a :: _adjustments a)
                             "model_effect" (Some (model_effect_ a))
                             "effect_model" em effect_model_args endog g1)
                       (fun g2 => lift (pd.loc (index (_X a))
                                               (pd.labels (_X a)) g2)))).
      { apply emits_bind; [|intros g2; emits].
        eapply emits_weaken; [|apply emits_resolve].
        intros ev [-> |[-> | ->]]; discriminate. }
      pose proof (K _ _ _ _ H2) as HF. rewrite Forall_forall in HF.
      apply (HF _ Hin). reflexivity.
Qed.

Lemma generate_effect_model_failure interv_endog interv_exog cause_model
      cause_model_args f effect_model_args
      self r self1 t Xf err e :
  generate interv_endog interv_exog cause_model cause_model_args
           (Some (Callable f)) effect_model_args self = (r, self1, t) ->
  In (Called "effect_model" Xf err) t ->
  f Xf err effect_model_args = inl e ->
  r = inl (Exception RuntimeError ("Exception: effect_model: " ++ str e)) /\
  exists t0, t = t0 ++ [Called "effect_model" Xf err] /\
             Forall (fun ev => delegate ev <> Some "effect_model") t0.
Proof.
  intros H Hin He. apply generate_inv in H.
  destruct H as [[e' [_ [_ HF]]]|
                 [endog [exog [cm [em [a [g [t1 [t2 H]]]]]]]]].
  { rewrite Forall_forall in HF. specialize (HF _ Hin). discriminate. }
  destruct H as [_ [_ [_ [E4 [_ [_ [HF1 [H ->]]]]]]]].
  injection E4 as <-.
  assert (HF1' : Forall (fun ev => delegate ev <> Some "effect_model") t1).
  { eapply Forall_impl; [|exact HF1]. intros ev ->. discriminate. }
  apply in_app_or in Hin. destruct Hin as [Hin|Hin].
  { rewrite Forall_forall in HF1. specialize (HF1 _ Hin). discriminate. }
  assert (Kc : emits (fun ev => delegate ev <> Some "effect_model")
                 (resolve a (_cause a) (_adjustments a) "model_cause"
                          (model_cause_ a) "cause_model" cm cause_model_args
                          endog g)).
  { eapply emits_weaken; [|apply emits_resolve].
    intros ev [-> |[-> | ->]]; discriminate. }
  destruct (peel _ (Called "effect_model" Xf err) _ _ _ _ _ _ Kc
                 (fun K' => K' eq_refl) H Hin)
    as [g1 [s1 [tc [t3 [H1 [H' [-> [HFc Hin3]]]]]]]].
  clear H. rename H' into H.
  apply bind_inv in H.
  destruct H as [[e' [H ->]]|[g2 [s2 [te [t4 [H2 [H3 ->]]]]]]].
  - destruct (resolve_custom_called _ _ _ _ _ _ _ _ _ _ _ _ _ _ _ _ _ H Hin3 He)
      as [E [_ ->]].
    injection E as ->. split; [reflexivity|]. exists (t1 ++ tc).
    split; [apply app_assoc|]. apply Forall_app. auto.
  - exfalso. unfold lift in H3. injection H3 as _ _ <-.
    rewrite app_nil_r in Hin3.
    destruct (resolve_custom_called _ _ _ _ _ _ _ _ _ _ _ _ _ _ _ _ _
                H2 Hin3 He) as [E _].
    discriminate.
Qed.

(** *** The delegate that is reached and raises *)

Lemma fit_model_cause_raises X cause effect adjustments est model_effect
      self df adjs Xa y e :
  fit_checks X cause effect adjustments (Some est) model_effect self
  = (inr (df, adjs), self, []) ->
  adjs <> [] ->
  pd.getitem_list adjs df = inr Xa ->
  pd.getitem cause df = inr y ->
  fit_ est Xa y = inl e ->
  fit X cause effect adjustments (Some est) model_effect self =
  (inl (Exception RuntimeError ("model_cause.fit(): " ++ str e)), self,
   [Trained "model_cause" Xa y]).
Proof.
  intros Hc Hne HX Hy He. unfold fit.
  rewrite (bind_quiet _ _ self (df, adjs) Hc). cbn [fst snd].
  apply bind_raise. unfold fit_cause.
  destruct adjs as [|n adjs]; [contradiction|]. cbn [List.length Nat.eqb].
  rewrite (bind_quiet _ _ self Xa); [|unfold lift; rewrite HX; reflexivity].
  rewrite (bind_quiet _ _ self y); [|unfold lift; rewrite Hy; reflexivity].
  apply bind_raise.
  exact (make_model_supplied_fails Xa y "model_cause" est e self He).
Qed.

Lemma fit_model_effect_raises X cause effect adjustments model_cause est
      self df adjs mc tc Xe y e :
  fit_checks X cause effect adjustments model_cause (Some est) self
  = (inr (df, adjs), self, []) ->
  fit_cause df cause adjs model_cause self = (inr mc, self, tc) ->
  pd.getitem_list (cause :: adjs) df = inr Xe ->
  pd.getitem effect df = inr y ->
  fit_ est Xe y = inl e ->
  fit X cause effect adjustments model_cause (Some est) self =
  (inl (Exception RuntimeError ("model_effect.fit(): " ++ str e)), self,
   tc ++ [Trained "model_effect" Xe y]).
Proof.
  intros Hc Hmc HX Hy He. unfold fit.
  rewrite (bind_quiet _ _ self (df, adjs) Hc). cbn [fst snd].
  eapply bind_then; [exact Hmc|].
  apply bind_raise. unfold fit_effect.
  rewrite (bind_quiet _ _ self Xe); [|unfold lift; rewrite HX; reflexivity].
  rewrite (bind_quiet _ _ self y); [|unfold lift; rewrite Hy; reflexivity].
  exact (make_model_supplied_fails Xe y "model_effect" est e self He).
Qed.

Lemma resolve_custom_raises a target features model_name model_ custom_name
      f custom_model_args interv_endog g self Xf err e :
  find (fun kv => String.eqb (fst kv) target) interv_endog = None ->
  pd.getitem_list features g = inr Xf ->
  pd.getitem target g = inr err ->
  f Xf err custom_model_args = inl e ->
  resolve a target features model_name model_ custom_name (Some f)
          custom_model_args interv_endog g self =
  (inl (Exception RuntimeError ("Exception: " ++ custom_name ++ ": " ++ str e)),
   self, [Called custom_name Xf err]).
Proof.
  intros Hf HX Hy He. unfold resolve. rewrite Hf.
  apply bind_raise. unfold try_except, bind, lift, emit, raise.
  rewrite HX, Hy, He. reflexivity.
Qed.

Lemma generate_run interv_endog interv_exog cause_model cause_model_args
      effect_model effect_model_args self endog exog cm em a :
  _check_data_dict interv_endog "interv_endog" self = (inr endog, self, []) ->
  _check_data_dict interv_exog "interv_exog" self = (inr exog, self, []) ->
  check_callable cause_model "cause_model shall be callable." self
  = (inr cm, self, []) ->
  check_callable effect_model "effect_model shall be callable." self
  = (inr em, self, []) ->
  attributes self = Some a ->
  generate interv_endog interv_exog cause_model cause_model_args
           effect_model effect_model_args self =
  bind (initial_data a exog)
       (fun g =>
          bind (resolve a (_cause a) (_adjustments a) "model_cause"
                        (model_cause_ a) "cause_model" cm cause_model_args
                        endog g)
               (fun g1 =>
                  bind (resolve a (_effect a) (_cause a :: _adjustments a)
                                "model_effect" (Some (model_effect_ a))
                                "effect_model" em effect_model_args endog g1)
                       (fun g2 =>
                          lift (pd.loc (index (_X a)) (pd.labels (_X a)) g2))))
       self.
Proof.
  intros E1 E2 E3 E4 Ha. unfold generate.
  rewrite (bind_quiet _ _ self endog E1).
  rewrite (bind_quiet _ _ self exog E2).
  rewrite (bind_quiet _ _ self cm E3).
  rewrite (bind_quiet _ _ self em E4).
  rewrite (bind_quiet _ _ self a); [reflexivity|].
  unfold attrs. rewrite Ha. reflexivity.
Qed.

(** C9.  A caller's estimator whose [fit] raises while [fit] trains it, and a
    custom mechanism that raises while [generate] calls it, are caught where
    they are called: the method raises a RuntimeError whose message names
    the delegate ([model_cause], [model_effect], [cause_model] or
    [effect_model]) and ends with the message of the exception caught.

    Forwards (the first four parts): when the method comes to the delegate
    (the steps before it have passed) and the delegate raises on the
    arguments it is given there, the method raises that RuntimeError, and
    the call of the delegate is the last step of its trace.

    Backwards (the last four parts): a call of the delegate that is in the
    trace of the method and raises is the last step of the method and the
    only call of that delegate, and the method raised that RuntimeError;
    so the failure is neither swallowed nor retried. *)
Theorem delegate_failure_is_wrapped :
  (forall X cause effect adjustments est model_effect self df adjs Xa y e,
      fit_checks X cause effect adjustments (Some est) model_effect self
      = (inr (df, adjs), self, []) ->
      adjs <> [] ->
      pd.getitem_list adjs df = inr Xa ->
      pd.getitem cause df = inr y ->
      fit_ est Xa y = inl e ->
      fit X cause effect adjustments (Some est) model_effect self =
      (inl (Exception RuntimeError ("model_cause.fit(): " ++ str e)), self,
       [Trained "model_cause" Xa y])) /\
  (forall X cause effect adjustments model_cause est self df adjs mc tc Xe y e,
      fit_checks X cause effect adjustments model_cause (Some est) self
      = (inr (df, adjs), self, []) ->
      fit_cause df cause adjs model_cause self = (inr mc, self, tc) ->
      pd.getitem_list (cause :: adjs) df = inr Xe ->
      pd.getitem effect df = inr y ->
      fit_ est Xe y = inl e ->
      fit X cause effect adjustments model_cause (Some est) self =
      (inl (Exception RuntimeError ("model_effect.fit(): " ++ str e)), self,
       tc ++ [Trained "model_effect" Xe y])) /\
  (forall interv_endog interv_exog f cause_model_args effect_model
          effect_model_args self a endog exog em g t1 Xf err e,
      attributes self = Some a ->
      _check_data_dict interv_endog "interv_endog" self
      = (inr endog, self, []) ->
      _check_data_dict interv_exog "interv_exog" self
      = (inr exog, self, []) ->
      check_callable effect_model "effect_model shall be callable." self
      = (inr em, self, []) ->
      initial_data a exog self = (inr g, self, t1) ->
      find (fun kv => String.eqb (fst kv) (_cause a)) endog = None ->
      pd.getitem_list (_adjustments a) g = inr Xf ->
      pd.getitem (_cause a) g = inr err ->
      f Xf err cause_model_args = inl e ->
      generate interv_endog interv_exog (Some (Callable f)) cause_model_args
               effect_model effect_model_args self =
      (inl (Exception RuntimeError ("Exception: cause_model: " ++ str e)),
       self, t1 ++ [Called "cause_model" Xf err])) /\
  (forall interv_endog interv_exog cause_model cause_model_args f
          effect_model_args self a endog exog cm g t1 g1 self1 tc Xf err e,
      attributes self = Some a ->
      _check_data_dict interv_endog "interv_endog" self
      = (inr endog, self, []) ->
      _check_data_dict interv_exog "interv_exog" self
      = (inr exog, self, []) ->
      check_callable cause_model "cause_model shall be callable." self
      = (inr cm, self, []) ->
      initial_data a exog self = (inr g, self, t1) ->
      resolve a (_cause a) (_adjustments a) "model_cause" (model_cause_ a)
              "cause_model" cm cause_model_args endog g self
      = (inr g1, self1, tc) ->
      find (fun kv => String.eqb (fst kv) (_effect a)) endog = None ->
      pd.getitem_list (_cause a :: _adjustments a) g1 = inr Xf ->
      pd.getitem (_effect a) g1 = inr err ->
      f Xf err effect_model_args = inl e ->
      generate interv_endog interv_exog cause_model cause_model_args
               (Some (Callable f)) effect_model_args self =
      (inl (Exception RuntimeError ("Exception: effect_model: " ++ str e)),
       self1, t1 ++ tc ++ [Called "effect_model" Xf err])) /\
  (forall X cause effect adjustments est model_effect self r self1 t Xa y e,
      fit X cause effect adjustments (Some est) model_effect self = (r, self1, t) ->
      In (Trained "model_cause" Xa y) t ->
      fit_ est Xa y = inl e ->
      r = inl (Exception RuntimeError ("model_cause.fit(): " ++ str e)) /\
      self1 = self /\
      exists t0, t = t0 ++ [Trained "model_cause" Xa y] /\
                 Forall (fun ev => delegate ev <> Some "model_cause") t0) /\
  (forall X cause effect adjustments model_cause est self r self1 t Xe y e,
      fit X cause effect adjustments model_cause (Some est) self = (r, self1, t) ->
      In (Trained "model_effect" Xe y) t ->
      fit_ est Xe y = inl e ->
      r = inl (Exception RuntimeError ("model_effect.fit(): " ++ str e)) /\
      self1 = self /\
      exists t0, t = t0 ++ [Trained "model_effect" Xe y] /\
                 Forall (fun ev => delegate ev <> Some "model_effect") t0) /\
  (forall interv_endog interv_exog f cause_model_args effect_model
          effect_model_args self r self1 t Xf err e,
      generate interv_endog interv_exog (Some (Callable f)) cause_model_args
               effect_model effect_model_args self = (r, self1, t) ->
      In (Called "cause_model" Xf err) t ->
      f Xf err cause_model_args = inl e ->
      r = inl (Exception RuntimeError ("Exception: cause_model: " ++ str e)) /\
      exists t0, t = t0 ++ [Called "cause_model" Xf err] /\
                 Forall (fun ev => delegate ev <> Some "cause_model") t0) /\
  (forall interv_endog interv_exog cause_model cause_model_args f
          effect_model_args self r self1 t Xf err e,
      generate interv_endog interv_exog cause_model cause_model_args
               (Some (Callable f)) effect_model_args self = (r, self1, t) ->
      In (Called "effect_model" Xf err) t ->
      f Xf err effect_model_args = inl e ->
      r = inl (Exception RuntimeError ("Exception: effect_model: " ++ str e)) /\
      exists t0, t = t0 ++ [Called "effect_model" Xf err] /\
                 Forall (fun ev => delegate ev <> Some "effect_model") t0).
Proof.
  split.
  { intros. eapply fit_model_cause_raises; eassumption. }
  split.
  { intros. eapply fit_model_effect_raises; eassumption. }
  split.
  { intros endog0 exog0 f cma em0 ema self a endog exog em g t1 Xf err e
           Ha E1 E2 E4 Ei Hf HX Hy He.
    rewrite (generate_run endog0 exog0 (Some (Callable f)) cma em0 ema self
               endog exog (Some f) em a E1 E2 eq_refl E4 Ha).
    eapply bind_then; [exact Ei|].
    apply bind_raise.
    exact (resolve_custom_raises a (_cause a) (_adjustments a) "model_cause"
             (model_cause_ a) "cause_model" f cma endog g self Xf err e
             Hf HX Hy He). }
  split.
  { intros endog0 exog0 cm0 cma f ema self a endog exog cm g t1 g1 self1 tc
           Xf err e Ha E1 E2 E3 Ei Hc Hf HX Hy He.
    rewrite (generate_run endog0 exog0 cm0 cma (Some (Callable f)) ema self
               endog exog cm (Some f) a E1 E2 E3 eq_refl Ha).
    eapply bind_then; [exact Ei|].
    eapply bind_then; [exact Hc|].
    apply bind_raise.
    exact (resolve_custom_raises a (_effect a) (_cause a :: _adjustments a)
             "model_effect" (Some (model_effect_ a)) "effect_model" f ema
             endog g1 self1 Xf err e Hf HX Hy He). }
  split; [|split; [|split]].
  - intros. destruct (fit_model_cause_failure _ _ _ _ _ _ _ _ _ _ _ _ _ H H0 H1)
      as [-> [-> ->]].
    split; [reflexivity|]. split; [reflexivity|]. exists []. auto.
  - intros. exact (fit_model_effect_failure _ _ _ _ _ _ _ _ _ _ _ _ _ H H0 H1).
  - intros. exact (generate_cause_model_failure _ _ _ _ _ _ _ _ _ _ _ _ _ H H0 H1).
  - intros. exact (generate_effect_model_failure _ _ _ _ _ _ _ _ _ _ _ _ _ H H0 H1).
Qed.

(** ** Tables: rows *)

Lemma positions_notin l idx from :
  ~ In l idx -> pd.positions l idx from = [].
Proof.
  revert from. induction idx as [|i idx IH]; intros from Hn; [reflexivity|].
  cbn [pd.positions]. destruct (Z.eqb i l) eqn:E.
  - apply Z.eqb_eq in E. subst. exfalso. apply Hn. left. reflexivity.
  - apply IH. intros H. apply Hn. right. exact H.
Qed.

Lemma positions_app l a b from :
  pd.positions l (a ++ b) from =
  pd.positions l a from ++ pd.positions l b (from + List.length a).
Proof.
  revert from. induction a as [|i a IH]; intros from; cbn [pd.positions app].
  - cbn [List.length]. rewrite Nat.add_0_r. reflexivity.
  - rewrite IH. cbn [List.length].
    replace (S from + List.length a) with (from + S (List.length a)) by lia.
    destruct (Z.eqb i l); reflexivity.
Qed.

Lemma take_rows_suffix pre post :
  NoDup (pre ++ post) ->
  pd.take_rows post (pre ++ post) = inr (seq (List.length pre) (List.length post)).
Proof.
  revert pre. induction post as [|l post IH]; intros pre Hnd; [reflexivity|].
  cbn [pd.take_rows]. rewrite positions_app.
  pose proof Hnd as Hnd0.
  apply NoDup_remove in Hnd. destruct Hnd as [Hnd Hnotin].
  rewrite (positions_notin l pre).
  2:{ intros H. apply Hnotin. apply in_or_app. left. exact H. }
  cbn [pd.positions app]. rewrite Z.eqb_refl.
  rewrite (positions_notin l post).
  2:{ intros H. apply Hnotin. apply in_or_app. right. exact H. }
  replace (pre ++ l :: post) with ((pre ++ [l]) ++ post)
    by (rewrite <- app_assoc; reflexivity).
  rewrite IH.
  2:{ rewrite <- app_assoc. exact Hnd0. }
  rewrite length_app. cbn [List.length app seq].
  rewrite Nat.add_0_l. rewrite Nat.add_1_r. reflexivity.
Qed.

Lemma take_rows_self idx :
  NoDup idx -> pd.take_rows idx idx = inr (seq 0 (List.length idx)).
Proof. intros H. exact (take_rows_suffix [] idx H). Qed.

Lemma pick_all {A} (d : A) (l : list A) :
  pd.pick d l (seq 0 (List.length l)) = l.
Proof.
  unfold pd.pick. induction l as [|a l IH]; [reflexivity|].
  cbn [List.length seq map nth]. f_equal.
  rewrite <- seq_shift. rewrite map_map. exact IH.
Qed.

(** ** Tables: columns *)

Lemma in_labelled name cols c :
  In c (pd.labelled name cols) <-> In c cols /\ cname c = name.
Proof.
  unfold pd.labelled. rewrite filter_In. unfold pd.has_label.
  rewrite String.eqb_eq. reflexivity.
Qed.

Lemma labelled_nil name cols :
  pd.labelled name cols = [] <-> ~ exists c, In c cols /\ cname c = name.
Proof.
  split.
  - intros H [c Hc]. apply in_labelled in Hc. rewrite H in Hc. exact Hc.
  - intros H. destruct (pd.labelled name cols) as [|c l] eqn:E; [reflexivity|].
    exfalso. apply H. exists c. apply in_labelled. rewrite E. left. reflexivity.
Qed.

Lemma existsb_has_label name cols :
  existsb (pd.has_label name) cols = true <->
  exists c, In c cols /\ cname c = name.
Proof.
  rewrite existsb_exists. unfold pd.has_label.
  split; intros [c [H1 H2]]; exists c; split; auto;
    apply String.eqb_eq; exact H2.
Qed.

Lemma put_column_in_same name d vals cols :
  In (Col name d vals) (pd.put_column name d vals cols).
Proof.
  unfold pd.put_column.
  destruct (existsb (pd.has_label name) cols) eqn:E.
  - apply existsb_has_label in E. destruct E as [c0 [Hin Hn]].
    apply in_map_iff. exists c0. split; [|exact Hin].
    unfold pd.has_label. apply String.eqb_eq in Hn. rewrite Hn. reflexivity.
  - apply in_or_app. right. left. reflexivity.
Qed.

Lemma put_column_in_inv name d vals cols c :
  In c (pd.put_column name d vals cols) ->
  c = Col name d vals \/ (In c cols /\ cname c <> name).
Proof.
  unfold pd.put_column.
  destruct (existsb (pd.has_label name) cols) eqn:E.
  - rewrite in_map_iff. intros [c0 [Hc Hin]]. unfold pd.has_label in Hc.
    destruct (String.eqb (cname c0) name) eqn:En.
    + left. congruence.
    + right. subst c. split; [exact Hin|]. apply String.eqb_neq. exact En.
  - rewrite in_app_iff. intros [Hin|[<-|[]]]; [|left; reflexivity].
    right. split; [exact Hin|]. intros Hn.
    assert (existsb (pd.has_label name) cols = true); [|congruence].
    apply existsb_has_label. exists c. auto.
Qed.

Lemma put_column_others name d vals cols c :
  cname c <> name ->
  (In c (pd.put_column name d vals cols) <-> In c cols).
Proof.
  intros Hne. split.
  - intros H. apply put_column_in_inv in H.
    destruct H as [->|[Hin _]]; [exfalso; apply Hne; reflexivity|exact Hin].
  - intros Hin. unfold pd.put_column.
    destruct (existsb (pd.has_label name) cols).
    + apply in_map_iff. exists c. split; [|exact Hin].
      unfold pd.has_label. apply String.eqb_neq in Hne. rewrite Hne.
      reflexivity.
    + apply in_or_app. left. exact Hin.
Qed.

Lemma only_touches_refl name g : only_touches name g g.
Proof. split; [reflexivity|]. intros c _. reflexivity. Qed.

Lemma only_touches_trans name g1 g2 g3 :
  only_touches name g1 g2 -> only_touches name g2 g3 -> only_touches name g1 g3.
Proof.
  intros [I1 H1] [I2 H2]. split; [congruence|].
  intros c Hc. rewrite (H2 c Hc). apply H1. exact Hc.
Qed.

Lemma column_is_untouched name other_name vals g g' :
  name <> other_name ->
  only_touches other_name g g' ->
  column_is name vals g -> column_is name vals g'.
Proof.
  intros Hne [_ H] [[c [Hin Hn]] Hall]. split.
  - exists c. split; [|exact Hn]. apply H; [congruence|exact Hin].
  - intros c' Hin' Hn'. apply Hall; [|exact Hn'].
    apply H; [congruence|exact Hin'].
Qed.

Lemma index_eqb_refl idx : index_eqb idx idx = true.
Proof.
  induction idx as [|i idx IH]; [reflexivity|].
  cbn [index_eqb]. rewrite Z.eqb_refl. exact IH.
Qed.

(** With distinct labels, at most one column carries a label. *)
Lemma labelled_nodup name cols :
  NoDup (map cname cols) ->
  pd.labelled name cols = [] \/ exists c, pd.labelled name cols = [c].
Proof.
  induction cols as [|c0 cols IH]; intros Hnd; [left; reflexivity|].
  cbn [map] in Hnd. apply NoDup_cons_iff in Hnd. destruct Hnd as [Hnotin Hnd].
  unfold pd.labelled. cbn [filter]. fold (pd.labelled name cols).
  destruct (pd.has_label name c0) eqn:E.
  - right. exists c0. f_equal.
    apply labelled_nil. intros [c [Hin Hn]]. apply Hnotin.
    unfold pd.has_label in E. apply String.eqb_eq in E. rewrite E, <- Hn.
    apply in_map. exact Hin.
  - exact (IH Hnd).
Qed.

Lemma labelled_the name cols c :
  NoDup (map cname cols) -> In c cols -> cname c = name ->
  pd.labelled name cols = [c].
Proof.
  intros Hnd Hin Hn. induction cols as [|c0 cols IH]; [destruct Hin|].
  cbn [map] in Hnd. apply NoDup_cons_iff in Hnd. destruct Hnd as [Hnotin Hnd].
  unfold pd.labelled. cbn [filter]. fold (pd.labelled name cols).
  destruct Hin as [->|Hin].
  - unfold pd.has_label. apply String.eqb_eq in Hn. rewrite Hn. f_equal.
    apply labelled_nil. intros [c' [Hin' Hn']]. apply Hnotin.
    apply String.eqb_eq in Hn. rewrite Hn, <- Hn'. apply in_map. exact Hin'.
  - destruct (pd.has_label name c0) eqn:E; [|exact (IH Hnd Hin)].
    exfalso. apply Hnotin. unfold pd.has_label in E. apply String.eqb_eq in E.
    rewrite E, <- Hn. apply in_map. exact Hin.
Qed.


(** Selecting labels in a table with distinct labels: one column each. *)
Lemma take_labels_nodup ns cols cs :
  NoDup (map cname cols) ->
  pd.take_labels ns cols = inr cs ->
  map cname cs = ns /\ forall c, In c cs -> In c cols.
Proof.
  intros Hnd. revert cs. induction ns as [|n ns IH]; intros cs H.
  - injection H as <-. split; [reflexivity|]. intros c [].
  - cbn [pd.take_labels] in H.
    destruct (labelled_nodup n cols Hnd) as [E|[c0 E]]; rewrite E in H;
      [discriminate|].
    destruct (pd.take_labels ns cols) as [e|rest] eqn:Er; [discriminate|].
    injection H as <-. destruct (IH _ eq_refl) as [Hm Hin].
    assert (Hc0 : In c0 (pd.labelled n cols)) by (rewrite E; left; reflexivity).
    apply in_labelled in Hc0. destruct Hc0 as [Hc0 Hn0].
    cbn [app map]. split; [congruence|].
    intros c [<-|Hc]; auto.
Qed.

(** *** Writes to a column *)

Lemma spread_others name n vals cols c :
  cname c <> name -> (In c (pd.spread name n vals cols) <-> In c cols).
Proof.
  intros Hne. revert vals. induction cols as [|c0 cols IH]; intros vals;
    [reflexivity|].
  cbn [pd.spread]. destruct (pd.has_label name c0) eqn:El.
  - unfold pd.has_label in El. apply String.eqb_eq in El.
    destruct vals as [|v vals]; cbn [In]; rewrite IH;
      split; intros [Hc|Hc]; auto;
        exfalso; apply Hne; subst c; first [reflexivity|exact El].
  - cbn [In]. rewrite IH. reflexivity.
Qed.

Lemma item_column_name name j idx sidx s c :
  pd.item_column name j idx sidx s = inr c -> cname c = name.
Proof.
  unfold pd.item_column.
  destruct (pd.positions _ _ _) as [|p [|p' ps]]; [discriminate| |].
  - intros H. injection H as <-. reflexivity.
  - destruct (index_eqb _ _); [|discriminate].
    intros H. injection H as <-. reflexivity.
Qed.

Lemma spread_items_others name j idx sidx s cols cols' c :
  pd.spread_items name j idx sidx s cols = inr cols' ->
  cname c <> name -> (In c cols' <-> In c cols).
Proof.
  revert j cols'. induction cols as [|c0 cols IH]; intros j cols' H Hne.
  - injection H as <-. reflexivity.
  - cbn [pd.spread_items] in H. destruct (pd.has_label name c0) eqn:El.
    + destruct (pd.item_column name j idx sidx s) as [e|c1] eqn:Ec;
        [discriminate|].
      destruct (pd.spread_items name (S j) idx sidx s cols) as [e|rest] eqn:Er;
        [discriminate|].
      injection H as <-. cbn [In]. rewrite (IH _ _ Er Hne).
      apply item_column_name in Ec.
      unfold pd.has_label in El. apply String.eqb_eq in El.
      split; intros [Hc|Hc]; auto; exfalso; apply Hne; subst c;
        [exact Ec|exact El].
    + destruct (pd.spread_items name j idx sidx s cols) as [e|rest] eqn:Er;
        [discriminate|].
      injection H as <-. cbn [In]. rewrite (IH _ _ Er Hne). reflexivity.
Qed.

(** With distinct labels no column is duplicated. *)
Lemma duplicated_nodup name len g :
  NoDup (pd.labels g) -> pd.duplicated name len g = false.
Proof.
  intros Hnd. unfold pd.duplicated.
  destruct (labelled_nodup name (columns g) Hnd) as [->|[c ->]]; reflexivity.
Qed.

Lemma setitem_touches name vals g g' :
  pd.setitem name vals g = inr g' -> only_touches name g g'.
Proof.
  unfold pd.setitem. destruct (pd.duplicated _ _ _).
  - intros H. injection H as <-. split; [reflexivity|].
    intros c Hc. apply spread_others. exact Hc.
  - destruct (Nat.eqb _ _); [|discriminate].
    intros H. injection H as <-. split; [reflexivity|].
    intros c Hc. apply put_column_others. exact Hc.
Qed.

(** An array assigned to a column that is not duplicated is the column. *)
Lemma setitem_plain name vals g g' :
  pd.duplicated name (List.length vals) g = false ->
  pd.setitem name vals g = inr g' ->
  only_touches name g g' /\ column_is name vals g' /\
  List.length vals = pd.shape0 g.
Proof.
  intros Hd H. pose proof (setitem_touches _ _ _ _ H) as T.
  unfold pd.setitem in H. rewrite Hd in H.
  destruct (Nat.eqb _ _) eqn:E; [|discriminate].
  injection H as <-. apply Nat.eqb_eq in E.
  split; [exact T|]. split; [|exact E]. split.
  - eexists. split; [apply put_column_in_same|reflexivity].
  - intros c Hin Hn. cbn [columns] in Hin. apply put_column_in_inv in Hin.
    destruct Hin as [->|[_ Hne]]; [reflexivity|contradiction].
Qed.

Lemma setitem_spec name vals g g' :
  NoDup (pd.labels g) ->
  pd.setitem name vals g = inr g' ->
  only_touches name g g' /\ column_is name vals g' /\
  List.length vals = pd.shape0 g.
Proof. intros Hnd. apply setitem_plain. apply duplicated_nodup. exact Hnd. Qed.

Lemma set_categorical_touches name g g' :
  pd.set_categorical name g = inr g' -> only_touches name g g'.
Proof.
  unfold pd.set_categorical.
  destruct (pd.labelled name (columns g)) as [|c0 [|c1 l]]; [discriminate| |].
  - intros H. injection H as <-. split; [reflexivity|].
    intros c Hc. apply put_column_others. exact Hc.
  - intros H. injection H as <-. split; [reflexivity|].
    intros c Hc. apply spread_others. exact Hc.
Qed.

(** Made categorical, a column that is not duplicated keeps its cells. *)
Lemma set_categorical_spec name g g' :
  NoDup (pd.labels g) ->
  pd.set_categorical name g = inr g' ->
  only_touches name g g' /\
  forall vals, column_is name vals g -> column_is name vals g'.
Proof.
  intros Hnd H. pose proof (set_categorical_touches _ _ _ H) as T.
  split; [exact T|]. unfold pd.set_categorical in H.
  destruct (labelled_nodup name (columns g) Hnd) as [E|[c0 E]]; rewrite E in H;
    [discriminate|].
  injection H as <-.
  intros vals [_ Hall]. split.
  - eexists. split; [apply put_column_in_same|reflexivity].
  - intros c Hin Hn. cbn [columns] in Hin. apply put_column_in_inv in Hin.
    destruct Hin as [->|[_ Hne]]; [|contradiction].
    cbn [cells].
    assert (Hc0 : In c0 (pd.labelled name (columns g)))
      by (rewrite E; left; reflexivity).
    apply in_labelled in Hc0. destruct Hc0 as [Hc0 Hn0].
    exact (Hall _ Hc0 Hn0).
Qed.

Lemma add_across_others name p cols cols' c :
  pd.add_across name p cols = inr cols' ->
  cname c <> name -> (In c cols' <-> In c cols).
Proof.
  revert p cols'. induction cols as [|c0 cols IH]; intros p cols' H Hne.
  - injection H as <-. reflexivity.
  - cbn [pd.add_across] in H. destruct (pd.has_label name c0) eqn:El.
    + destruct p as [|q p]; [discriminate|].
      destruct (mapM _ (cells c0)) as [e|vals]; [discriminate|].
      destruct (pd.add_across name p cols) as [e|rest] eqn:Er; [discriminate|].
      injection H as <-. cbn [In]. rewrite (IH _ _ Er Hne).
      unfold pd.has_label in El. apply String.eqb_eq in El.
      split; intros [Hc|Hc]; auto; exfalso; apply Hne; subst c;
        [reflexivity|exact El].
    + destruct (pd.add_across name p cols) as [e|rest] eqn:Er; [discriminate|].
      injection H as <-. cbn [In]. rewrite (IH _ _ Er Hne). reflexivity.
Qed.

Lemma iadd_touches name p g g' :
  pd.iadd name p g = inr g' -> only_touches name g g'.
Proof.
  unfold pd.iadd.
  destruct (pd.labelled name (columns g)) as [|c0 [|c1 l]]; [discriminate| |].
  - destruct (np.broadcast _ _ _) as [e|vals]; [discriminate|].
    intros H. injection H as <-. split; [reflexivity|].
    intros c Hc. apply put_column_others. exact Hc.
  - destruct (Nat.eqb _ _); [|discriminate].
    destruct (pd.add_across name p (columns g)) as [e|cols] eqn:E;
      [discriminate|].
    intros H. injection H as <-. split; [reflexivity|].
    intros c Hc. exact (add_across_others _ _ _ _ _ E Hc).
Qed.

Lemma put_columns_others name new cols c :
  cname c <> name -> (In c (pd.put_columns name new cols) <-> In c cols).
Proof.
  intros Hne. revert new. induction cols as [|c0 cols IH]; intros new;
    [reflexivity|].
  cbn [pd.put_columns]. destruct (pd.has_label name c0) eqn:El.
  - unfold pd.has_label in El. apply String.eqb_eq in El.
    destruct new as [|n new]; cbn [In]; rewrite IH;
      split; intros [Hc|Hc]; auto;
        exfalso; apply Hne; subst c; first [reflexivity|exact El].
  - cbn [In]. rewrite IH. reflexivity.
Qed.

Lemma setitem_item_touches name item g g' :
  pd.setitem_item name item g = inr g' -> only_touches name g g'.
Proof.
  unfold pd.setitem_item.
  destruct (columns item) as [|s0 [|s1 l]].
  - destruct (index_eqb _ _); [|discriminate].
    destruct (Nat.eqb _ _); [|discriminate].
    intros H. injection H as <-. split; [reflexivity|].
    intros c Hc. apply put_columns_others. exact Hc.
  - destruct (pd.duplicated _ _ _).
    + destruct (pd.spread_items _ _ _ _ _ _) as [e|cols] eqn:E; [discriminate|].
      intros H. injection H as <-. split; [reflexivity|].
      intros c Hc. exact (spread_items_others _ _ _ _ _ _ _ _ E Hc).
    + destruct (pd.align _ _ _) as [e|vals]; [discriminate|].
      intros H. injection H as <-. split; [reflexivity|].
      intros c Hc. apply put_column_others. exact Hc.
  - destruct (index_eqb _ _); [|discriminate].
    destruct (Nat.eqb _ _); [|discriminate].
    intros H. injection H as <-. split; [reflexivity|].
    intros c Hc. apply put_columns_others. exact Hc.
Qed.

(** A Series over the rows of the table, assigned to a column that is not
    duplicated, is written as it is. *)
Lemma setitem_item_series name item sc g :
  columns item = [sc] -> index item = index g ->
  pd.duplicated name (List.length (cells sc)) g = false ->
  pd.setitem_item name item g =
  inr (Frame (index g) (pd.put_column name (cdtype sc) (cells sc) (columns g))).
Proof.
  intros Hc Hi Hd. unfold pd.setitem_item. rewrite Hc, Hd. unfold pd.align.
  rewrite Hi. rewrite index_eqb_refl. reflexivity.
Qed.

Lemma take_labels_in names cols cs :
  pd.take_labels names cols = inr cs ->
  forall c, In c cs <-> In c cols /\ In (cname c) names.
Proof.
  revert cs. induction names as [|n names IH]; intros cs H c.
  - injection H as <-. cbn [In]. tauto.
  - cbn [pd.take_labels] in H.
    destruct (pd.labelled n cols) as [|c0 l] eqn:E; [discriminate|].
    destruct (pd.take_labels names cols) as [e|rest] eqn:Er; [discriminate|].
    injection H as <-. change (c0 :: l ++ rest) with ((c0 :: l) ++ rest).
    rewrite in_app_iff. rewrite <- E.
    rewrite in_labelled. rewrite (IH _ eq_refl c). cbn [In].
    split.
    + intros [[H1 H2]|[H1 H2]]; auto.
    + intros [H1 [H2|H2]]; auto.
Qed.

Lemma take_labels_has names cols cs name :
  pd.take_labels names cols = inr cs ->
  In name names -> exists c, In c cols /\ cname c = name.
Proof.
  revert cs. induction names as [|n names IH]; intros cs H Hin; [destruct Hin|].
  cbn [pd.take_labels] in H.
  destruct (pd.labelled n cols) as [|c0 l] eqn:E; [discriminate|].
  destruct (pd.take_labels names cols) as [e|rest] eqn:Er; [discriminate|].
  destruct Hin as [->|Hin]; [|exact (IH _ eq_refl Hin)].
  exists c0. apply in_labelled. rewrite E. left. reflexivity.
Qed.

(** The final selection keeps a column of the table as it is, when the row
    labels are distinct. *)
Lemma loc_column_is g cols out name vals :
  NoDup (index g) ->
  pd.loc (index g) cols g = inr out ->
  In name cols ->
  column_is name vals g ->
  List.length vals = pd.shape0 g ->
  column_is name vals out.
Proof.
  intros Hnd H Hin [[c0 [Hc0 Hn0]] Hall] Hlen. unfold pd.loc in H.
  rewrite (take_rows_self _ Hnd) in H.
  destruct (pd.take_labels cols (columns g)) as [e|cs] eqn:E; [discriminate|].
  injection H as <-. cbn [columns]. split.
  - exists (Col (cname c0) (cdtype c0)
                (pd.pick NaN (cells c0) (seq 0 (List.length (index g))))).
    split; [|exact Hn0].
    apply in_map_iff. exists c0. split; [reflexivity|].
    apply (take_labels_in _ _ _ E). split; [exact Hc0|]. rewrite Hn0. exact Hin.
  - intros c Hc Hn. cbn [columns] in Hc. apply in_map_iff in Hc.
    destruct Hc as [c1 [<- Hc1]]. cbn [cells cname] in *.
    apply (take_labels_in _ _ _ E) in Hc1. destruct Hc1 as [Hc1 _].
    rewrite (Hall _ Hc1 Hn). unfold pd.shape0 in Hlen. rewrite <- Hlen.
    apply pick_all.
Qed.

Lemma loc_index g cols out :
  NoDup (index g) ->
  pd.loc (index g) cols g = inr out -> index out = index g.
Proof.
  intros Hnd H. unfold pd.loc in H.
  rewrite (take_rows_self _ Hnd) in H.
  destruct (pd.take_labels cols (columns g)) as [e|cs]; [discriminate|].
  injection H as <-. cbn [index]. apply pick_all.
Qed.

(** ** Runs of the writes *)

Ltac bind_ok_inv H :=
  apply bind_inv in H;
  let a := fresh "a" in
  let s := fresh "s" in
  let t1 := fresh "t" in
  let t2 := fresh "t" in
  let H1 := fresh "H" in
  let Ht := fresh "Ht" in
  destruct H as [[? [_ H]]|[a [s [t1 [t2 [H1 [H Ht]]]]]]]; [discriminate H|].

Tactic Notation "bind_step" hyp(H) "as" ident(x) ident(Hx) :=
  apply bind_inv in H;
  let s := fresh "s" in
  let t1 := fresh "t" in
  let t2 := fresh "t" in
  let Ht := fresh "Ht" in
  destruct H as [[? [_ H]]|[x [s [t1 [t2 [Hx [H Ht]]]]]]]; [discriminate H|].

Lemma lift_run {A} (r : result A) self a self1 t :
  lift r self = (inr a, self1, t) -> r = inr a /\ self1 = self /\ t = [].
Proof. unfold lift. intros H. injection H as -> <- <-. auto. Qed.

Lemma ret_run {A} (x : A) self a self1 t :
  ret x self = (inr a, self1, t) -> a = x /\ self1 = self /\ t = [].
Proof. unfold ret. intros H. injection H as <- <- <-. auto. Qed.

Lemma emit_run ev self u self1 t :
  emit ev self = (inr u, self1, t) -> self1 = self /\ t = [ev].
Proof. unfold emit. intros H. injection H as _ <- <-. auto. Qed.

Tactic Notation "bind_run" hyp(H) "as" ident(x) ident(s) ident(t1) ident(t2)
       ident(Hx) :=
  apply bind_inv in H;
  destruct H as [[? [_ H]]|[x [s [t1 [t2 [Hx [H ->]]]]]]]; [discriminate H|].

Lemma assign_run name vals g self g' self1 t :
  assign name vals g self = (inr g', self1, t) ->
  pd.setitem name vals g = inr g' /\ self1 = self /\ t = [ColumnWritten name].
Proof.
  unfold assign, bind, lift, emit, ret.
  destruct (pd.setitem name vals g); [discriminate|].
  intros H. injection H as <- <- <-. auto.
Qed.

Lemma assign_item_run name item g self g' self1 t :
  assign_item name item g self = (inr g', self1, t) ->
  pd.setitem_item name item g = inr g' /\ self1 = self
  /\ t = [ColumnWritten name].
Proof.
  unfold assign_item, bind, lift, emit, ret.
  destruct (pd.setitem_item name item g); [discriminate|].
  intros H. injection H as <- <- <-. auto.
Qed.

Lemma assign_iadd_run name p g self g' self1 t :
  assign_iadd name p g self = (inr g', self1, t) ->
  pd.iadd name p g = inr g' /\ self1 = self /\ t = [ColumnWritten name].
Proof.
  unfold assign_iadd, bind, lift, emit, ret.
  destruct (pd.iadd name p g); [discriminate|].
  intros H. injection H as <- <- <-. auto.
Qed.

Lemma assign_categorical_run name g self g' self1 t :
  assign_categorical name g self = (inr g', self1, t) ->
  pd.set_categorical name g = inr g' /\ self1 = self
  /\ t = [ColumnWritten name].
Proof.
  unfold assign_categorical, bind, lift, emit, ret.
  destruct (pd.set_categorical name g); [discriminate|].
  intros H. injection H as <- <- <-. auto.
Qed.

Lemma update_interventions_index d g self g' self1 t :
  update_interventions d g self = (inr g', self1, t) -> index g' = index g.
Proof.
  revert g self t. induction d as [|[name v] d IH]; intros g self t H.
  - injection H as <- _ _. reflexivity.
  - cbn [update_interventions] in H. bind_ok_inv H.
    apply assign_run in H0. destruct H0 as [H0 _].
    apply setitem_touches in H0. destruct H0 as [I _].
    rewrite (IH _ _ _ H). exact I.
Qed.

Lemma getitem_list_index names X g :
  pd.getitem_list names X = inr g -> index g = index X.
Proof.
  unfold pd.getitem_list. destruct (pd.take_labels _ _); [discriminate|].
  intros H. injection H as <-. reflexivity.
Qed.

(** The initial table has the rows of the fitted table, and the fitted
    table has a column for each of cause, effect and adjustments. *)
Lemma initial_data_index a exog self g self1 t :
  initial_data a exog self = (inr g, self1, t) ->
  index g = index (_X a) /\
  forall name, In name (names a) -> In name (pd.labels (_X a)).
Proof.
  intros H. unfold initial_data in H.
  bind_ok_inv H. unfold lift in H0. injection H0 as H0 _ _.
  bind_ok_inv H. bind_ok_inv H. bind_ok_inv H.
  apply update_interventions_index in H.
  apply assign_item_run in H2, H3.
  destruct H2 as [H2 _]. destruct H3 as [H3 _].
  apply setitem_item_touches in H2, H3.
  destruct H2 as [I2 _]. destruct H3 as [I3 _].
  split.
  - rewrite H, I3, I2. exact (getitem_list_index _ _ _ H0).
  - intros name Hin. unfold pd.getitem_list in H0.
    destruct (pd.take_labels _ _) as [e|cs] eqn:E; [discriminate|].
    destruct (take_labels_has _ _ _ _ E Hin) as [c [Hc Hn]].
    unfold pd.labels. apply in_map_iff. exists c. auto.
Qed.

(** The steps of [initial_data], one by one. *)
Lemma initial_data_inv a exog self g self1 t :
  initial_data a exog self = (inr g, self1, t) ->
  exists g0 g1 g2 t',
    pd.getitem_list (names a) (_X a) = inr g0 /\
    pd.setitem_item (_cause a) (error_cause_ a) g0 = inr g1 /\
    pd.setitem_item (_effect a) (error_effect_ a) g1 = inr g2 /\
    update_interventions exog g2 self = (inr g, self1, t').
Proof.
  intros H. unfold initial_data in H.
  bind_run H as g0 s0 t0 t1 H0. apply lift_run in H0.
  destruct H0 as [H0 [-> ->]].
  bind_run H as u s1 t2 t3 Hu. apply emit_run in Hu. destruct Hu as [-> ->].
  bind_run H as g1 s2 t4 t5 H1. apply assign_item_run in H1.
  destruct H1 as [H1 [-> ->]].
  bind_run H as g2 s3 t6 t7 H2. apply assign_item_run in H2.
  destruct H2 as [H2 [-> ->]].
  exists g0, g1, g2, t7. auto.
Qed.

(** ** The checked dictionary *)

Lemma check_items_cons_inv k v items self d self1 t :
  _check_data_dict_items ((k, v) :: items) self = (inr d, self1, t) ->
  exists name rest a,
    k = StrKey name /\ d = (name, v) :: rest /\
    attributes self = Some a /\ In name (names a) /\
    List.length v = pd.shape0 (_X a) /\
    _check_data_dict_items items self = (inr rest, self1, t).
Proof.
  cbn [_check_data_dict_items]. destruct k as [name|repr]; [|discriminate].
  intros H. unfold bind at 1 in H. unfold attrs in H.
  destruct (attributes self) as [a|]; [|discriminate].
  destruct (existsb (String.eqb name) (_cause a :: _effect a :: _adjustments a))
    eqn:En; [|discriminate].
  cbn [negb] in H. unfold bind at 1 in H. unfold lift in H.
  destruct (check_array_values v) as [e|n] eqn:Ev; [discriminate|].
  destruct (Nat.eqb n (pd.shape0 (_X a))) eqn:El; [|discriminate].
  cbn [negb] in H. unfold bind at 1 in H.
  destruct (check_items_silent items self) as [r E]. rewrite E in H.
  destruct r as [e|rest]; [discriminate|].
  injection H as <- <- <-.
  exists name, rest, a. repeat split; auto.
  - apply existsb_eqb_In. exact En.
  - apply check_array_values_length in Ev. apply Nat.eqb_eq in El. congruence.
Qed.

(** What the checks return is the dictionary itself: same keys, same
    arrays, each of one value per row. *)
Lemma check_data_dict_find d name self items self1 t target :
  _check_data_dict d name self = (inr items, self1, t) ->
  match dict_get d target with
  | Some v =>
      exists kv a,
        find (fun kv => String.eqb (fst kv) target) items = Some kv /\
        snd kv = v /\ attributes self = Some a /\
        List.length v = pd.shape0 (_X a)
  | None => find (fun kv => String.eqb (fst kv) target) items = None
  end.
Proof.
  destruct d as [| |l]; cbn [_check_data_dict dict_get];
    [intros H; injection H as <- _ _; reflexivity|discriminate|].
  revert items. induction l as [|[k v] l IH]; intros items H.
  - injection H as <- _ _. reflexivity.
  - apply check_items_cons_inv in H.
    destruct H as [nm [rest [a [-> [-> [Ha [_ [Hlen H]]]]]]]].
    specialize (IH _ H). cbn [find fst snd].
    destruct (String.eqb nm target).
    + exists (nm, v), a. auto.
    + exact IH.
Qed.

(** ** The layout of the working table *)

Lemma only_touches_within ns name g g' :
  In name ns -> only_touches name g g' ->
  labels_within ns g -> labels_within ns g'.
Proof.
  intros Hin [_ H] Hw c Hc.
  destruct (String.eqb (cname c) name) eqn:E.
  - apply String.eqb_eq in E. rewrite E. exact Hin.
  - apply String.eqb_neq in E. apply Hw. apply H; assumption.
Qed.

Lemma getitem_list_within ns X g :
  pd.getitem_list ns X = inr g -> labels_within ns g.
Proof.
  unfold pd.getitem_list.
  destruct (pd.take_labels ns (columns X)) as [e|cs] eqn:E; [discriminate|].
  intros H. injection H as <-. intros c Hc. cbn [columns] in Hc.
  apply (take_labels_in _ _ _ E) in Hc. tauto.
Qed.

Lemma check_items_names a items self d self1 t :
  attributes self = Some a ->
  _check_data_dict_items items self = (inr d, self1, t) ->
  Forall (fun kv => In (fst kv) (names a)) d.
Proof.
  intros Ha. revert d. induction items as [|[k v] items IH]; intros d H.
  - injection H as <- _ _. constructor.
  - apply check_items_cons_inv in H.
    destruct H as [nm [rest [a' [-> [-> [Ha' [Hin [_ H]]]]]]]].
    rewrite Ha in Ha'. injection Ha' as <-.
    constructor; [exact Hin|exact (IH _ H)].
Qed.

Lemma check_data_dict_names a dict name self d self1 t :
  attributes self = Some a ->
  _check_data_dict dict name self = (inr d, self1, t) ->
  Forall (fun kv => In (fst kv) (names a)) d.
Proof.
  intros Ha. destruct dict as [| |items]; cbn [_check_data_dict].
  - intros H. injection H as <- _ _. constructor.
  - discriminate.
  - apply check_items_names. exact Ha.
Qed.

Lemma put_column_labels name d vals cols :
  In name (map cname cols) ->
  map cname (pd.put_column name d vals cols) = map cname cols.
Proof.
  intros Hin. unfold pd.put_column.
  replace (existsb (pd.has_label name) cols) with true.
  2:{ symmetry. apply existsb_has_label. apply in_map_iff in Hin.
      destruct Hin as [c [Hn Hc]]. exists c. auto. }
  rewrite map_map. apply map_ext. intros c.
  unfold pd.has_label. destruct (String.eqb (cname c) name) eqn:E;
    [|reflexivity].
  apply String.eqb_eq in E. symmetry. exact E.
Qed.

Lemma put_columns_labels name new cols :
  map cname (pd.put_columns name new cols) = map cname cols.
Proof.
  revert new. induction cols as [|c cols IH]; intros new; [reflexivity|].
  cbn [pd.put_columns]. unfold pd.has_label at 1.
  destruct (String.eqb (cname c) name) eqn:E.
  - apply String.eqb_eq in E. destruct new as [|n new]; cbn [map cname].
    + rewrite IH. reflexivity.
    + rewrite IH, E. reflexivity.
  - cbn [map]. rewrite IH. reflexivity.
Qed.

Lemma spread_labels name n vals cols :
  map cname (pd.spread name n vals cols) = map cname cols.
Proof.
  revert vals. induction cols as [|c cols IH]; intros vals; [reflexivity|].
  cbn [pd.spread]. unfold pd.has_label at 1.
  destruct (String.eqb (cname c) name) eqn:E.
  - apply String.eqb_eq in E. destruct vals as [|v vals]; cbn [map cname].
    + rewrite IH. reflexivity.
    + rewrite IH, E. reflexivity.
  - cbn [map]. rewrite IH. reflexivity.
Qed.

Lemma spread_items_labels name j idx sidx s cols cols' :
  pd.spread_items name j idx sidx s cols = inr cols' ->
  map cname cols' = map cname cols.
Proof.
  revert j cols'. induction cols as [|c cols IH]; intros j cols' H.
  - injection H as <-. reflexivity.
  - cbn [pd.spread_items] in H. unfold pd.has_label at 1 in H.
    destruct (String.eqb (cname c) name) eqn:E.
    + apply String.eqb_eq in E.
      destruct (pd.item_column name j idx sidx s) as [e|c1] eqn:Ec;
        [discriminate|].
      destruct (pd.spread_items name (S j) idx sidx s cols) eqn:Er;
        [discriminate|].
      injection H as <-. cbn [map]. rewrite (IH _ _ Er).
      rewrite (item_column_name _ _ _ _ _ _ Ec), E. reflexivity.
    + destruct (pd.spread_items name j idx sidx s cols) eqn:Er; [discriminate|].
      injection H as <-. cbn [map]. rewrite (IH _ _ Er). reflexivity.
Qed.

Lemma add_across_labels name p cols cols' :
  pd.add_across name p cols = inr cols' -> map cname cols' = map cname cols.
Proof.
  revert p cols'. induction cols as [|c cols IH]; intros p cols' H.
  - injection H as <-. reflexivity.
  - cbn [pd.add_across] in H. unfold pd.has_label at 1 in H.
    destruct (String.eqb (cname c) name) eqn:E.
    + apply String.eqb_eq in E. destruct p as [|q p]; [discriminate|].
      destruct (mapM _ (cells c)); [discriminate|].
      destruct (pd.add_across name p cols) eqn:Er; [discriminate|].
      injection H as <-. cbn [map cname]. rewrite (IH _ _ Er), E. reflexivity.
    + destruct (pd.add_across name p cols) eqn:Er; [discriminate|].
      injection H as <-. cbn [map]. rewrite (IH _ _ Er). reflexivity.
Qed.

Lemma labelled_in_labels name cols c cs :
  pd.labelled name cols = c :: cs -> In name (map cname cols).
Proof.
  intros H.
  assert (Hc : In c (pd.labelled name cols)) by (rewrite H; left; reflexivity).
  apply in_labelled in Hc. destruct Hc as [Hc <-]. apply in_map. exact Hc.
Qed.

Lemma setitem_labels name vals g g' :
  pd.setitem name vals g = inr g' ->
  In name (pd.labels g) -> pd.labels g' = pd.labels g.
Proof.
  unfold pd.setitem. intros H Hin. destruct (pd.duplicated _ _ _).
  - injection H as <-. apply spread_labels.
  - destruct (Nat.eqb _ _); [|discriminate].
    injection H as <-. unfold pd.labels. cbn [columns].
    apply put_column_labels. exact Hin.
Qed.

Lemma setitem_item_labels name item g g' :
  pd.setitem_item name item g = inr g' ->
  In name (pd.labels g) -> pd.labels g' = pd.labels g.
Proof.
  unfold pd.setitem_item. intros H Hin.
  destruct (columns item) as [|s [|s' new]].
  - destruct (index_eqb _ _); [|discriminate].
    destruct (Nat.eqb _ _); [|discriminate].
    injection H as <-. apply put_columns_labels.
  - destruct (pd.duplicated _ _ _).
    + destruct (pd.spread_items _ _ _ _ _ _) as [e|cols] eqn:E; [discriminate|].
      injection H as <-. exact (spread_items_labels _ _ _ _ _ _ _ E).
    + destruct (pd.align _ _ _); [discriminate|].
      injection H as <-. unfold pd.labels. cbn [columns].
      apply put_column_labels. exact Hin.
  - destruct (index_eqb _ _); [|discriminate].
    destruct (Nat.eqb _ _); [|discriminate].
    injection H as <-. apply put_columns_labels.
Qed.

Lemma iadd_labels name p g g' :
  pd.iadd name p g = inr g' -> pd.labels g' = pd.labels g.
Proof.
  unfold pd.iadd. intros H.
  destruct (pd.labelled name (columns g)) as [|c [|c' cs]] eqn:El;
    [discriminate| |].
  - destruct (np.broadcast _ _ _); [discriminate|].
    injection H as <-. unfold pd.labels. cbn [columns].
    apply put_column_labels. exact (labelled_in_labels _ _ _ _ El).
  - destruct (Nat.eqb _ _); [|discriminate].
    destruct (pd.add_across name p (columns g)) eqn:Ea; [discriminate|].
    injection H as <-. unfold pd.labels. cbn [columns].
    exact (add_across_labels _ _ _ _ Ea).
Qed.

Lemma set_categorical_labels name g g' :
  pd.set_categorical name g = inr g' -> pd.labels g' = pd.labels g.
Proof.
  unfold pd.set_categorical. intros H.
  destruct (pd.labelled name (columns g)) as [|c [|c' cs]] eqn:El;
    [discriminate| |].
  - injection H as <-. unfold pd.labels. cbn [columns].
    apply put_column_labels. exact (labelled_in_labels _ _ _ _ El).
  - injection H as <-. apply spread_labels.
Qed.

Lemma resolve_labels a target features model_name model_ custom_name
      custom_model custom_model_args interv_endog g self g' self1 t :
  resolve a target features model_name model_ custom_name custom_model
          custom_model_args interv_endog g self = (inr g', self1, t) ->
  In target (pd.labels g) -> pd.labels g' = pd.labels g.
Proof.
  intros H Hin. unfold resolve in H.
  destruct (find _ interv_endog).
  { apply assign_run in H. destruct H as [H _].
    exact (setitem_labels _ _ _ _ H Hin). }
  destruct custom_model as [f|].
  - bind_run H as predicted s1 t1 t2 Hp.
    bind_run H as g1 s2 t3 t4 Hg. apply assign_run in Hg.
    destruct Hg as [Hg _]. pose proof (setitem_labels _ _ _ _ Hg Hin) as L1.
    bind_run H as d s3 t5 t6 Hd.
    destruct (is_category d).
    + apply assign_categorical_run in H. destruct H as [H _].
      rewrite (set_categorical_labels _ _ _ H). exact L1.
    + apply ret_run in H. destruct H as [-> _]. exact L1.
  - bind_run H as d s0 t0 t1 Hd.
    destruct (negb (is_category d)).
    + bind_run H as m s1 t2 t3 Hm. bind_run H as Xf s2 t4 t5 HX.
      bind_run H as u s3 t6 t7 Hu. bind_run H as p s4 t8 t9 Hp.
      apply assign_iadd_run in H. destruct H as [H _].
      exact (iadd_labels _ _ _ _ H).
    + bind_run H as m s1 t2 t3 Hm. bind_run H as Xf s2 t4 t5 HX.
      bind_run H as u s3 t6 t7 Hu. bind_run H as proba s4 t8 t9 Hp.
      bind_run H as predicted s5 t10 t11 Hs.
      bind_run H as g1 s6 t12 t13 Hg. apply assign_run in Hg.
      destruct Hg as [Hg _].
      apply assign_categorical_run in H. destruct H as [H _].
      rewrite (set_categorical_labels _ _ _ H).
      exact (setitem_labels _ _ _ _ Hg Hin).
Qed.

Lemma update_interventions_labels items g self g' self1 t :
  Forall (fun kv => In (fst kv) (pd.labels g)) items ->
  update_interventions items g self = (inr g', self1, t) ->
  pd.labels g' = pd.labels g.
Proof.
  revert g self g' self1 t.
  induction items as [|[n v0] items IH]; intros g self g' self1 t HF H.
  - apply ret_run in H. destruct H as [-> _]. reflexivity.
  - cbn [update_interventions] in H. bind_run H as g0 s1 t1 t2 Hg.
    apply assign_run in Hg. destruct Hg as [Hg _].
    inversion HF as [|kv items' Hn HF']. subst. cbn [fst] in Hn.
    pose proof (setitem_labels _ _ _ _ Hg Hn) as L.
    rewrite <- L. apply (IH g0 s1 g' self1 t2); [|exact H].
    rewrite L. exact HF'.
Qed.

(** With distinct column labels in the fitted table, the working table has
    one column for each of cause, effect and adjustments, in that order. *)
Lemma initial_table_labels a g0 g1 g2 :
  NoDup (pd.labels (_X a)) ->
  pd.getitem_list (names a) (_X a) = inr g0 ->
  pd.setitem_item (_cause a) (error_cause_ a) g0 = inr g1 ->
  pd.setitem_item (_effect a) (error_effect_ a) g1 = inr g2 ->
  pd.labels g0 = names a /\ pd.labels g1 = names a /\ pd.labels g2 = names a.
Proof.
  intros Hnd H0 H1 H2.
  assert (L0 : pd.labels g0 = names a).
  { unfold pd.getitem_list in H0.
    destruct (pd.take_labels (names a) (columns (_X a))) as [e|cs] eqn:E;
      [discriminate|].
    injection H0 as <-. unfold pd.labels. cbn [columns].
    exact (proj1 (take_labels_nodup _ _ _ Hnd E)). }
  assert (L1 : pd.labels g1 = names a).
  { rewrite <- L0. apply (setitem_item_labels _ _ _ _ H1).
    rewrite L0. left. reflexivity. }
  assert (L2 : pd.labels g2 = names a).
  { rewrite <- L1. apply (setitem_item_labels _ _ _ _ H2).
    rewrite L1. right. left. reflexivity. }
  auto.
Qed.

Lemma initial_data_labels a exog self g self1 t :
  NoDup (pd.labels (_X a)) ->
  Forall (fun kv => In (fst kv) (names a)) exog ->
  initial_data a exog self = (inr g, self1, t) ->
  pd.labels g = names a.
Proof.
  intros Hnd HF H.
  destruct (initial_data_inv _ _ _ _ _ _ H)
    as [g0 [g1 [g2 [t' [H0 [H1 [H2 Hu]]]]]]].
  destruct (initial_table_labels _ _ _ _ Hnd H0 H1 H2) as [_ [_ L2]].
  rewrite <- L2. refine (update_interventions_labels _ _ _ _ _ _ _ Hu).
  rewrite L2. exact HF.
Qed.

(** ** Runs of [resolve] *)

Lemma resolve_intervened_run a target features model_name model_ custom_name
      custom_model custom_model_args interv_endog g kv self g' self1 t :
  find (fun kv => String.eqb (fst kv) target) interv_endog = Some kv ->
  resolve a target features model_name model_ custom_name custom_model
          custom_model_args interv_endog g self = (inr g', self1, t) ->
  pd.setitem target (snd kv) g = inr g' /\
  self1 = self /\ t = [ColumnWritten target].
Proof.
  intros Hf H. unfold resolve in H. rewrite Hf in H.
  apply assign_run in H. exact H.
Qed.

Lemma resolve_intervened a target features model_name model_ custom_name
      custom_model custom_model_args interv_endog g kv self g' self1 t :
  NoDup (pd.labels g) ->
  find (fun kv => String.eqb (fst kv) target) interv_endog = Some kv ->
  resolve a target features model_name model_ custom_name custom_model
          custom_model_args interv_endog g self = (inr g', self1, t) ->
  column_is target (snd kv) g' /\ only_touches target g g' /\
  self1 = self /\ t = [ColumnWritten target].
Proof.
  intros Hnd Hf H. apply (resolve_intervened_run _ _ _ _ _ _ _ _ _ _ _ _ _ _ _ Hf) in H.
  destruct H as [H [-> ->]].
  apply (setitem_spec _ _ _ _ Hnd) in H. destruct H as [H1 [H2 _]]. auto.
Qed.

Lemma resolve_touches a target features model_name model_ custom_name
      custom_model custom_model_args interv_endog g self g' self1 t :
  resolve a target features model_name model_ custom_name custom_model
          custom_model_args interv_endog g self = (inr g', self1, t) ->
  only_touches target g g'.
Proof.
  intros H. unfold resolve in H.
  destruct (find _ interv_endog).
  { apply assign_run in H. destruct H as [H _].
    exact (setitem_touches _ _ _ _ H). }
  destruct custom_model as [f|].
  - bind_ok_inv H. bind_ok_inv H. bind_ok_inv H.
    apply assign_run in H1. destruct H1 as [H1 _].
    apply setitem_touches in H1.
    destruct (is_category a2).
    + apply assign_categorical_run in H. destruct H as [H _].
      apply set_categorical_touches in H.
      exact (only_touches_trans _ _ _ _ H1 H).
    + injection H as <- _ _. exact H1.
  - bind_ok_inv H. destruct (negb (is_category a0)).
    + bind_ok_inv H. bind_ok_inv H. bind_ok_inv H. bind_ok_inv H.
      apply assign_iadd_run in H. destruct H as [H _].
      exact (iadd_touches _ _ _ _ H).
    + bind_ok_inv H. bind_ok_inv H. bind_ok_inv H. bind_ok_inv H.
      bind_ok_inv H. bind_ok_inv H.
      apply assign_run in H6. destruct H6 as [H6 _].
      apply setitem_touches in H6.
      apply assign_categorical_run in H. destruct H as [H _].
      apply set_categorical_touches in H.
      exact (only_touches_trans _ _ _ _ H6 H).
Qed.

(** With distinct column labels in the fitted table, the working table
    keeps one column for each of cause, effect and adjustments while the
    two variables are resolved. *)
Lemma working_table_labels a exog endog self g s0 t0
      mc cm ac s0' g1 s1 tc me em ae s1' g2 s2 te :
  NoDup (pd.labels (_X a)) ->
  Forall (fun kv => In (fst kv) (names a)) exog ->
  initial_data a exog self = (inr g, s0, t0) ->
  resolve a (_cause a) (_adjustments a) "model_cause" mc "cause_model" cm ac
          endog g s0' = (inr g1, s1, tc) ->
  resolve a (_effect a) (_cause a :: _adjustments a) "model_effect" me
          "effect_model" em ae endog g1 s1' = (inr g2, s2, te) ->
  pd.labels g = names a /\ pd.labels g1 = names a /\ pd.labels g2 = names a.
Proof.
  intros Hnd HF Hi Hc He.
  pose proof (initial_data_labels _ _ _ _ _ _ Hnd HF Hi) as L.
  assert (L1 : pd.labels g1 = names a).
  { rewrite <- L. apply (resolve_labels _ _ _ _ _ _ _ _ _ _ _ _ _ _ Hc).
    rewrite L. left. reflexivity. }
  assert (L2 : pd.labels g2 = names a).
  { rewrite <- L1. apply (resolve_labels _ _ _ _ _ _ _ _ _ _ _ _ _ _ He).
    rewrite L1. right. left. reflexivity. }
  auto.
Qed.

(** A run of [generate] that returns a table: the checked arguments, the
    initial table, the two resolutions and the final selection. *)
Lemma generate_ok_inv interv_endog interv_exog cause_model cause_model_args
      effect_model effect_model_args self out self2 t :
  generate interv_endog interv_exog cause_model cause_model_args
           effect_model effect_model_args self = (inr out, self2, t) ->
  exists endog exog cm em a g g1 g2 self1 t1 tc te,
    _check_data_dict interv_endog "interv_endog" self = (inr endog, self, []) /\
    _check_data_dict interv_exog "interv_exog" self = (inr exog, self, []) /\
    check_callable cause_model "cause_model shall be callable." self
    = (inr cm, self, []) /\
    check_callable effect_model "effect_model shall be callable." self
    = (inr em, self, []) /\
    attributes self = Some a /\
    initial_data a exog self = (inr g, self, t1) /\
    Forall (fun ev => delegate ev = None) t1 /\
    resolve a (_cause a) (_adjustments a) "model_cause" (model_cause_ a)
            "cause_model" cm cause_model_args endog g self
    = (inr g1, self1, tc) /\
    resolve a (_effect a) (_cause a :: _adjustments a)
            "model_effect" (Some (model_effect_ a))
            "effect_model" em effect_model_args endog g1 self1
    = (inr g2, self2, te) /\
    pd.loc (index (_X a)) (pd.labels (_X a)) g2 = inr out /\
    t = t1 ++ tc ++ te.
Proof.
  intros H. apply generate_inv in H.
  destruct H as [[e [H _]]|[endog [exog [cm [em [a [g [t1 [t2 H]]]]]]]]];
    [discriminate|].
  destruct H as [E1 [E2 [E3 [E4 [Ea [Ei [HF [H ->]]]]]]]].
  bind_ok_inv H. bind_ok_inv H.
  unfold lift in H. injection H as H <- <-.
  exists endog, exog, cm, em, a, g, a0, a1, s, t1, t, t3.
  subst. rewrite app_nil_r. repeat split; assumption.
Qed.

(** C4, as amended.  An endogenous intervention on the cause, or on the
    effect, takes the place of the variable's own mechanism, whatever the
    adjustments and the other arguments: the trace of the call shows no use
    of its fitted model and no call of its custom mechanism.  When the
    names of cause, effect and adjustments are distinct, as are the column
    labels and the row labels of the fitted table, the column of that
    variable in the table [generate] returns is the array supplied (a list
    or an array: its values are written by position). *)
Theorem endogenous_override_takes_precedence
        (self : CausalDataGenerator) (a : fitted)
        (interv_endog interv_exog : dict_arg)
        (cause_model effect_model : option callable_arg)
        (cause_model_args effect_model_args : option (list value))
        (out : frame) (self1 : CausalDataGenerator) (t : list event) :
  attributes self = Some a ->
  generate interv_endog interv_exog cause_model cause_model_args
           effect_model effect_model_args self = (inr out, self1, t) ->
  (forall v,
      dict_get interv_endog (_cause a) = Some v ->
      Forall (fun ev => delegate ev <> Some "model_cause" /\
                        delegate ev <> Some "cause_model") t /\
      (NoDup (names a) -> NoDup (pd.labels (_X a)) -> NoDup (index (_X a)) ->
       column_is (_cause a) v out)) /\
  (forall v,
      dict_get interv_endog (_effect a) = Some v ->
      Forall (fun ev => delegate ev <> Some "model_effect" /\
                        delegate ev <> Some "effect_model") t /\
      (NoDup (names a) -> NoDup (pd.labels (_X a)) -> NoDup (index (_X a)) ->
       column_is (_effect a) v out)).
Proof.
  intros Ha H. apply generate_ok_inv in H.
  destruct H as [endog [exog [cm [em [a' [g [g1 [g2 [s1 [t1 [tc [te H]]]]]]]]]]]].
  destruct H as [E1 [E2 [_ [_ [Ea [Ei [HF1 [Hc [He [Hl ->]]]]]]]]]].
  rewrite Ha in Ea. injection Ea as <-.
  destruct (initial_data_index _ _ _ _ _ _ Ei) as [Ig Hlab].
  pose proof (resolve_touches _ _ _ _ _ _ _ _ _ _ _ _ _ _ Hc) as Tc.
  pose proof (resolve_touches _ _ _ _ _ _ _ _ _ _ _ _ _ _ He) as Te.
  assert (I2 : index g2 = index (_X a)).
  { destruct Tc as [Ic _]. destruct Te as [Ie _]. congruence. }
  pose proof (check_data_dict_names _ _ _ _ _ _ _ Ha E2) as Hx.
  split.
  - intros v Hv.
    pose proof (check_data_dict_find _ _ _ _ _ _ (_cause a) E1) as Hfind.
    rewrite Hv in Hfind. destruct Hfind as [kv [a' [Hfind [<- [Ea Hlen]]]]].
    rewrite Ha in Ea. injection Ea as <-.
    destruct (resolve_intervened_run _ _ _ _ _ _ _ _ _ _ _ _ _ _ _ Hfind Hc)
      as [_ [Es Et]].
    split.
    + subst. apply Forall_app. split.
      { eapply Forall_impl; [|exact HF1]. intros ev ->. split; discriminate. }
      apply Forall_app. split.
      { constructor; [split; discriminate|constructor]. }
      eapply Forall_impl; [|exact (emits_resolve _ _ _ _ _ _ _ _ _ _ _ _ _ _ He)].
      intros ev [-> |[-> | ->]]; split; discriminate.
    + intros Hnames Hlabels Hnd.
      destruct (working_table_labels _ _ _ _ _ _ _ _ _ _ _ _ _ _ _ _ _ _ _ _ _
                  Hlabels Hx Ei Hc He) as [L [L1 L2]].
      assert (Hg : NoDup (pd.labels g)) by (rewrite L; exact Hnames).
      destruct (resolve_intervened _ _ _ _ _ _ _ _ _ _ _ _ _ _ _ Hg Hfind Hc)
        as [C1 _].
      rewrite <- I2 in Hl, Hnd.
      apply (loc_column_is g2 (pd.labels (_X a)) out);
        [exact Hnd|exact Hl| | |].
      * apply Hlab. left. reflexivity.
      * apply (column_is_untouched _ (_effect a) _ g1); [|exact Te|exact C1].
        unfold names in Hnames. apply NoDup_cons_iff in Hnames.
        intros E. apply (proj1 Hnames). rewrite E. left. reflexivity.
      * unfold pd.shape0. rewrite I2. exact Hlen.
  - intros v Hv.
    pose proof (check_data_dict_find _ _ _ _ _ _ (_effect a) E1) as Hfind.
    rewrite Hv in Hfind. destruct Hfind as [kv [a' [Hfind [<- [Ea Hlen]]]]].
    rewrite Ha in Ea. injection Ea as <-.
    destruct (resolve_intervened_run _ _ _ _ _ _ _ _ _ _ _ _ _ _ _ Hfind He)
      as [_ [Es Et]].
    split.
    + subst. apply Forall_app. split.
      { eapply Forall_impl; [|exact HF1]. intros ev ->. split; discriminate. }
      apply Forall_app. split.
      2:{ constructor; [split; discriminate|constructor]. }
      eapply Forall_impl; [|exact (emits_resolve _ _ _ _ _ _ _ _ _ _ _ _ _ _ Hc)].
      intros ev [-> |[-> | ->]]; split; discriminate.
    + intros Hnames Hlabels Hnd.
      destruct (working_table_labels _ _ _ _ _ _ _ _ _ _ _ _ _ _ _ _ _ _ _ _ _
                  Hlabels Hx Ei Hc He) as [L [L1 L2]].
      assert (Hg1 : NoDup (pd.labels g1)) by (rewrite L1; exact Hnames).
      destruct (resolve_intervened _ _ _ _ _ _ _ _ _ _ _ _ _ _ _ Hg1 Hfind He)
        as [C2 _].
      rewrite <- I2 in Hl, Hnd.
      apply (loc_column_is g2 (pd.labels (_X a)) out);
        [exact Hnd|exact Hl| |exact C2|].
      * apply Hlab. right. left. reflexivity.
      * unfold pd.shape0. rewrite I2. exact Hlen.
Qed.

(** ** Categorical variables *)

Lemma sample_run name m proba self labels self1 t :
  sample name m proba self = (inr labels, self1, t) ->
  Forall2 (drawn (classes_ m)) labels proba.
Proof.
  revert self labels self1 t.
  induction proba as [|p proba IH]; intros self labels self1 t H.
  - injection H as <- _ _. constructor.
  - cbn [sample] in H. bind_ok_inv H. bind_ok_inv H.
    unfold ret in H. injection H as <- _ _.
    constructor; [|exact (IH _ _ _ _ H1)].
    unfold draw in H0.
    destruct (choice (_random_state self) (classes_ m) p) as [x rs] eqn:E.
    injection H0 as -> _ _. exists (_random_state self), rs. exact E.
Qed.

Lemma drawn_in classes labels proba :
  choice_contract ->
  Forall2 (drawn classes) labels proba ->
  Forall (fun v => In v classes) labels.
Proof.
  intros Hc H. induction H as [|v p labels proba [r [r' Hd]] _ IH];
    constructor; [exact (Hc _ _ _ _ _ Hd)|exact IH].
Qed.

(** A categorical variable without intervention and without custom
    mechanism: its column is made of the labels drawn, one per row of the
    predicted probabilities. *)
Lemma resolve_sampled a target features model_name model_ custom_name
      custom_model_args interv_endog g self g' self1 t :
  NoDup (pd.labels g) ->
  In target (pd.labels g) ->
  find (fun kv => String.eqb (fst kv) target) interv_endog = None ->
  dtype_of target (_X a) = inr category ->
  resolve a target features model_name model_ custom_name None
          custom_model_args interv_endog g self = (inr g', self1, t) ->
  exists m Xf proba labels,
    model_ = Some m /\
    pd.getitem_list features g = inr Xf /\
    predict_proba m Xf = inr proba /\
    Forall2 (drawn (classes_ m)) labels proba /\
    column_is target labels g' /\
    List.length labels = pd.shape0 g.
Proof.
  intros Hnd Hin Hf Hd H. unfold resolve in H. rewrite Hf in H.
  bind_ok_inv H. unfold lift in H0. rewrite Hd in H0. injection H0 as <- _ _.
  cbn [is_category negb] in H.
  bind_ok_inv H. bind_ok_inv H. bind_ok_inv H. bind_ok_inv H.
  bind_ok_inv H. bind_ok_inv H.
  unfold method_of in H0. destruct model_ as [m|]; [|discriminate].
  injection H0 as <- _ _.
  unfold lift in H1, H3. injection H1 as H1 _ _. injection H3 as H3 _ _.
  apply sample_run in H4.
  apply assign_run in H5. destruct H5 as [H5 _].
  pose proof (setitem_labels _ _ _ _ H5 Hin) as L.
  apply (setitem_spec _ _ _ _ Hnd) in H5. destruct H5 as [_ [C Hlen]].
  apply assign_categorical_run in H. destruct H as [H _].
  rewrite <- L in Hnd.
  apply (set_categorical_spec _ _ _ Hnd) in H. destruct H as [_ H].
  exists m, a1, a3, a4.
  split; [reflexivity|]. split; [exact H1|]. split; [exact H3|].
  split; [exact H4|]. split; [exact (H _ C)|exact Hlen].
Qed.

(** C8, as amended.  Take a fitted table with distinct column labels and
    distinct row labels, and names of cause, effect and adjustments that
    are distinct.  A categorical cause, or effect, that is resolved by the
    fitted classifier (no endogenous intervention on it, no custom
    mechanism) gets, in the table [generate] returns, one label per row of
    the probabilities the classifier predicts, each the outcome of a call of
    [choice] over the classes of the model with the probabilities of that
    row; so every label of the column is one of [classes_] (by numpy's
    contract for [choice]).  The column is made of these labels alone:
    nothing of the residual series is added to it. *)
Theorem categorical_labels_are_sampled
        (self : CausalDataGenerator) (a : fitted)
        (interv_endog interv_exog : dict_arg)
        (cause_model effect_model : option callable_arg)
        (cause_model_args effect_model_args : option (list value))
        (out : frame) (self1 : CausalDataGenerator) (t : list event) :
  choice_contract ->
  attributes self = Some a ->
  NoDup (names a) ->
  NoDup (pd.labels (_X a)) ->
  NoDup (index (_X a)) ->
  generate interv_endog interv_exog cause_model cause_model_args
           effect_model effect_model_args self = (inr out, self1, t) ->
  (dtype_of (_cause a) (_X a) = inr category ->
   dict_get interv_endog (_cause a) = None ->
   cause_model = None ->
   exists m Xf proba labels,
     model_cause_ a = Some m /\
     predict_proba m Xf = inr proba /\
     Forall2 (drawn (classes_ m)) labels proba /\
     column_is (_cause a) labels out /\
     Forall (fun v => In v (classes_ m)) labels) /\
  (dtype_of (_effect a) (_X a) = inr category ->
   dict_get interv_endog (_effect a) = None ->
   effect_model = None ->
   exists Xf proba labels,
     predict_proba (model_effect_ a) Xf = inr proba /\
     Forall2 (drawn (classes_ (model_effect_ a))) labels proba /\
     column_is (_effect a) labels out /\
     Forall (fun v => In v (classes_ (model_effect_ a))) labels).
Proof.
  intros Hchoice Ha Hnames Hlabels Hnd H. apply generate_ok_inv in H.
  destruct H as [endog [exog [cm [em [a' [g [g1 [g2 [s1 [t1 [tc [te H]]]]]]]]]]]].
  destruct H as [E1 [E2 [E3 [E4 [Ea [Ei [HF1 [Hc [He [Hl ->]]]]]]]]]].
  rewrite Ha in Ea. injection Ea as <-.
  destruct (initial_data_index _ _ _ _ _ _ Ei) as [Ig Hlab].
  pose proof (resolve_touches _ _ _ _ _ _ _ _ _ _ _ _ _ _ Hc) as Tc.
  pose proof (resolve_touches _ _ _ _ _ _ _ _ _ _ _ _ _ _ He) as Te.
  assert (I1 : index g1 = index (_X a)).
  { destruct Tc as [Ic _]. congruence. }
  assert (I2 : index g2 = index (_X a)).
  { destruct Te as [Ie _]. congruence. }
  rewrite <- I2 in Hl, Hnd.
  pose proof (check_data_dict_names _ _ _ _ _ _ _ Ha E2) as Hx.
  destruct (working_table_labels _ _ _ _ _ _ _ _ _ _ _ _ _ _ _ _ _ _ _ _ _
              Hlabels Hx Ei Hc He) as [L [L1 L2]].
  assert (Hce : _cause a <> _effect a).
  { pose proof Hnames as Hn. unfold names in Hn. apply NoDup_cons_iff in Hn.
    intros E. apply (proj1 Hn). rewrite E. left. reflexivity. }
  split.
  - intros Hd Hv ->. injection E3 as <-.
    pose proof (check_data_dict_find _ _ _ _ _ _ (_cause a) E1) as Hfind.
    rewrite Hv in Hfind.
    assert (Hg : NoDup (pd.labels g)) by (rewrite L; exact Hnames).
    assert (Hin : In (_cause a) (pd.labels g))
      by (rewrite L; left; reflexivity).
    destruct (resolve_sampled _ _ _ _ _ _ _ _ _ _ _ _ _ Hg Hin Hfind Hd Hc)
      as [m [Xf [proba [labels [Em [_ [Ep [Hdr [C Hlen]]]]]]]]].
    exists m, Xf, proba, labels.
    split; [exact Em|]. split; [exact Ep|]. split; [exact Hdr|].
    split; [|exact (drawn_in _ _ _ Hchoice Hdr)].
    apply (loc_column_is g2 (pd.labels (_X a)) out); auto.
    + apply Hlab. left. reflexivity.
    + apply (column_is_untouched _ (_effect a) _ g1); auto.
    + unfold pd.shape0 in *. rewrite I2. rewrite <- Ig. exact Hlen.
  - intros Hd Hv ->. injection E4 as <-.
    pose proof (check_data_dict_find _ _ _ _ _ _ (_effect a) E1) as Hfind.
    rewrite Hv in Hfind.
    assert (Hg1 : NoDup (pd.labels g1)) by (rewrite L1; exact Hnames).
    assert (Hin : In (_effect a) (pd.labels g1))
      by (rewrite L1; right; left; reflexivity).
    destruct (resolve_sampled _ _ _ _ _ _ _ _ _ _ _ _ _ Hg1 Hin Hfind Hd He)
      as [m [Xf [proba [labels [Em [_ [Ep [Hdr [C Hlen]]]]]]]]].
    injection Em as <-.
    exists Xf, proba, labels.
    split; [exact Ep|]. split; [exact Hdr|].
    split; [|exact (drawn_in _ _ _ Hchoice Hdr)].
    apply (loc_column_is g2 (pd.labels (_X a)) out); auto.
    + apply Hlab. right. left. reflexivity.
    + unfold pd.shape0 in *. rewrite I2. rewrite <- I1. exact Hlen.
Qed.

(** ** Runs of [fit] that succeed *)

Lemma make_model_ok_inv X y name model self m err self1 t :
  _make_model X y name model self = (inr (m, err), self1, t) ->
  exists sc resid,
    columns y = [sc] /\
    err = Frame (index y) [Col (cname sc) other resid] /\
    List.length resid = List.length (index y) /\
    if is_category (cdtype sc) then resid = np.full_nan (pd.shape0 X)
    else exists p,
        predict m X = inr p /\
        np.broadcast np.sub_cell (cells sc) p = inr resid.
Proof.
  intros H. unfold _make_model in H.
  bind_step H as m' Hm. bind_step H as sc Hsc.
  bind_step H as resid Hres. bind_step H as err' Herr.
  unfold ret in H. injection H as <- <- _ _.
  unfold lift in Hsc. injection Hsc as Hsc _ _.
  unfold pd.as_series in Hsc.
  destruct (columns y) as [|sc' [|c l]] eqn:Ey; try discriminate.
  injection Hsc as <-.
  unfold lift in Herr. injection Herr as Herr _ _.
  unfold pd.Series in Herr.
  destruct (Nat.eqb (List.length resid) (List.length (index y))) eqn:El;
    [|discriminate].
  injection Herr as <-. apply Nat.eqb_eq in El.
  exists sc', resid. split; [reflexivity|]. split; [reflexivity|].
  split; [exact El|].
  destruct (is_category (cdtype sc')).
  - unfold ret in Hres. injection Hres as <- _ _. reflexivity.
  - bind_step Hres as u Hu. bind_step Hres as p Hp.
    unfold lift in Hp, Hres. injection Hp as Hp _ _.
    injection Hres as Hres _ _.
    exists p. auto.
Qed.

Lemma getitem_inv name X y :
  pd.getitem name X = inr y ->
  y = Frame (index X) (pd.labelled name (columns X)).
Proof.
  unfold pd.getitem. destruct (pd.labelled name (columns X)); [discriminate|].
  intros H. injection H as <-. reflexivity.
Qed.

Lemma labelled_single_name name cols y :
  pd.labelled name cols = [y] -> cname y = name.
Proof.
  intros H. assert (Hin : In y (pd.labelled name cols)) by (rewrite H; left; reflexivity).
  apply in_labelled in Hin. tauto.
Qed.

Lemma fit_effect_ok_inv X cause effect adjs model_effect self m err self1 t :
  fit_effect X cause effect adjs model_effect self = (inr (m, err), self1, t) ->
  is_residual X effect (cause :: adjs) m err.
Proof.
  intros H. unfold fit_effect in H.
  bind_step H as Xe HXe. bind_step H as y Hy.
  unfold lift in HXe, Hy. injection HXe as HXe _ _. injection Hy as Hy _ _.
  apply make_model_ok_inv in H.
  destruct H as [sc [resid [Ey [-> [Hlen Hres]]]]].
  apply getitem_inv in Hy. subst y. cbn [columns index] in *.
  pose proof (labelled_single_name _ _ _ Ey) as Hn.
  pose proof (getitem_list_index _ _ _ HXe) as Hi.
  exists Xe, sc, resid. rewrite Hn. unfold pd.shape0 in *. rewrite Hi in Hres.
  split; [exact HXe|]. split; [exact Ey|]. split; [reflexivity|].
  split; [exact Hlen|exact Hres].
Qed.

Lemma fit_cause_ok_inv X cause adjs model_cause self mc err self1 t :
  fit_cause X cause adjs model_cause self = (inr (mc, err), self1, t) ->
  (adjs = [] /\ mc = None /\ pd.getitem cause X = inr err) \/
  (adjs <> [] /\ exists m, mc = Some m /\ is_residual X cause adjs m err).
Proof.
  intros H. unfold fit_cause in H.
  destruct (Nat.eqb (List.length adjs) 0) eqn:E.
  - left. apply Nat.eqb_eq in E. apply length_zero_iff_nil in E.
    bind_step H as y Hy. unfold lift in Hy. injection Hy as Hy _ _.
    unfold ret in H. injection H as <- <- _ _. auto.
  - right. split.
    { intros ->. discriminate. }
    bind_step H as Xa HXa. bind_step H as y Hy. bind_step H as mr Hmr.
    unfold lift in HXa, Hy. injection HXa as HXa _ _. injection Hy as Hy _ _.
    unfold ret in H. injection H as <- <- _ _.
    destruct mr as [m err]. apply make_model_ok_inv in Hmr.
    destruct Hmr as [sc [resid [Ey [-> [Hlen Hres]]]]].
    apply getitem_inv in Hy. subst y. cbn [columns index] in *.
    pose proof (labelled_single_name _ _ _ Ey) as Hn.
    pose proof (getitem_list_index _ _ _ HXa) as Hi.
    exists m. split; [reflexivity|].
    exists Xa, sc, resid. rewrite Hn. unfold pd.shape0 in *. rewrite Hi in Hres.
    cbn [fst snd].
    split; [exact HXa|]. split; [exact Ey|]. split; [reflexivity|].
    split; [exact Hlen|exact Hres].
Qed.

Lemma silent_is_sklearn_estimator e c : silent (_is_sklearn_estimator e c).
Proof.
  intros self. unfold _is_sklearn_estimator, bind, raise, ret.
  destruct (c && is_regressor e); [eexists; reflexivity|].
  destruct (negb c && is_classifier e); [eexists; reflexivity|].
  destruct c; [|eexists; reflexivity].
  destruct (has_predict_proba e); eexists; reflexivity.
Qed.

Lemma silent_bind {A B} (m : M A) (f : A -> M B) :
  silent m -> (forall a, silent (f a)) -> silent (bind m f).
Proof.
  intros Hm Hf self. destruct (Hm self) as [r E]. unfold bind. rewrite E.
  destruct r as [e|a]; [eexists; reflexivity|].
  destruct (Hf a self) as [r' E']. rewrite E'. eexists. reflexivity.
Qed.

Lemma silent_lift {A} (r : result A) : silent (lift r).
Proof. intros self. eexists. reflexivity. Qed.

Lemma silent_ret {A} (a : A) : silent (ret a).
Proof. intros self. eexists. reflexivity. Qed.

Lemma silent_raise {A} c msg : silent (@raise _ A c msg).
Proof. intros self. eexists. reflexivity. Qed.

Lemma silent_fit_checks X cause effect adjustments mc me :
  silent (fit_checks X cause effect adjustments mc me).
Proof.
  unfold fit_checks.
  apply silent_bind; [destruct X; [apply silent_raise|apply silent_ret]|].
  intros X'. apply silent_bind; [apply silent_lift|]. intros _.
  apply silent_bind;
    [destruct (pd.contains cause X'); [apply silent_ret|apply silent_raise]|].
  intros _. apply silent_bind;
    [destruct (pd.contains effect X'); [apply silent_ret|apply silent_raise]|].
  intros _. apply silent_bind;
    [destruct adjustments; [apply silent_lift|apply silent_ret]|].
  intros adjs. apply silent_bind.
  { destruct mc; [|apply silent_ret].
    apply silent_bind; [apply silent_lift|]. intros d.
    apply silent_is_sklearn_estimator. }
  intros _. apply silent_bind.
  { destruct me; [|apply silent_ret].
    apply silent_bind; [apply silent_lift|]. intros d.
    apply silent_is_sklearn_estimator. }
  intros _. apply silent_ret.
Qed.

(** The arguments that pass the checks of [fit]. *)
Lemma fit_checks_ok_inv X cause effect adjustments mc me self Xv self1 t :
  fit_checks X cause effect adjustments mc me self = (inr Xv, self1, t) ->
  X = DataFrame (fst Xv) /\
  check_array_frame (fst Xv) = inr tt /\
  pd.contains cause (fst Xv) = true /\
  pd.contains effect (fst Xv) = true /\
  match adjustments with
  | None => snd Xv = []
  | Some arr => check_array_flat arr = inr (snd Xv)
  end /\
  self1 = self /\ t = [].
Proof.
  intros H.
  destruct (silent_fit_checks X cause effect adjustments mc me self) as [r E].
  pose proof H as H'. rewrite E in H'. injection H' as -> <- <-.
  clear E. unfold fit_checks in H.
  bind_step H as X' HX. bind_step H as u1 H1. bind_step H as u2 H2.
  bind_step H as u3 H3. bind_step H as adjs H4. bind_step H as u5 H5.
  bind_step H as u6 H6. unfold ret in H. injection H as <- _ _.
  cbn [fst snd].
  destruct X as [|X0]; [discriminate|]. unfold ret in HX.
  injection HX as <- _ _.
  unfold lift in H1. injection H1 as H1 _ _. destruct u1.
  destruct (pd.contains cause X0); [|discriminate].
  destruct (pd.contains effect X0); [|discriminate].
  repeat split; auto.
  destruct adjustments as [arr|].
  - unfold lift in H4. injection H4 as H4 _ _. exact H4.
  - unfold ret in H4. injection H4 as <- _ _. reflexivity.
Qed.

(** A run of [fit] that succeeds: the checks, the two models, the
    attributes. *)
Lemma fit_ok_inv X cause effect adjustments mc me self self1 t :
  fit X cause effect adjustments mc me self = (inr tt, self1, t) ->
  exists df adjs m_c e_c m_e e_e tc te,
    fit_checks X cause effect adjustments mc me self
    = (inr (df, adjs), self, []) /\
    fit_cause df cause adjs mc self = (inr (m_c, e_c), self, tc) /\
    fit_effect df cause effect adjs me self = (inr (m_e, e_e), self, te) /\
    self1 = Self (_random_state self)
                 (Some (Fitted df cause effect adjs
                               (kept_model_cause mc me m_c m_e) m_e e_c e_e)) /\
    t = tc ++ te ++ [AttributesWritten].
Proof.
  intros H. unfold fit in H.
  bind_step H as Xv Hchk. bind_step H as mc' Hc. bind_step H as me' He.
  pose proof (fit_checks_ok_inv _ _ _ _ _ _ _ _ _ _ Hchk) as [_ [_ [_ [_ [_ [-> ->]]]]]].
  pose proof (keeps_fit_cause (fst Xv) cause (snd Xv) mc self) as Kc.
  rewrite Hc in Kc. cbn [fst snd] in Kc. subst s0.
  pose proof (keeps_fit_effect (fst Xv) cause effect (snd Xv) me self) as Ke.
  rewrite He in Ke. cbn [fst snd] in Ke. subst s1.
  unfold store in H. injection H as <- <-.
  destruct Xv as [df adjs]. destruct mc' as [m_c e_c]. destruct me' as [m_e e_e].
  cbn [fst snd] in *.
  exists df, adjs, m_c, e_c, m_e, e_e, t2, t4. subst.
  repeat split; auto.
Qed.


(** ** The labels of the working table *)

Lemma update_interventions_within ns d g self g' self1 t :
  Forall (fun kv => In (fst kv) ns) d ->
  update_interventions d g self = (inr g', self1, t) ->
  labels_within ns g -> labels_within ns g'.
Proof.
  intros Hd. revert g self t.
  induction Hd as [|[name v] d Hin _ IH]; intros g self t H Hw.
  - injection H as <- _ _. exact Hw.
  - cbn [update_interventions] in H. bind_step H as g1 H1.
    apply assign_run in H1. destruct H1 as [H1 _].
    apply setitem_touches in H1. rename H1 into T.
    apply (IH _ _ _ H). exact (only_touches_within _ _ _ _ Hin T Hw).
Qed.

Lemma initial_data_within a exog self g self1 t :
  Forall (fun kv => In (fst kv) (names a)) exog ->
  initial_data a exog self = (inr g, self1, t) ->
  labels_within (names a) g.
Proof.
  intros Hd H. unfold initial_data in H.
  bind_step H as g0 H0. bind_step H as u Hu.
  bind_step H as g1 H1. bind_step H as g2 H2.
  unfold lift in H0. injection H0 as H0 _ _.
  apply getitem_list_within in H0.
  apply assign_item_run in H1, H2.
  destruct H1 as [H1 _]. destruct H2 as [H2 _].
  apply setitem_item_touches in H1, H2.
  apply (update_interventions_within _ _ _ _ _ _ _ Hd H).
  apply (only_touches_within _ (_effect a) g1); [right; left; reflexivity|exact H2|].
  apply (only_touches_within _ (_cause a) g0); [left; reflexivity|exact H1|].
  exact H0.
Qed.

(** The table [generate] ends with, just before the final selection, has
    no column but those of cause, effect and adjustments. *)
Lemma generate_table_within interv_endog interv_exog cause_model
      cause_model_args effect_model effect_model_args self a out self2 t :
  attributes self = Some a ->
  generate interv_endog interv_exog cause_model cause_model_args
           effect_model effect_model_args self = (inr out, self2, t) ->
  exists g2,
    labels_within (names a) g2 /\
    pd.loc (index (_X a)) (pd.labels (_X a)) g2 = inr out.
Proof.
  intros Ha H. apply generate_ok_inv in H.
  destruct H as [endog [exog [cm [em [a' [g [g1 [g2 [s1 [t1 [tc [te H]]]]]]]]]]]].
  destruct H as [_ [E2 [_ [_ [Ea [Ei [_ [Hc [He [Hl _]]]]]]]]]].
  rewrite Ha in Ea. injection Ea as <-.
  exists g2. split; [|exact Hl].
  pose proof (check_data_dict_names _ _ _ _ _ _ _ Ha E2) as Hx.
  pose proof (initial_data_within _ _ _ _ _ _ Hx Ei) as Hw.
  apply resolve_touches in Hc, He.
  apply (only_touches_within _ (_effect a) g1); [right; left; reflexivity|exact He|].
  apply (only_touches_within _ (_cause a) g); [left; reflexivity|exact Hc|].
  exact Hw.
Qed.

(** C2, where the code departs from it.  When the fitted table has a
    column that is neither the cause, nor the effect, nor an adjustment,
    [generate] returns no table, whatever its arguments: the working table
    holds the columns of cause, effect and adjustments only, and the final
    selection of every column of the fitted table raises. *)
Theorem generate_raises_on_unused_column
        (self : CausalDataGenerator) (a : fitted) (label : string)
        (interv_endog interv_exog : dict_arg)
        (cause_model effect_model : option callable_arg)
        (cause_model_args effect_model_args : option (list value)) :
  attributes self = Some a ->
  In label (pd.labels (_X a)) ->
  ~ In label (names a) ->
  exists e self1 t,
    generate interv_endog interv_exog cause_model cause_model_args
             effect_model effect_model_args self = (inl e, self1, t).
Proof.
  intros Ha Hin Hout.
  destruct (generate interv_endog interv_exog cause_model cause_model_args
                     effect_model effect_model_args self)
    as [[[e|out] self1] t] eqn:H; [eauto|].
  exfalso.
  destruct (generate_table_within _ _ _ _ _ _ _ _ _ _ _ Ha H) as [g2 [Hw Hl]].
  unfold pd.loc in Hl.
  destruct (pd.take_rows _ _); [discriminate|].
  destruct (pd.take_labels (pd.labels (_X a)) (columns g2)) as [e|cs] eqn:E;
    [discriminate|].
  destruct (take_labels_has _ _ _ _ E Hin) as [c [Hc Hn]].
  apply Hout. rewrite <- Hn. exact (Hw _ Hc).
Qed.

(** ** Running a method forwards *)

(** ** Tables with distinct labels *)




(** ** Arithmetic: adding back what was subtracted *)

Lemma mapM_length {A B} (f : A -> result B) l l' :
  mapM f l = inr l' -> List.length l' = List.length l.
Proof.
  revert l'. induction l as [|a l IH]; intros l' H.
  - injection H as <-. reflexivity.
  - cbn [mapM] in H. destruct (f a); [discriminate|].
    destruct (mapM f l) as [e|bs]; [discriminate|].
    injection H as <-. cbn [List.length]. f_equal. exact (IH _ eq_refl).
Qed.


Lemma broadcast_length op vs p rs :
  np.broadcast op vs p = inr rs -> List.length rs = List.length vs.
Proof.
  unfold np.broadcast.
  destruct (Nat.eqb (List.length p) (List.length vs)) eqn:E.
  - intros H. apply mapM_length in H. rewrite H.
    rewrite length_combine. apply Nat.eqb_eq in E. rewrite E. apply Nat.min_id.
  - destruct p as [|q [|q' p]]; try discriminate.
    intros H. exact (mapM_length _ _ _ H).
Qed.




(** ** [generate] without arguments *)

Lemma generate_plain a cause_model_args effect_model_args self :
  attributes self = Some a ->
  generate NoDict NoDict None cause_model_args None effect_model_args self =
  bind (initial_data a [])
       (fun g =>
          bind (resolve a (_cause a) (_adjustments a) "model_cause"
                        (model_cause_ a) "cause_model" None cause_model_args [] g)
               (fun g1 =>
                  bind (resolve a (_effect a) (_cause a :: _adjustments a)
                                "model_effect" (Some (model_effect_ a))
                                "effect_model" None effect_model_args [] g1)
                       (fun g2 =>
                          lift (pd.loc (index (_X a)) (pd.labels (_X a)) g2))))
       self.
Proof.
  intros Ha. unfold generate. cbn [_check_data_dict check_callable].
  rewrite (bind_quiet _ _ self []); [|reflexivity].
  rewrite (bind_quiet _ _ self []); [|reflexivity].
  rewrite (bind_quiet _ _ self None); [|reflexivity].
  rewrite (bind_quiet _ _ self None); [|reflexivity].
  rewrite (bind_quiet _ _ self a); [reflexivity|].
  unfold attrs. rewrite Ha. reflexivity.
Qed.

Lemma initial_data_run a g0 g1 g2 self :
  pd.getitem_list (names a) (_X a) = inr g0 ->
  pd.setitem_item (_cause a) (error_cause_ a) g0 = inr g1 ->
  pd.setitem_item (_effect a) (error_effect_ a) g1 = inr g2 ->
  initial_data a [] self =
  (inr g2, self,
   [TableCreated; ColumnWritten (_cause a); ColumnWritten (_effect a)]).
Proof.
  unfold names. intros H0 H1 H2.
  unfold initial_data, assign_item, update_interventions, bind, lift, emit, ret.
  rewrite H0, H1, H2. reflexivity.
Qed.


(** Without a model ([model_cause_] is [None] when there is no
    adjustment), the model-based branch raises. *)
Lemma resolve_without_model a target features model_name custom_name
      custom_model_args g d self :
  dtype_of target (_X a) = inr d ->
  exists msg,
    resolve a target features model_name None custom_name None
            custom_model_args [] g self =
    (inl (Exception AttributeError msg), self, []).
Proof.
  intros Hd.
  unfold resolve, method_of, bind, lift, raise. cbn [find]. rewrite Hd.
  destruct (is_category d); cbn [negb]; eexists; reflexivity.
Qed.

Lemma dtype_of_single name X y :
  pd.labelled name (columns X) = [y] -> dtype_of name X = inr (cdtype y).
Proof.
  intros H. unfold dtype_of, pd.getitem. rewrite H. reflexivity.
Qed.

(** C1, where the code departs from it.  When [fit] is given no adjustment,
    it keeps no model for the cause and keeps the cause column itself as its
    error series.  But [generate] then finds no model to call: with no
    argument at all it returns no table, and it raises an AttributeError
    when it comes to the cause, instead of leaving the column at its raw
    values.  Column labels are distinct.  (When cause and effect are one
    and the same column, the working table holds that column twice and the
    error series is assigned to it item by item, by row label: a row label
    that is missing then makes [generate] raise before it comes to the
    cause.) *)
Theorem generate_without_adjustments_raises
        (X : frame) (cause effect : string) (adjustments : option array_like)
        (model_cause model_effect : option estimator)
        (self self1 : CausalDataGenerator) (t : list event) (a : fitted)
        (cause_model_args effect_model_args : option (list value)) :
  fit (DataFrame X) cause effect adjustments model_cause model_effect self
  = (inr tt, self1, t) ->
  attributes self1 = Some a ->
  _adjustments a = [] ->
  NoDup (pd.labels X) ->
  model_cause_ a = None /\
  pd.getitem cause X = inr (error_cause_ a) /\
  exists e t',
    generate NoDict NoDict None cause_model_args None effect_model_args self1
    = (inl e, self1, t') /\
    (cause <> effect -> eclass e = AttributeError).
Proof.
  intros H Ha Hadj Hnd. apply fit_ok_inv in H.
  destruct H as [df [adjs [m_c [e_c [m_e [e_e [tc [te H]]]]]]]].
  destruct H as [Hchk [Hc [He [-> _]]]].
  cbn [attributes] in Ha. injection Ha as <-. cbn [_adjustments] in Hadj.
  subst adjs.
  apply fit_checks_ok_inv in Hchk. cbn [fst snd] in Hchk.
  destruct Hchk as [EX _]. injection EX as <-.
  apply fit_cause_ok_inv in Hc.
  destruct Hc as [[_ [-> Hgc]]|[Hne _]]; [|contradiction].
  apply fit_effect_ok_inv in He.
  destruct He as [Xe [ye [re [_ [Eye [-> [_ _]]]]]]].
  cbn [kept_model_cause model_cause_ error_cause_].
  split; [reflexivity|]. split; [exact Hgc|].
  pose proof (getitem_inv _ _ _ Hgc) as Eec.
  unfold pd.labels in Hnd.
  destruct (labelled_nodup cause (columns X) Hnd) as [E|[yc Eyc]].
  { unfold pd.getitem in Hgc. rewrite E in Hgc. discriminate. }
  rewrite Eyc in Eec. subst e_c.
  set (a := Fitted X cause effect [] None m_e (Frame (index X) [yc])
                   (Frame (index X) [Col effect other re])).
  set (self1 := Self (_random_state self) (Some a)).
  rewrite (generate_plain a); [|reflexivity].
  pose proof (keeps_initial_data a [] self1) as K.
  destruct (initial_data a [] self1) as [[[e|g] s] ti] eqn:Ei;
    cbn [fst snd] in K; subst s.
  - exists e, ti. split; [apply bind_raise; exact Ei|].
    intros Hce. exfalso.
    assert (H0 : pd.getitem_list (names a) (_X a)
                 = inr (Frame (index X) [yc; ye])).
    { unfold names, pd.getitem_list. cbn [_cause _effect _adjustments _X a].
      cbn [pd.take_labels]. rewrite Eyc, Eye. reflexivity. }
    pose proof (labelled_single_name _ _ _ Eyc) as Nc.
    pose proof (labelled_single_name _ _ _ Eye) as Ne.
    assert (Hl : NoDup [cause; effect]).
    { constructor; [intros [F|[]]; apply Hce; symmetry; exact F|].
      constructor; [intros []|constructor]. }
    assert (H1 : pd.setitem_item cause (Frame (index X) [yc])
                   (Frame (index X) [yc; ye])
                 = inr (Frame (index X)
                          (pd.put_column cause (cdtype yc) (cells yc)
                                         [yc; ye]))).
    { apply (setitem_item_series cause (Frame (index X) [yc]) yc
               (Frame (index X) [yc; ye]) eq_refl eq_refl).
      apply duplicated_nodup. unfold pd.labels. cbn [columns map].
      rewrite Nc, Ne. exact Hl. }
    assert (H2 : pd.setitem_item effect
                   (Frame (index X) [Col effect other re])
                   (Frame (index X)
                      (pd.put_column cause (cdtype yc) (cells yc) [yc; ye]))
                 = inr (Frame (index X)
                          (pd.put_column effect other re
                             (pd.put_column cause (cdtype yc) (cells yc)
                                            [yc; ye])))).
    { apply (setitem_item_series effect
               (Frame (index X) [Col effect other re]) (Col effect other re)
               (Frame (index X)
                  (pd.put_column cause (cdtype yc) (cells yc) [yc; ye]))
               eq_refl eq_refl).
      apply duplicated_nodup. unfold pd.labels. cbn [columns].
      rewrite put_column_labels; cbn [map]; rewrite Nc, Ne;
        [exact Hl|left; reflexivity]. }
    pose proof (initial_data_run a _ _ _ self1 H0 H1 H2) as Hi.
    rewrite Hi in Ei. discriminate.
  - destruct (resolve_without_model a (_cause a) (_adjustments a) "model_cause"
                "cause_model" cause_model_args g
                (cdtype yc) self1 (dtype_of_single _ _ _ Eyc)) as [msg Hr].
    exists (Exception AttributeError msg). eexists.
    split; [|reflexivity].
    eapply bind_then; [exact Ei|].
    apply bind_raise. exact Hr.
Qed.





(** ** [fit] and the instance *)

Lemma run_keeps {A} (m : M A) self r self1 t :
  keeps_self m -> m self = (r, self1, t) -> self1 = self.
Proof. intros K H. specialize (K self). rewrite H in K. exact K. Qed.

Lemma emits_make_model_no_write X y name model :
  emits (fun ev => ev <> AttributesWritten) (_make_model X y name model).
Proof.
  apply (emits_weaken (fun ev => ev = Trained name X y \/ ev = Predicted name X));
    [|apply emits_make_model].
  intros ev [->| ->]; discriminate.
Qed.

Lemma emits_fit_cause_no_write X cause adjs mc :
  emits (fun ev => ev <> AttributesWritten) (fit_cause X cause adjs mc).
Proof.
  eapply emits_weaken; [|apply emits_fit_cause].
  intros ev [Xa [y [_ [_ [->| ->]]]]]; discriminate.
Qed.

Lemma emits_fit_effect_no_write X cause effect adjs me :
  emits (fun ev => ev <> AttributesWritten) (fit_effect X cause effect adjs me).
Proof.
  eapply emits_weaken; [|apply emits_fit_effect].
  intros ev [Xa [y [_ [_ [->| ->]]]]]; discriminate.
Qed.

(** X1.  A call of [fit] that raises, at whatever point (a check, a column
    that is missing, the training of a model, the computation of the
    residuals), has written no attribute: the instance keeps its random
    stream and, when it was fitted before, still holds the table, the names
    and the error series of that fit.  When the caller gave no estimator,
    the instance is exactly as it was.  (An estimator is trained in place:
    the models of an earlier fit are the caller's objects, and a failing
    call that was given them again may have trained them again.) *)
Theorem fit_failure_leaves_instance
        (X : X_arg) (cause effect : string) (adjustments : option array_like)
        (model_cause model_effect : option estimator)
        (self self1 : CausalDataGenerator) (e : exn) (t : list event) :
  fit X cause effect adjustments model_cause model_effect self
  = (inl e, self1, t) ->
  data_of self1 = data_of self /\
  Forall (fun ev => ev <> AttributesWritten) t /\
  (model_cause = None -> model_effect = None -> self1 = self).
Proof.
  intros H.
  assert (G : self1 = self /\ Forall (fun ev => ev <> AttributesWritten) t);
    [|destruct G as [-> G]; auto].
  unfold fit in H.
  apply bind_inv in H.
  destruct H as [[e' [H _]]|[Xv [s1 [t1 [t2 [Hchk [H ->]]]]]]].
  { split; [exact (run_keeps _ _ _ _ _ (keeps_fit_checks _ _ _ _ _ _) H)|].
    exact (emits_fit_checks _ _ _ _ _ _ _ _ _ _ _ H). }
  pose proof (run_keeps _ _ _ _ _ (keeps_fit_checks _ _ _ _ _ _) Hchk) as ->.
  pose proof (emits_fit_checks (fun ev => ev <> AttributesWritten)
                _ _ _ _ _ _ _ _ _ _ Hchk) as F1.
  cbv zeta in H. apply bind_inv in H.
  destruct H as [[e' [H _]]|[mc [s2 [t3 [t4 [Hc [H ->]]]]]]].
  { split; [exact (run_keeps _ _ _ _ _ (keeps_fit_cause _ _ _ _) H)|].
    apply Forall_app. split; [exact F1|].
    exact (emits_fit_cause_no_write _ _ _ _ _ _ _ _ H). }
  pose proof (run_keeps _ _ _ _ _ (keeps_fit_cause _ _ _ _) Hc) as ->.
  pose proof (emits_fit_cause_no_write _ _ _ _ _ _ _ _ Hc) as F2.
  apply bind_inv in H.
  destruct H as [[e' [H _]]|[me [s3 [t5 [t6 [He [H ->]]]]]]].
  { split; [exact (run_keeps _ _ _ _ _ (keeps_fit_effect _ _ _ _ _) H)|].
    apply Forall_app. split; [exact F1|].
    apply Forall_app. split; [exact F2|].
    exact (emits_fit_effect_no_write _ _ _ _ _ _ _ _ _ H). }
  unfold store in H. discriminate H.
Qed.

(** X2.  A call of [fit] that returns has written the attributes once, as
    its last step, after both models were trained: the instance keeps its
    random stream and holds the table, the two names and the flat sequence
    of the adjustments it was given. *)
Theorem fit_success_writes_once
        (X : X_arg) (cause effect : string) (adjustments : option array_like)
        (model_cause model_effect : option estimator)
        (self self1 : CausalDataGenerator) (t : list event) :
  fit X cause effect adjustments model_cause model_effect self
  = (inr tt, self1, t) ->
  exists a t0,
    self1 = Self (_random_state self) (Some a) /\
    X = DataFrame (_X a) /\ _cause a = cause /\ _effect a = effect /\
    match adjustments with
    | None => _adjustments a = []
    | Some arr => check_array_flat arr = inr (_adjustments a)
    end /\
    t = t0 ++ [AttributesWritten] /\
    Forall (fun ev => ev <> AttributesWritten) t0.
Proof.
  intros H. apply fit_ok_inv in H.
  destruct H as [df [adjs [m_c [e_c [m_e [e_e [tc [te H]]]]]]]].
  destruct H as [Hchk [Hc [He [-> ->]]]].
  apply fit_checks_ok_inv in Hchk. cbn [fst snd] in Hchk.
  destruct Hchk as [EX [_ [_ [_ [Hadj _]]]]].
  exists (Fitted df cause effect adjs
                 (kept_model_cause model_cause model_effect m_c m_e)
                 m_e e_c e_e), (tc ++ te).
  cbn [_X _cause _effect _adjustments].
  split; [reflexivity|]. split; [exact EX|].
  split; [reflexivity|]. split; [reflexivity|].
  split; [exact Hadj|]. split; [rewrite app_assoc; reflexivity|].
  apply Forall_app. split.
  - exact (emits_fit_cause_no_write _ _ _ _ _ _ _ _ Hc).
  - exact (emits_fit_effect_no_write _ _ _ _ _ _ _ _ _ He).
Qed.

(** *** Steps that do not look at the instance *)

Lemma ignores_ret {A} (a : A) : ignores_self (ret a).
Proof. exists (inr a), []. reflexivity. Qed.

Lemma ignores_raise {A} c msg : ignores_self (@raise _ A c msg).
Proof. exists (inl (Exception c msg)), []. reflexivity. Qed.

Lemma ignores_lift {A} (r : result A) : ignores_self (lift r).
Proof. exists r, []. reflexivity. Qed.

Lemma ignores_emit ev : ignores_self (emit ev).
Proof. exists (inr tt), [ev]. reflexivity. Qed.

Lemma ignores_bind {A B} (m : M A) (f : A -> M B) :
  ignores_self m -> (forall a, ignores_self (f a)) -> ignores_self (bind m f).
Proof.
  intros [r [t Hm]] Hf. destruct r as [e|a].
  - exists (inl e), t. intros self. unfold bind. rewrite Hm. reflexivity.
  - destruct (Hf a) as [r2 [t2 Hf']]. exists r2, (t ++ t2).
    intros self. unfold bind. rewrite Hm, Hf'. reflexivity.
Qed.

Ltac ignores :=
  repeat first
    [ apply ignores_ret | apply ignores_raise | apply ignores_lift
    | apply ignores_emit
    | apply ignores_bind; [|intros ?]
    | match goal with
      | |- ignores_self (match ?x with _ => _ end) => destruct x
      | |- ignores_self (if ?x then _ else _) => destruct x
      end ].

Lemma ignores_is_sklearn_estimator e c :
  ignores_self (_is_sklearn_estimator e c).
Proof. unfold _is_sklearn_estimator. ignores. Qed.

Lemma ignores_make_model X y name model :
  ignores_self (_make_model X y name model).
Proof.
  unfold _make_model. apply ignores_bind.
  - destruct model; ignores.
  - intros m. ignores.
Qed.

Lemma ignores_fit_checks X cause effect adjustments mc me :
  ignores_self (fit_checks X cause effect adjustments mc me).
Proof.
  unfold fit_checks.
  apply ignores_bind; [ignores|]. intros X'.
  apply ignores_bind; [ignores|]. intros _.
  apply ignores_bind; [ignores|]. intros _.
  apply ignores_bind; [ignores|]. intros _.
  apply ignores_bind; [ignores|]. intros adjs.
  apply ignores_bind.
  { destruct mc; [|ignores]. apply ignores_bind; [ignores|]. intros d.
    apply ignores_is_sklearn_estimator. }
  intros _. apply ignores_bind.
  { destruct me; [|ignores]. apply ignores_bind; [ignores|]. intros d.
    apply ignores_is_sklearn_estimator. }
  intros _. ignores.
Qed.

Lemma ignores_fit_cause X cause adjs mc :
  ignores_self (fit_cause X cause adjs mc).
Proof.
  unfold fit_cause. destruct (Nat.eqb _ 0); [ignores|].
  apply ignores_bind; [ignores|]. intros Xa.
  apply ignores_bind; [ignores|]. intros y.
  apply ignores_bind; [apply ignores_make_model|]. intros mr. ignores.
Qed.

Lemma ignores_fit_effect X cause effect adjs me :
  ignores_self (fit_effect X cause effect adjs me).
Proof.
  unfold fit_effect.
  apply ignores_bind; [ignores|]. intros Xe.
  apply ignores_bind; [ignores|]. intros y. apply ignores_make_model.
Qed.

(** X3.  What [fit] does depends on its arguments alone, never on the
    instance it is called on: either it raises the same error on every
    instance and leaves each as it was, or it returns on every instance,
    with the same trace, and stores the same attributes, keeping the random
    stream of the instance.  Fitting again is fitting afresh. *)
Theorem fit_ignores_instance
        (X : X_arg) (cause effect : string) (adjustments : option array_like)
        (model_cause model_effect : option estimator) :
  (exists e t,
      forall self : CausalDataGenerator,
        fit X cause effect adjustments model_cause model_effect self
        = (inl e, self, t)) \/
  (exists a t,
      forall self : CausalDataGenerator,
        fit X cause effect adjustments model_cause model_effect self
        = (inr tt, Self (_random_state self) (Some a), t)).
Proof.
  unfold fit.
  destruct (ignores_fit_checks X cause effect adjustments
              model_cause model_effect) as [[e|Xv] [t1 H1]].
  { left. exists e, t1. intros self. unfold bind. rewrite H1. reflexivity. }
  cbv zeta.
  destruct (ignores_fit_cause (fst Xv) cause (snd Xv) model_cause)
    as [[e|mc] [t2 H2]].
  { left. exists e, (t1 ++ t2). intros self. unfold bind.
    rewrite H1, H2. reflexivity. }
  destruct (ignores_fit_effect (fst Xv) cause effect (snd Xv) model_effect)
    as [[e|me] [t3 H3]].
  { left. exists e, (t1 ++ t2 ++ t3). intros self. unfold bind.
    rewrite H1, H2, H3. reflexivity. }
  right. eexists. eexists. intros self. unfold bind.
  rewrite H1, H2, H3. unfold store. reflexivity.
Qed.

(** ** [generate] and the instance *)

Lemma check_data_dict_unfitted d name self :
  attributes self = None ->
  _check_data_dict d name self = (inr [], self, []) \/
  exists e, _check_data_dict d name self = (inl e, self, []) /\
            (eclass e = TypeError \/ eclass e = AttributeError).
Proof.
  intros Hn. destruct d as [| |items]; cbn [_check_data_dict].
  - left. reflexivity.
  - right. eexists. split; [reflexivity|left; reflexivity].
  - destruct items as [|[[name'|repr] v] rest]; cbn [_check_data_dict_items].
    + left. reflexivity.
    + right. unfold bind, attrs. rewrite Hn. eexists.
      split; [reflexivity|right; reflexivity].
    + right. eexists. split; [reflexivity|left; reflexivity].
Qed.

(** X4.  On an instance that was never fitted, [generate] returns no table,
    whatever its arguments: it raises a TypeError (an argument of the wrong
    type) or an AttributeError (the first fitted attribute it reads does not
    exist), and nothing else has happened. *)
Theorem generate_unfitted_raises
        (interv_endog interv_exog : dict_arg)
        (cause_model effect_model : option callable_arg)
        (cause_model_args effect_model_args : option (list value))
        (self : CausalDataGenerator) :
  attributes self = None ->
  exists e,
    generate interv_endog interv_exog cause_model cause_model_args
             effect_model effect_model_args self = (inl e, self, []) /\
    (eclass e = TypeError \/ eclass e = AttributeError).
Proof.
  intros Hn. unfold generate.
  destruct (check_data_dict_unfitted interv_endog "interv_endog" self Hn)
    as [E|[e [E C]]].
  2:{ exists e. split; [apply bind_raise; exact E|exact C]. }
  rewrite (bind_quiet _ _ _ _ E).
  destruct (check_data_dict_unfitted interv_exog "interv_exog" self Hn)
    as [E'|[e [E' C]]].
  2:{ exists e. split; [apply bind_raise; exact E'|exact C]. }
  rewrite (bind_quiet _ _ _ _ E').
  destruct cause_model as [[|f]|]; cbn [check_callable].
  { eexists. split; [reflexivity|left; reflexivity]. }
  - rewrite (bind_quiet _ _ self (Some f)); [|reflexivity].
    destruct effect_model as [[|f']|]; cbn [check_callable].
    { eexists. split; [reflexivity|left; reflexivity]. }
    + rewrite (bind_quiet _ _ self (Some f')); [|reflexivity].
      unfold bind, attrs. rewrite Hn. eexists.
      split; [reflexivity|right; reflexivity].
    + rewrite (bind_quiet _ _ self None); [|reflexivity].
      unfold bind, attrs. rewrite Hn. eexists.
      split; [reflexivity|right; reflexivity].
  - rewrite (bind_quiet _ _ self None); [|reflexivity].
    destruct effect_model as [[|f']|]; cbn [check_callable].
    { eexists. split; [reflexivity|left; reflexivity]. }
    + rewrite (bind_quiet _ _ self (Some f')); [|reflexivity].
      unfold bind, attrs. rewrite Hn. eexists.
      split; [reflexivity|right; reflexivity].
    + rewrite (bind_quiet _ _ self None); [|reflexivity].
      unfold bind, attrs. rewrite Hn. eexists.
      split; [reflexivity|right; reflexivity].
Qed.

(** *** Steps that touch the random stream only *)

Lemma draws_only_of_keeps {A} (m : M A) : keeps_self m -> draws_only m.
Proof.
  intros K self r self1 t H. rewrite (run_keeps _ _ _ _ _ K H). auto.
Qed.

Lemma draws_only_bind {A B} (m : M A) (f : A -> M B) :
  draws_only m -> (forall a, draws_only (f a)) -> draws_only (bind m f).
Proof.
  intros Hm Hf self r self2 t H. apply bind_inv in H.
  destruct H as [[e [H _]]|[a [s1 [t1 [t2 [H1 [H2 ->]]]]]]].
  - exact (Hm _ _ _ _ H).
  - destruct (Hm _ _ _ _ H1) as [A1 D1]. destruct (Hf a _ _ _ _ H2) as [A2 D2].
    split; [congruence|]. intros Hno.
    assert (s1 = self) as ->.
    { apply D1. intros name p Hin. apply (Hno name p).
      apply in_or_app. left. exact Hin. }
    apply D2. intros name p Hin. apply (Hno name p).
    apply in_or_app. right. exact Hin.
Qed.

Lemma draws_only_draw name classes p : draws_only (draw name classes p).
Proof.
  intros self r self1 t H. unfold draw in H.
  destruct (choice (_random_state self) classes p) as [r' rs].
  injection H as _ <- <-. split; [reflexivity|].
  intros Hno. exfalso. apply (Hno name p). left. reflexivity.
Qed.

Lemma draws_only_sample name m proba : draws_only (sample name m proba).
Proof.
  induction proba as [|p proba IH]; cbn [sample].
  - apply draws_only_of_keeps. apply keeps_ret.
  - apply draws_only_bind; [apply draws_only_draw|]. intros v.
    apply draws_only_bind; [exact IH|]. intros predicted.
    apply draws_only_of_keeps. apply keeps_ret.
Qed.

Lemma draws_only_resolve a target features model_name model_ custom_name
      custom_model custom_model_args interv_endog generated :
  draws_only (resolve a target features model_name model_ custom_name
                      custom_model custom_model_args interv_endog generated).
Proof.
  unfold resolve.
  destruct (find _ interv_endog);
    [apply draws_only_of_keeps; apply keeps_assign|].
  destruct custom_model as [f|].
  - apply draws_only_of_keeps.
    apply keeps_bind; [keeps|]. intros predicted.
    apply keeps_bind; [apply keeps_assign|]. intros g.
    apply keeps_bind; [keeps|]. intros d.
    destruct (is_category d); [apply keeps_assign_categorical|keeps].
  - apply draws_only_bind; [apply draws_only_of_keeps; keeps|]. intros d.
    destruct (negb (is_category d)).
    + apply draws_only_of_keeps.
      apply keeps_bind; [unfold method_of; keeps|]. intros m.
      apply keeps_bind; [keeps|]. intros Xf.
      apply keeps_bind; [keeps|]. intros _.
      apply keeps_bind; [keeps|]. intros p.
      apply keeps_assign_iadd.
    + apply draws_only_bind;
        [apply draws_only_of_keeps; unfold method_of; keeps|]. intros m.
      apply draws_only_bind; [apply draws_only_of_keeps; keeps|]. intros Xf.
      apply draws_only_bind; [apply draws_only_of_keeps; keeps|]. intros _.
      apply draws_only_bind; [apply draws_only_of_keeps; keeps|]. intros proba.
      apply draws_only_bind; [apply draws_only_sample|]. intros predicted.
      apply draws_only_bind;
        [apply draws_only_of_keeps; apply keeps_assign|]. intros g.
      apply draws_only_of_keeps. apply keeps_assign_categorical.
Qed.

Lemma draws_only_generate interv_endog interv_exog cause_model
      cause_model_args effect_model effect_model_args :
  draws_only (generate interv_endog interv_exog cause_model cause_model_args
                       effect_model effect_model_args).
Proof.
  unfold generate.
  apply draws_only_bind;
    [apply draws_only_of_keeps; apply keeps_check_data_dict|]. intros endog.
  apply draws_only_bind;
    [apply draws_only_of_keeps; apply keeps_check_data_dict|]. intros exog.
  apply draws_only_bind;
    [apply draws_only_of_keeps; apply keeps_check_callable|]. intros cm.
  apply draws_only_bind;
    [apply draws_only_of_keeps; apply keeps_check_callable|]. intros em.
  apply draws_only_bind; [apply draws_only_of_keeps; apply keeps_attrs|].
  intros a.
  apply draws_only_bind;
    [apply draws_only_of_keeps; apply keeps_initial_data|]. intros g.
  apply draws_only_bind; [apply draws_only_resolve|]. intros g1.
  apply draws_only_bind; [apply draws_only_resolve|]. intros g2.
  apply draws_only_of_keeps. apply keeps_lift.
Qed.

Lemma emits_resolve_not_of_fit a target features model_name model_ custom_name
      custom_model custom_model_args interv_endog generated :
  emits (fun ev => ~ of_fit ev)
        (resolve a target features model_name model_ custom_name
                 custom_model custom_model_args interv_endog generated).
Proof.
  assert (W : forall name, ~ of_fit (ColumnWritten name)) by (intros n []).
  unfold resolve.
  destruct (find _ interv_endog); [apply emits_assign; auto|].
  destruct custom_model as [f|].
  - apply emits_bind.
    + apply emits_try_except; [|intros e; emits].
      apply emits_bind; [emits|]. intros Xf.
      apply emits_bind; [emits|]. intros err.
      apply emits_bind; [apply emits_emit; intros []|]. intros _. emits.
    + intros predicted.
      apply emits_bind; [apply emits_assign; auto|]. intros g.
      apply emits_bind; [emits|]. intros d.
      destruct (is_category d); [apply emits_assign_categorical; auto|emits].
  - apply emits_bind; [emits|]. intros d.
    destruct (negb (is_category d)).
    + apply emits_bind; [unfold method_of; emits|]. intros m.
      apply emits_bind; [emits|]. intros Xf.
      apply emits_bind; [apply emits_emit; intros []|]. intros _.
      apply emits_bind; [emits|]. intros p.
      apply emits_assign_iadd; auto.
    + apply emits_bind; [unfold method_of; emits|]. intros m.
      apply emits_bind; [emits|]. intros Xf.
      apply emits_bind; [apply emits_emit; intros []|]. intros _.
      apply emits_bind; [emits|]. intros proba.
      apply emits_bind; [apply emits_sample; intros p []|]. intros predicted.
      apply emits_bind; [apply emits_assign; auto|]. intros g.
      apply emits_assign_categorical; auto.
Qed.

Lemma emits_generate_not_of_fit interv_endog interv_exog cause_model
      cause_model_args effect_model effect_model_args :
  emits (fun ev => ~ of_fit ev)
        (generate interv_endog interv_exog cause_model cause_model_args
                  effect_model effect_model_args).
Proof.
  unfold generate.
  apply emits_bind; [apply emits_silent; apply check_data_dict_silent|].
  intros endog.
  apply emits_bind; [apply emits_silent; apply check_data_dict_silent|].
  intros exog.
  apply emits_bind; [apply emits_silent; apply silent_check_callable|].
  intros cm.
  apply emits_bind; [apply emits_silent; apply silent_check_callable|].
  intros em.
  apply emits_bind; [emits|]. intros a.
  apply emits_bind.
  { unfold initial_data.
    apply emits_bind; [emits|]. intros g0.
    apply emits_bind; [apply emits_emit; intros []|]. intros _.
    apply emits_bind; [apply emits_assign_item; intros []|]. intros g1.
    apply emits_bind; [apply emits_assign_item; intros []|]. intros g2.
    apply emits_update_interventions. intros name []. }
  intros g.
  apply emits_bind; [apply emits_resolve_not_of_fit|]. intros g1.
  apply emits_bind; [apply emits_resolve_not_of_fit|]. intros g2.
  emits.
Qed.

(** X5.  Whatever its arguments and whether it returns or raises,
    [generate] never touches what [fit] stored: the attributes of the
    instance are those it found, no model is trained and no attribute is
    written.  All it may change is the random stream, and only by drawing:
    a call that draws nothing leaves the instance as it was. *)
Theorem generate_never_refits
        (interv_endog interv_exog : dict_arg)
        (cause_model effect_model : option callable_arg)
        (cause_model_args effect_model_args : option (list value))
        (self self1 : CausalDataGenerator) (r : result frame)
        (t : list event) :
  generate interv_endog interv_exog cause_model cause_model_args
           effect_model effect_model_args self = (r, self1, t) ->
  attributes self1 = attributes self /\
  ((forall name p, ~ In (Drawn name p) t) -> self1 = self) /\
  Forall (fun ev => ~ of_fit ev) t.
Proof.
  intros H.
  destruct (draws_only_generate _ _ _ _ _ _ _ _ _ _ H) as [A D].
  split; [exact A|]. split; [exact D|].
  exact (emits_generate_not_of_fit _ _ _ _ _ _ _ _ _ _ H).
Qed.

(** ** More on the checks and the trainings of [fit] *)

Lemma take_labels_missing names cols name :
  In name names -> ~ In name (map cname cols) ->
  exists n, pd.take_labels names cols
            = inl (Exception KeyError (n ++ " not in index")).
Proof.
  intros Hin Hno. induction names as [|n0 names IH]; [destruct Hin|].
  cbn [pd.take_labels].
  destruct (pd.labelled n0 cols) as [|c cs] eqn:El.
  { exists n0. reflexivity. }
  destruct Hin as [->|Hin].
  - exfalso. apply Hno.
    assert (Hc : In c (pd.labelled name cols)) by (rewrite El; left; reflexivity).
    apply in_labelled in Hc. destruct Hc as [Hc <-]. apply in_map. exact Hc.
  - destruct (IH Hin) as [n ->]. exists n. reflexivity.
Qed.

(** X6.  An adjustment that is no column of the table is not found by a
    check of its own: when the checks of [fit] have passed, the selection of
    the adjustment columns raises a KeyError (where a missing cause or
    effect is a ValueError), before any model is trained, and the instance
    is as it was. *)
Theorem fit_missing_adjustment_raises_key_error
        (X : X_arg) (cause effect : string) (adjustments : option array_like)
        (model_cause model_effect : option estimator)
        (self self1 : CausalDataGenerator) (t0 : list event)
        (df : frame) (names : list string) (name : string) :
  fit_checks X cause effect adjustments model_cause model_effect self
  = (inr (df, names), self1, t0) ->
  In name names ->
  ~ In name (pd.labels df) ->
  exists msg,
    fit X cause effect adjustments model_cause model_effect self
    = (inl (Exception KeyError msg), self, []).
Proof.
  intros Hchk Hin Hno.
  pose proof (fit_checks_ok_inv _ _ _ _ _ _ _ _ _ _ Hchk)
    as [_ [_ [_ [_ [_ [-> ->]]]]]].
  destruct (take_labels_missing names (columns df) name Hin Hno) as [n En].
  exists (n ++ " not in index")%string.
  unfold fit. rewrite (bind_quiet _ _ _ _ Hchk). cbv zeta. cbn [fst snd].
  apply bind_raise. unfold fit_cause.
  destruct names as [|n0 names]; [destruct Hin|].
  cbn [List.length Nat.eqb].
  apply bind_raise. unfold lift, pd.getitem_list. rewrite En. reflexivity.
Qed.

Lemma fit_checks_prefix df cause effect adjustments names mc me self :
  check_array_frame df = inr tt ->
  pd.contains cause df = true ->
  pd.contains effect df = true ->
  match adjustments with
  | None => names = []
  | Some arr => check_array_flat arr = inr names
  end ->
  fit_checks (DataFrame df) cause effect adjustments mc me self =
  bind (match mc with
        | Some model_cause =>
            bind (lift (dtype_of cause df))
                 (fun d => _is_sklearn_estimator model_cause (is_category d))
        | None => ret tt
        end)
       (fun _ =>
          bind (match me with
                | Some model_effect =>
                    bind (lift (dtype_of effect df))
                         (fun d => _is_sklearn_estimator model_effect
                                                         (is_category d))
                | None => ret tt
                end)
               (fun _ => ret (df, names))) self.
Proof.
  intros Hf Hc He Ha. unfold fit_checks.
  rewrite (bind_quiet _ _ self df); [|reflexivity].
  rewrite (bind_quiet _ _ self tt); [|unfold lift; rewrite Hf; reflexivity].
  rewrite (bind_quiet _ _ self tt); [|rewrite Hc; reflexivity].
  rewrite (bind_quiet _ _ self tt); [|rewrite He; reflexivity].
  rewrite (bind_quiet _ _ self names); [reflexivity|].
  destruct adjustments as [arr|]; [unfold lift; rewrite Ha|subst names];
    reflexivity.
Qed.

(** X7.  An estimator given for the cause is checked against the kind of
    the cause column before anything is trained, also when there is no
    adjustment and the estimator would not be used: a regressor for a
    categorical cause and a classifier for a cause that is not categorical
    are refused with a TypeError, a classifier without [predict_proba] for
    a categorical cause with a RuntimeError; the instance is as it was. *)
Theorem fit_rejects_model_cause_of_wrong_kind
        (df : frame) (cause effect : string) (adjustments : option array_like)
        (names : list string) (est : estimator)
        (model_effect : option estimator) (d : dtype)
        (self : CausalDataGenerator) :
  check_array_frame df = inr tt ->
  pd.contains cause df = true ->
  pd.contains effect df = true ->
  match adjustments with
  | None => names = []
  | Some arr => check_array_flat arr = inr names
  end ->
  dtype_of cause df = inr d ->
  let outcome :=
    fit (DataFrame df) cause effect adjustments (Some est) model_effect self in
  (is_category d = true -> is_regressor est = true ->
   outcome =
   (inl (Exception TypeError
           "The Object variable is categorical but the estimator is a regressor."),
    self, [])) /\
  (is_category d = false -> is_classifier est = true ->
   outcome =
   (inl (Exception TypeError
           "The Object variable is not categorical but the estimator is a classifier."),
    self, [])) /\
  (is_category d = true -> is_regressor est = false ->
   has_predict_proba est = false ->
   outcome =
   (inl (Exception RuntimeError
           "Classification models shall have predict_proba()."),
    self, [])).
Proof.
  intros Hf Hc He Ha Hd outcome. subst outcome.
  assert (K : forall e,
             _is_sklearn_estimator est (is_category d) self = (inl e, self, []) ->
             fit (DataFrame df) cause effect adjustments (Some est)
                 model_effect self = (inl e, self, [])).
  { intros e E. unfold fit. apply bind_raise.
    rewrite (fit_checks_prefix df cause effect adjustments names _ _ self
               Hf Hc He Ha).
    apply bind_raise.
    rewrite (bind_quiet _ _ self d); [exact E|].
    unfold lift. rewrite Hd. reflexivity. }
  split; [|split].
  - intros Hcat Hreg. apply K. unfold _is_sklearn_estimator.
    rewrite Hcat, Hreg. reflexivity.
  - intros Hcat Hcls. apply K. unfold _is_sklearn_estimator.
    rewrite Hcat, Hcls. reflexivity.
  - intros Hcat Hreg Hpp. apply K. unfold _is_sklearn_estimator.
    rewrite Hcat, Hreg, Hpp. reflexivity.
Qed.

Lemma is_sklearn_estimator_ok_inv est c self u self1 t :
  _is_sklearn_estimator est c self = (inr u, self1, t) ->
  if c then is_regressor est = false /\ has_predict_proba est = true
  else is_classifier est = false.
Proof.
  unfold _is_sklearn_estimator, bind, raise, ret.
  destruct c; cbn [negb andb].
  - destruct (is_regressor est); [discriminate|].
    destruct (has_predict_proba est); [auto|discriminate].
  - destruct (is_classifier est); [discriminate|auto].
Qed.

Lemma checked_estimator_ok_inv model target df self u self1 t :
  match model with
  | Some est =>
      bind (lift (dtype_of target df))
           (fun d => _is_sklearn_estimator est (is_category d))
  | None => ret tt
  end self = (inr u, self1, t) ->
  forall est,
    model = Some est ->
    exists d,
      dtype_of target df = inr d /\
      if is_category d
      then is_regressor est = false /\ has_predict_proba est = true
      else is_classifier est = false.
Proof.
  intros H est ->. bind_step H as d Hd.
  apply lift_run in Hd. destruct Hd as [Hd _].
  exists d. split; [exact Hd|].
  exact (is_sklearn_estimator_ok_inv _ _ _ _ _ _ H).
Qed.

(** X8.  After a call of [fit] that returns, an estimator the caller gave
    is of the kind its column asks for: for a categorical column it is no
    regressor and has [predict_proba], for a column that is not categorical
    it is no classifier.  This holds for the cause and for the effect. *)
Theorem fit_accepts_only_matching_estimators
        (X : X_arg) (cause effect : string) (adjustments : option array_like)
        (model_cause model_effect : option estimator)
        (self self1 : CausalDataGenerator) (t : list event) :
  fit X cause effect adjustments model_cause model_effect self
  = (inr tt, self1, t) ->
  exists df,
    X = DataFrame df /\
    (forall est,
        model_cause = Some est ->
        exists d,
          dtype_of cause df = inr d /\
          if is_category d
          then is_regressor est = false /\ has_predict_proba est = true
          else is_classifier est = false) /\
    (forall est,
        model_effect = Some est ->
        exists d,
          dtype_of effect df = inr d /\
          if is_category d
          then is_regressor est = false /\ has_predict_proba est = true
          else is_classifier est = false).
Proof.
  intros H. apply fit_ok_inv in H.
  destruct H as [df [adjs [m_c [e_c [m_e [e_e [tc [te H]]]]]]]].
  destruct H as [Hchk _]. exists df.
  pose proof (fit_checks_ok_inv _ _ _ _ _ _ _ _ _ _ Hchk) as [EX _].
  cbn [fst] in EX. split; [exact EX|].
  unfold fit_checks in Hchk.
  bind_step Hchk as X' HX. bind_step Hchk as u1 H1. bind_step Hchk as u2 H2.
  bind_step Hchk as u3 H3. bind_step Hchk as adjs' H4.
  bind_step Hchk as u5 H5. bind_step Hchk as u6 H6.
  subst X. apply ret_run in HX. destruct HX as [-> _].
  apply ret_run in Hchk. destruct Hchk as [Hchk _]. injection Hchk as ->.
  split.
  - exact (checked_estimator_ok_inv _ _ _ _ _ _ _ H5).
  - exact (checked_estimator_ok_inv _ _ _ _ _ _ _ H6).
Qed.

(** The trace of a call of [_make_model] that returns: the training, then,
    for a target that is not categorical, the prediction on the training
    table. *)
Lemma make_model_ok_trace X y name model self m err self1 t :
  _make_model X y name model self = (inr (m, err), self1, t) ->
  exists sc,
    columns y = [sc] /\
    t = Trained name X y
        :: (if is_category (cdtype sc) then [] else [Predicted name X]).
Proof.
  intros H. unfold _make_model in H.
  bind_run H as m' s1 t1 t2 Hm.
  assert (T1 : t1 = [Trained name X y]).
  { destruct model as [est|].
    - unfold bind, emit in Hm.
      destruct (fit_ est X y); unfold raise, ret in Hm; [discriminate|].
      injection Hm as _ _ <-. reflexivity.
    - bind_run Hm as c s0 t3 t4 Hc. apply lift_run in Hc.
      destruct Hc as [_ [_ ->]].
      unfold bind, emit, lift in Hm. injection Hm as _ _ <-. reflexivity. }
  subst t1.
  bind_run H as sc s2 t3 t4 Hsc. apply lift_run in Hsc.
  destruct Hsc as [Hsc [_ ->]].
  unfold pd.as_series in Hsc.
  destruct (columns y) as [|sc' [|c l]] eqn:Ey; try discriminate.
  injection Hsc as <-. exists sc'. split; [reflexivity|].
  bind_run H as resid s3 t5 t6 Hres.
  bind_run H as err' s4 t7 t8 Herr.
  apply lift_run in Herr. destruct Herr as [_ [_ ->]].
  apply ret_run in H. destruct H as [_ [_ ->]].
  destruct (is_category (cdtype sc')).
  - apply ret_run in Hres. destruct Hres as [_ [_ ->]]. reflexivity.
  - unfold bind, emit, lift in Hres.
    destruct (predict m' X); [discriminate|].
    destruct (np.broadcast np.sub_cell (cells sc') l); [discriminate|].
    injection Hres as _ _ <-. reflexivity.
Qed.

(** X9.  A call of [fit] that returns has trained the model of the effect
    once, on the columns of the cause and of the adjustments, with the
    effect column as target; with adjustments it has first trained the
    model of the cause once, on the adjustment columns, with the cause
    column as target; without adjustments it has trained nothing for the
    cause, whether the caller gave an estimator for it or not.  After a
    training the model predicts once, on its training table, when its
    target is not categorical.  Nothing else happens before the attributes
    are written. *)
Theorem fit_trains_each_model_once
        (X : X_arg) (cause effect : string) (adjustments : option array_like)
        (model_cause model_effect : option estimator)
        (self self1 : CausalDataGenerator) (t : list event) :
  fit X cause effect adjustments model_cause model_effect self
  = (inr tt, self1, t) ->
  exists a Xe ye de tc,
    attributes self1 = Some a /\
    pd.getitem_list (cause :: _adjustments a) (_X a) = inr Xe /\
    pd.getitem effect (_X a) = inr ye /\
    dtype_of effect (_X a) = inr de /\
    t = tc
        ++ Trained "model_effect" Xe ye
        :: (if is_category de then [] else [Predicted "model_effect" Xe])
        ++ [AttributesWritten] /\
    (_adjustments a = [] -> tc = []) /\
    (_adjustments a <> [] ->
     exists Xa yc dc,
       pd.getitem_list (_adjustments a) (_X a) = inr Xa /\
       pd.getitem cause (_X a) = inr yc /\
       dtype_of cause (_X a) = inr dc /\
       tc = Trained "model_cause" Xa yc
            :: (if is_category dc then [] else [Predicted "model_cause" Xa])).
Proof.
  intros H. apply fit_ok_inv in H.
  destruct H as [df [adjs [m_c [e_c [m_e [e_e [tc [te H]]]]]]]].
  destruct H as [_ [Hc [He [-> ->]]]].
  unfold fit_effect in He.
  bind_run He as Xe s1 t1 t2 HXe. apply lift_run in HXe.
  destruct HXe as [HXe [-> ->]].
  bind_run He as ye s2 t3 t4 Hye. apply lift_run in Hye.
  destruct Hye as [Hye [-> ->]].
  apply make_model_ok_trace in He. destruct He as [sce [Ece ->]].
  pose proof (getitem_inv _ _ _ Hye) as Eye. rewrite Eye in Ece.
  cbn [columns] in Ece.
  exists (Fitted df cause effect adjs
                 (kept_model_cause model_cause model_effect m_c m_e)
                 m_e e_c e_e), Xe, ye, (cdtype sce), tc.
  cbn [attributes _X _adjustments app].
  split; [reflexivity|]. split; [exact HXe|]. split; [exact Hye|].
  split; [exact (dtype_of_single _ _ _ Ece)|].
  split; [reflexivity|].
  unfold fit_cause in Hc. split.
  - intros ->. cbn [List.length Nat.eqb] in Hc.
    bind_run Hc as y s3 t5 t6 Hy. apply lift_run in Hy.
    destruct Hy as [_ [_ ->]]. apply ret_run in Hc.
    destruct Hc as [_ [_ ->]]. reflexivity.
  - intros Hne. destruct adjs as [|n0 adjs]; [contradiction|].
    cbn [List.length Nat.eqb] in Hc.
    bind_run Hc as Xa s3 t5 t6 HXa. apply lift_run in HXa.
    destruct HXa as [HXa [-> ->]].
    bind_run Hc as yc s4 t7 t8 Hyc. apply lift_run in Hyc.
    destruct Hyc as [Hyc [-> ->]].
    bind_run Hc as mr s5 t9 t10 Hmr. destruct mr as [m err].
    apply ret_run in Hc. destruct Hc as [_ [_ ->]].
    apply make_model_ok_trace in Hmr. destruct Hmr as [scc [Ecc ->]].
    pose proof (getitem_inv _ _ _ Hyc) as Eyc. rewrite Eyc in Ecc.
    cbn [columns] in Ecc.
    exists Xa, yc, (cdtype scc).
    split; [exact HXa|]. split; [exact Hyc|].
    split; [exact (dtype_of_single _ _ _ Ecc)|].
    cbn [app]. rewrite app_nil_r. reflexivity.
Qed.

(** ** Custom mechanisms *)

(** A variable resolved by a custom mechanism: one call, on the feature
    columns and the current column of the variable. *)
Lemma resolve_custom_run a target features model_name model_ custom_name
      f custom_model_args interv_endog g self g' self1 t :
  find (fun kv => String.eqb (fst kv) target) interv_endog = None ->
  resolve a target features model_name model_ custom_name (Some f)
          custom_model_args interv_endog g self = (inr g', self1, t) ->
  exists Xf err vals w,
    pd.getitem_list features g = inr Xf /\
    pd.getitem target g = inr err /\
    f Xf err custom_model_args = inr vals /\
    self1 = self /\
    t = Called custom_name Xf err :: w /\
    Forall (fun ev => delegate ev = None) w.
Proof.
  intros Hf H. unfold resolve in H. rewrite Hf in H.
  bind_run H as predicted s1 t1 t2 Hp.
  unfold try_except, bind, lift, emit, raise in Hp.
  destruct (pd.getitem_list features g) as [e1|Xf]; [discriminate|].
  destruct (pd.getitem target g) as [e1|err]; [discriminate|].
  destruct (f Xf err custom_model_args) as [e1|vals] eqn:Ef; [discriminate|].
  cbn [app] in Hp. injection Hp as <- <- <-.
  bind_run H as g1 s2 t3 t4 Hg.
  apply assign_run in Hg. destruct Hg as [Hg [-> ->]].
  bind_run H as d s3 t5 t6 Hd. apply lift_run in Hd.
  destruct Hd as [_ [-> ->]].
  destruct (is_category d).
  - apply assign_categorical_run in H. destruct H as [H [-> ->]].
    exists Xf, err, vals, [ColumnWritten target; ColumnWritten target].
    repeat (split; [try reflexivity; auto|]).
    repeat constructor.
  - apply ret_run in H. destruct H as [-> [-> ->]].
    exists Xf, err, vals, [ColumnWritten target].
    repeat (split; [try reflexivity; auto|]).
    repeat constructor.
Qed.

(** A variable resolved by a custom mechanism: one call, on the feature
    columns and the current column of the variable, and the column is what
    the call returns. *)
Lemma resolve_custom_ok a target features model_name model_ custom_name
      f custom_model_args interv_endog g self g' self1 t :
  NoDup (pd.labels g) ->
  In target (pd.labels g) ->
  find (fun kv => String.eqb (fst kv) target) interv_endog = None ->
  resolve a target features model_name model_ custom_name (Some f)
          custom_model_args interv_endog g self = (inr g', self1, t) ->
  exists Xf err vals w,
    pd.getitem_list features g = inr Xf /\
    pd.getitem target g = inr err /\
    f Xf err custom_model_args = inr vals /\
    column_is target vals g' /\
    List.length vals = pd.shape0 g /\
    self1 = self /\
    t = Called custom_name Xf err :: w /\
    Forall (fun ev => delegate ev = None) w.
Proof.
  intros Hnd Hin Hf H. unfold resolve in H. rewrite Hf in H.
  bind_run H as predicted s1 t1 t2 Hp.
  unfold try_except, bind, lift, emit, raise in Hp.
  destruct (pd.getitem_list features g) as [e1|Xf]; [discriminate|].
  destruct (pd.getitem target g) as [e1|err]; [discriminate|].
  destruct (f Xf err custom_model_args) as [e1|vals] eqn:Ef; [discriminate|].
  cbn [app] in Hp. injection Hp as <- <- <-.
  bind_run H as g1 s2 t3 t4 Hg.
  apply assign_run in Hg. destruct Hg as [Hg [-> ->]].
  pose proof (setitem_labels _ _ _ _ Hg Hin) as L.
  apply (setitem_spec _ _ _ _ Hnd) in Hg. destruct Hg as [_ [C Hlen]].
  bind_run H as d s3 t5 t6 Hd. apply lift_run in Hd.
  destruct Hd as [_ [-> ->]].
  destruct (is_category d).
  - apply assign_categorical_run in H. destruct H as [H [-> ->]].
    rewrite <- L in Hnd.
    apply (set_categorical_spec _ _ _ Hnd) in H. destruct H as [_ H].
    exists Xf, err, vals, [ColumnWritten target; ColumnWritten target].
    repeat (split; [try reflexivity; auto|]).
    repeat constructor.
  - apply ret_run in H. destruct H as [-> [-> ->]].
    exists Xf, err, vals, [ColumnWritten target].
    repeat (split; [try reflexivity; auto|]).
    repeat constructor.
Qed.

(** X10.  A cause, or an effect, for which the caller gave a custom
    mechanism (and no endogenous intervention) is what that mechanism
    returns: the column of the table [generate] returns holds the values
    the mechanism gave when it was called (a list or an array, written by
    position), and the fitted model of the variable is not used.  The
    names of cause, effect and adjustments are distinct, as are the column
    labels and the row labels of the fitted table. *)
Theorem custom_model_output_is_the_column
        (self : CausalDataGenerator) (a : fitted)
        (interv_endog interv_exog : dict_arg)
        (cause_model effect_model : option callable_arg)
        (cause_model_args effect_model_args : option (list value))
        (out : frame) (self1 : CausalDataGenerator) (t : list event) :
  attributes self = Some a ->
  NoDup (names a) ->
  NoDup (pd.labels (_X a)) ->
  NoDup (index (_X a)) ->
  generate interv_endog interv_exog cause_model cause_model_args
           effect_model effect_model_args self = (inr out, self1, t) ->
  (forall f,
      cause_model = Some (Callable f) ->
      dict_get interv_endog (_cause a) = None ->
      exists Xf err vals,
        In (Called "cause_model" Xf err) t /\
        f Xf err cause_model_args = inr vals /\
        column_is (_cause a) vals out /\
        Forall (fun ev => delegate ev <> Some "model_cause") t) /\
  (forall f,
      effect_model = Some (Callable f) ->
      dict_get interv_endog (_effect a) = None ->
      exists Xf err vals,
        In (Called "effect_model" Xf err) t /\
        f Xf err effect_model_args = inr vals /\
        column_is (_effect a) vals out /\
        Forall (fun ev => delegate ev <> Some "model_effect") t).
Proof.
  intros Ha Hnames Hlabels Hnd H. apply generate_ok_inv in H.
  destruct H as [endog [exog [cm [em [a' [g [g1 [g2 [s1 [t1 [tc [te H]]]]]]]]]]]].
  destruct H as [E1 [E2 [E3 [E4 [Ea [Ei [HF1 [Hc [He [Hl ->]]]]]]]]]].
  rewrite Ha in Ea. injection Ea as <-.
  destruct (initial_data_index _ _ _ _ _ _ Ei) as [Ig Hlab].
  pose proof (resolve_touches _ _ _ _ _ _ _ _ _ _ _ _ _ _ Hc) as Tc.
  pose proof (resolve_touches _ _ _ _ _ _ _ _ _ _ _ _ _ _ He) as Te.
  assert (I1 : index g1 = index (_X a)).
  { destruct Tc as [Ic _]. congruence. }
  assert (I2 : index g2 = index (_X a)).
  { destruct Te as [Ie _]. congruence. }
  rewrite <- I2 in Hl, Hnd.
  pose proof (check_data_dict_names _ _ _ _ _ _ _ Ha E2) as Hx.
  destruct (working_table_labels _ _ _ _ _ _ _ _ _ _ _ _ _ _ _ _ _ _ _ _ _
              Hlabels Hx Ei Hc He) as [L [L1 L2]].
  assert (Hce : _cause a <> _effect a).
  { pose proof Hnames as Hn. unfold names in Hn. apply NoDup_cons_iff in Hn.
    intros E. apply (proj1 Hn). rewrite E. left. reflexivity. }
  assert (Hg : NoDup (pd.labels g)) by (rewrite L; exact Hnames).
  assert (Hg1 : NoDup (pd.labels g1)) by (rewrite L1; exact Hnames).
  assert (Hic : In (_cause a) (pd.labels g))
    by (rewrite L; left; reflexivity).
  assert (Hie : In (_effect a) (pd.labels g1))
    by (rewrite L1; right; left; reflexivity).
  split.
  - intros f -> Hv. injection E3 as <-.
    pose proof (check_data_dict_find _ _ _ _ _ _ (_cause a) E1) as Hfind.
    rewrite Hv in Hfind.
    destruct (resolve_custom_ok _ _ _ _ _ _ _ _ _ _ _ _ _ _ Hg Hic Hfind Hc)
      as [Xf [err [vals [w [_ [_ [Ef [C [Hlen [-> [-> Hw]]]]]]]]]]].
    exists Xf, err, vals.
    split; [apply in_or_app; right; left; reflexivity|].
    split; [exact Ef|]. split.
    + apply (loc_column_is g2 (pd.labels (_X a)) out); auto.
      * apply Hlab. left. reflexivity.
      * apply (column_is_untouched _ (_effect a) _ g1); auto.
      * unfold pd.shape0 in *. rewrite I2. rewrite <- Ig. exact Hlen.
    + apply Forall_app. split.
      { eapply Forall_impl; [|exact HF1]. intros ev ->. discriminate. }
      apply Forall_app. split.
      { constructor; [discriminate|].
        eapply Forall_impl; [|exact Hw]. intros ev ->. discriminate. }
      eapply Forall_impl; [|exact (emits_resolve _ _ _ _ _ _ _ _ _ _ _ _ _ _ He)].
      intros ev [-> |[-> | ->]]; discriminate.
  - intros f -> Hv. injection E4 as <-.
    pose proof (check_data_dict_find _ _ _ _ _ _ (_effect a) E1) as Hfind.
    rewrite Hv in Hfind.
    destruct (resolve_custom_ok _ _ _ _ _ _ _ _ _ _ _ _ _ _ Hg1 Hie Hfind He)
      as [Xf [err [vals [w [_ [_ [Ef [C [Hlen [-> [-> Hw]]]]]]]]]]].
    exists Xf, err, vals.
    split; [apply in_or_app; right; apply in_or_app; right; left; reflexivity|].
    split; [exact Ef|]. split.
    + apply (loc_column_is g2 (pd.labels (_X a)) out); auto.
      * apply Hlab. right. left. reflexivity.
      * unfold pd.shape0 in *. rewrite I2. rewrite <- I1. exact Hlen.
    + apply Forall_app. split.
      { eapply Forall_impl; [|exact HF1]. intros ev ->. discriminate. }
      apply Forall_app. split.
      2:{ constructor; [discriminate|].
          eapply Forall_impl; [|exact Hw]. intros ev ->. discriminate. }
      eapply Forall_impl; [|exact (emits_resolve _ _ _ _ _ _ _ _ _ _ _ _ _ _ Hc)].
      intros ev [-> |[-> | ->]]; discriminate.
Qed.

(** A custom mechanism that returns an array of the wrong length: the
    assignment of the column raises, outside the [try]. *)
Lemma resolve_custom_wrong_length a target features model_name model_
      custom_name f custom_model_args interv_endog g self r self1 t
      Xf err vals :
  resolve a target features model_name model_ custom_name (Some f)
          custom_model_args interv_endog g self = (r, self1, t) ->
  In (Called custom_name Xf err) t ->
  f Xf err custom_model_args = inr vals ->
  List.length vals <> pd.shape0 g ->
  pd.duplicated target (List.length vals) g = false ->
  r = inl (Exception ValueError
             (pd.length_mismatch (List.length vals) (pd.shape0 g))) /\
  self1 = self /\ t = [Called custom_name Xf err].
Proof.
  intros H Hin He Hlen Hdup. unfold resolve in H.
  destruct (find _ interv_endog).
  { exfalso.
    pose proof (emits_assign (fun ev => delegate ev = None) _ _ _ eq_refl
                  _ _ _ _ H) as HF.
    rewrite Forall_forall in HF. specialize (HF _ Hin). discriminate. }
  unfold bind at 1 in H. unfold try_except at 1 in H.
  unfold bind at 1 in H. unfold lift at 1 in H.
  destruct (pd.getitem_list features g) as [e1|Xf'].
  { unfold raise in H. injection H as _ _ <-. destruct Hin. }
  unfold bind at 1 in H. unfold lift at 1 in H.
  destruct (pd.getitem target g) as [e1|err'].
  { unfold raise in H. injection H as _ _ <-. destruct Hin. }
  unfold bind at 1 in H. unfold emit at 1 in H. unfold lift at 1 in H.
  destruct (f Xf' err' custom_model_args) as [e1|predicted] eqn:Ef.
  - unfold raise in H. cbn [app] in H. injection H as _ _ <-.
    destruct Hin as [Hin|[]]. injection Hin as -> ->.
    rewrite He in Ef. discriminate.
  - cbn [app] in H.
    match type of H with
    | match ?x with _ => _ end = _ => destruct x as [[r2 s2] t2] eqn:E2
    end.
    injection H as <- <- <-. cbn [app] in Hin.
    assert (K : emits (fun ev => delegate ev = None)
                  (bind (assign target predicted g)
                     (fun g0 => bind (lift (dtype_of target (_X a)))
                        (fun d => if is_category d
                                  then assign_categorical target g0
                                  else ret g0)))).
    { apply emits_bind; [apply emits_assign; reflexivity|]. intros g0.
      apply emits_bind; [emits|]. intros d.
      destruct (is_category d);
        [apply emits_assign_categorical; reflexivity|emits]. }
    destruct Hin as [Hin|Hin].
    + injection Hin as -> ->. rewrite He in Ef. injection Ef as <-.
      unfold bind at 1 in E2. unfold assign, bind at 1, lift at 1 in E2.
      unfold pd.setitem in E2. rewrite Hdup in E2.
      apply Nat.eqb_neq in Hlen. rewrite Hlen in E2.
      injection E2 as <- <- <-. auto.
    + exfalso. pose proof (K _ _ _ _ E2) as HF.
      rewrite Forall_forall in HF. specialize (HF _ Hin). discriminate.
Qed.

(** X11.  Only the call of a custom mechanism is guarded: when the
    mechanism returns, but with a list or an array that has not one value
    per row of the fitted table, the assignment of the column raises a
    ValueError (that of pandas, which tells the two lengths) that is not
    wrapped into a RuntimeError, and [generate] stops there.  This holds
    for the mechanism of the cause and for that of the effect, when the
    names of cause, effect and adjustments are distinct, as are the column
    labels of the fitted table. *)
Theorem custom_output_of_wrong_length_raises :
  (forall interv_endog interv_exog f cause_model_args effect_model
          effect_model_args self a r self1 t Xf err vals,
      generate interv_endog interv_exog (Some (Callable f)) cause_model_args
               effect_model effect_model_args self = (r, self1, t) ->
      attributes self = Some a ->
      NoDup (names a) ->
      NoDup (pd.labels (_X a)) ->
      In (Called "cause_model" Xf err) t ->
      f Xf err cause_model_args = inr vals ->
      List.length vals <> pd.shape0 (_X a) ->
      r = inl (Exception ValueError
                 (pd.length_mismatch (List.length vals)
                                     (pd.shape0 (_X a)))) /\
      exists t0, t = t0 ++ [Called "cause_model" Xf err]) /\
  (forall interv_endog interv_exog cause_model cause_model_args f
          effect_model_args self a r self1 t Xf err vals,
      generate interv_endog interv_exog cause_model cause_model_args
               (Some (Callable f)) effect_model_args self = (r, self1, t) ->
      attributes self = Some a ->
      NoDup (names a) ->
      NoDup (pd.labels (_X a)) ->
      In (Called "effect_model" Xf err) t ->
      f Xf err effect_model_args = inr vals ->
      List.length vals <> pd.shape0 (_X a) ->
      r = inl (Exception ValueError
                 (pd.length_mismatch (List.length vals)
                                     (pd.shape0 (_X a)))) /\
      exists t0, t = t0 ++ [Called "effect_model" Xf err]).
Proof.
  split.
  - intros endog0 exog0 f cma em0 ema self a r self1 t Xf err vals
           H Ha Hnames Hlabels Hin He Hlen.
    apply generate_inv in H.
    destruct H as [[e' [_ [_ HF]]]|
                   [endog [exog [cm [em [a' [g [t1 [t2 H]]]]]]]]].
    { rewrite Forall_forall in HF. specialize (HF _ Hin). discriminate. }
    destruct H as [_ [E2 [E3 [_ [Ea [Ei [HF1 [H ->]]]]]]]].
    rewrite Ha in Ea. injection Ea as <-. injection E3 as <-.
    destruct (initial_data_index _ _ _ _ _ _ Ei) as [Ig _].
    assert (Es : pd.shape0 g = pd.shape0 (_X a)).
    { unfold pd.shape0. rewrite Ig. reflexivity. }
    assert (Hlen' : List.length vals <> pd.shape0 g).
    { rewrite Es. exact Hlen. }
    pose proof (initial_data_labels _ _ _ _ _ _ Hlabels
                  (check_data_dict_names _ _ _ _ _ _ _ Ha E2) Ei) as L.
    assert (Hdup : pd.duplicated (_cause a) (List.length vals) g = false).
    { apply duplicated_nodup. rewrite L. exact Hnames. }
    apply in_app_or in Hin. destruct Hin as [Hin|Hin].
    { rewrite Forall_forall in HF1. specialize (HF1 _ Hin). discriminate. }
    apply bind_inv in H.
    destruct H as [[e' [H ->]]|[g1 [s1 [tc [t3 [H1 [H2 ->]]]]]]].
    + destruct (resolve_custom_wrong_length _ _ _ _ _ _ _ _ _ _ _ _ _ _
                  _ _ _ H Hin He Hlen' Hdup) as [E [_ ->]].
      injection E as ->. rewrite Es. split; [reflexivity|].
      exists t1. reflexivity.
    + exfalso. apply in_app_or in Hin. destruct Hin as [Hin|Hin].
      * destruct (resolve_custom_wrong_length _ _ _ _ _ _ _ _ _ _ _ _ _ _
                    _ _ _ H1 Hin He Hlen' Hdup) as [E _].
        discriminate.
      * assert (K : emits (fun ev => delegate ev <> Some "cause_model")
                      (bind (resolve a (_effect a) (_cause a :: _adjustments a)
                               "model_effect" (Some (model_effect_ a))
                               "effect_model" em ema endog g1)
                         (fun g2 => lift (pd.loc (index (_X a))
                                                 (pd.labels (_X a)) g2)))).
        { apply emits_bind; [|intros g2; emits].
          eapply emits_weaken; [|apply emits_resolve].
          intros ev [-> |[-> | ->]]; discriminate. }
        pose proof (K _ _ _ _ H2) as HF. rewrite Forall_forall in HF.
        apply (HF _ Hin). reflexivity.
  - intros endog0 exog0 cm0 cma f ema self a r self1 t Xf err vals
           H Ha Hnames Hlabels Hin He Hlen.
    apply generate_inv in H.
    destruct H as [[e' [_ [_ HF]]]|
                   [endog [exog [cm [em [a' [g [t1 [t2 H]]]]]]]]].
    { rewrite Forall_forall in HF. specialize (HF _ Hin). discriminate. }
    destruct H as [_ [E2 [_ [E4 [Ea [Ei [HF1 [H ->]]]]]]]].
    rewrite Ha in Ea. injection Ea as <-. injection E4 as <-.
    destruct (initial_data_index _ _ _ _ _ _ Ei) as [Ig _].
    apply in_app_or in Hin. destruct Hin as [Hin|Hin].
    { rewrite Forall_forall in HF1. specialize (HF1 _ Hin). discriminate. }
    assert (Kc : emits (fun ev => delegate ev <> Some "effect_model")
                   (resolve a (_cause a) (_adjustments a) "model_cause"
                            (model_cause_ a) "cause_model" cm cma
                            endog g)).
    { eapply emits_weaken; [|apply emits_resolve].
      intros ev [-> |[-> | ->]]; discriminate. }
    destruct (peel _ (Called "effect_model" Xf err) _ _ _ _ _ _ Kc
                   (fun K' => K' eq_refl) H Hin)
      as [g1 [s1 [tc [t3 [H1 [H' [-> [HFc Hin3]]]]]]]].
    clear H. rename H' into H.
    pose proof (resolve_touches _ _ _ _ _ _ _ _ _ _ _ _ _ _ H1) as [I1 _].
    assert (Es : pd.shape0 g1 = pd.shape0 (_X a)).
    { unfold pd.shape0. rewrite I1, Ig. reflexivity. }
    assert (Hlen' : List.length vals <> pd.shape0 g1).
    { rewrite Es. exact Hlen. }
    pose proof (initial_data_labels _ _ _ _ _ _ Hlabels
                  (check_data_dict_names _ _ _ _ _ _ _ Ha E2) Ei) as L.
    assert (L1 : pd.labels g1 = names a).
    { rewrite <- L. apply (resolve_labels _ _ _ _ _ _ _ _ _ _ _ _ _ _ H1).
      rewrite L. left. reflexivity. }
    assert (Hdup : pd.duplicated (_effect a) (List.length vals) g1 = false).
    { apply duplicated_nodup. rewrite L1. exact Hnames. }
    apply bind_inv in H.
    destruct H as [[e' [H ->]]|[g2 [s2 [te [t4 [H2 [H3 ->]]]]]]].
    + destruct (resolve_custom_wrong_length _ _ _ _ _ _ _ _ _ _ _ _ _ _
                  _ _ _ H Hin3 He Hlen' Hdup) as [E [_ ->]].
      injection E as ->. rewrite Es. split; [reflexivity|]. exists (t1 ++ tc).
      apply app_assoc.
    + exfalso. unfold lift in H3. injection H3 as _ _ <-.
      rewrite app_nil_r in Hin3.
      destruct (resolve_custom_wrong_length _ _ _ _ _ _ _ _ _ _ _ _ _ _
                  _ _ _ H2 Hin3 He Hlen' Hdup) as [E _].
      discriminate.
Qed.

(** ** Interventions *)

Lemma update_interventions_untouched items g self g' self1 t z v :
  ~ In z (map fst items) ->
  update_interventions items g self = (inr g', self1, t) ->
  column_is z v g -> column_is z v g'.
Proof.
  revert g self g' self1 t.
  induction items as [|[n v0] items IH]; intros g self g' self1 t Hno H C.
  - apply ret_run in H. destruct H as [-> _]. exact C.
  - cbn [update_interventions] in H. bind_run H as g0 s1 t1 t2 Hg.
    apply assign_run in Hg. destruct Hg as [Hg _].
    apply setitem_touches in Hg. rename Hg into T.
    cbn [map fst] in Hno.
    apply (IH g0 s1 g' self1 t2);
      [intros Hi; apply Hno; right; exact Hi|exact H|].
    apply (column_is_untouched z n v g g0); [|exact T|exact C].
    intros E. apply Hno. left. symmetry. exact E.
Qed.

(** The interventions are written in the order of the dict, each on the
    column of its key. *)
Lemma update_interventions_sets items g self g' self1 t z v :
  NoDup (pd.labels g) ->
  Forall (fun kv => In (fst kv) (pd.labels g)) items ->
  NoDup (map fst items) ->
  In (z, v) items ->
  update_interventions items g self = (inr g', self1, t) ->
  column_is z v g'.
Proof.
  revert g self g' self1 t.
  induction items as [|[n v0] items IH];
    intros g self g' self1 t Hlab HF Hnd Hin H.
  - destruct Hin.
  - cbn [update_interventions] in H. bind_run H as g0 s1 t1 t2 Hg.
    apply assign_run in Hg. destruct Hg as [Hg _].
    inversion HF as [|kv items' Hn HF']. subst. cbn [fst] in Hn.
    pose proof (setitem_labels _ _ _ _ Hg Hn) as L.
    apply (setitem_spec _ _ _ _ Hlab) in Hg. destruct Hg as [_ [C _]].
    rewrite <- L in Hlab, HF'.
    cbn [map fst] in Hnd. apply NoDup_cons_iff in Hnd.
    destruct Hnd as [Hno Hnd].
    destruct Hin as [E|Hin].
    + injection E as -> ->.
      exact (update_interventions_untouched _ _ _ _ _ _ _ _ Hno H C).
    + exact (IH g0 s1 g' self1 t2 Hlab HF' Hnd Hin H).
Qed.

(** The dict that passes the checks is the dict that was given. *)
Lemma check_items_keys items self d self1 t :
  _check_data_dict_items items self = (inr d, self1, t) ->
  map fst items = map StrKey (map fst d).
Proof.
  revert d. induction items as [|[k v] items IH]; intros d H.
  - apply ret_run in H. destruct H as [-> _]. reflexivity.
  - apply check_items_cons_inv in H.
    destruct H as [name [rest [a [-> [-> [_ [_ [_ H]]]]]]]].
    cbn [map fst]. rewrite (IH rest H). reflexivity.
Qed.

Lemma check_data_dict_keys dict name self d self1 t :
  _check_data_dict dict name self = (inr d, self1, t) ->
  keys dict = map StrKey (map fst d).
Proof.
  destruct dict as [| |items]; cbn [_check_data_dict keys]; intros H.
  - apply ret_run in H. destruct H as [-> _]. reflexivity.
  - discriminate.
  - exact (check_items_keys _ _ _ _ _ H).
Qed.

Lemma check_data_dict_nodup dict name self d self1 t :
  _check_data_dict dict name self = (inr d, self1, t) ->
  NoDup (keys dict) -> NoDup (map fst d).
Proof.
  intros H Hnd. rewrite (check_data_dict_keys _ _ _ _ _ _ H) in Hnd.
  exact (NoDup_map_inv _ _ Hnd).
Qed.

(** X12.  An exogenous intervention on an adjustment is part of the table
    [generate] returns: the column of that adjustment holds the values
    supplied (a list or an array, written by position).  The names of
    cause, effect and adjustments are distinct, as are the column labels
    and the row labels of the fitted table and the keys of the dict. *)
Theorem exogenous_adjustment_is_kept
        (self : CausalDataGenerator) (a : fitted)
        (interv_endog interv_exog : dict_arg)
        (cause_model effect_model : option callable_arg)
        (cause_model_args effect_model_args : option (list value))
        (out : frame) (self1 : CausalDataGenerator) (t : list event)
        (z : string) (v : list value) :
  attributes self = Some a ->
  NoDup (names a) ->
  NoDup (pd.labels (_X a)) ->
  NoDup (index (_X a)) ->
  NoDup (keys interv_exog) ->
  generate interv_endog interv_exog cause_model cause_model_args
           effect_model effect_model_args self = (inr out, self1, t) ->
  dict_get interv_exog z = Some v ->
  z <> _cause a ->
  z <> _effect a ->
  In z (_adjustments a) /\ column_is z v out.
Proof.
  intros Ha Hnames Hlabels Hnd Hkeys H Hv Hzc Hze. apply generate_ok_inv in H.
  destruct H as [endog [exog [cm [em [a' [g [g1 [g2 [s1 [t1 [tc [te H]]]]]]]]]]]].
  destruct H as [_ [E2 [_ [_ [Ea [Ei [_ [Hc [He [Hl _]]]]]]]]]].
  rewrite Ha in Ea. injection Ea as <-.
  destruct (initial_data_index _ _ _ _ _ _ Ei) as [Ig Hlab].
  pose proof (resolve_touches _ _ _ _ _ _ _ _ _ _ _ _ _ _ Hc) as Tc.
  pose proof (resolve_touches _ _ _ _ _ _ _ _ _ _ _ _ _ _ He) as Te.
  assert (I2 : index g2 = index (_X a)).
  { destruct Tc as [Ic _]. destruct Te as [Ie _]. congruence. }
  rewrite <- I2 in Hl, Hnd.
  pose proof (check_data_dict_find _ _ _ _ _ _ z E2) as Hfind.
  rewrite Hv in Hfind. destruct Hfind as [kv [a' [Hfind [<- [Ea Hlen]]]]].
  rewrite Ha in Ea. injection Ea as <-.
  apply find_some in Hfind. destruct Hfind as [Hin Hk].
  apply String.eqb_eq in Hk. destruct kv as [k v']. cbn [fst snd] in *. subst k.
  pose proof (check_data_dict_names _ _ _ _ _ _ _ Ha E2) as Hn.
  rewrite Forall_forall in Hn. specialize (Hn _ Hin). cbn [fst] in Hn.
  assert (Hz : In z (_adjustments a)).
  { destruct Hn as [E|[E|Hn]]; [congruence|congruence|exact Hn]. }
  split; [exact Hz|].
  destruct (initial_data_inv _ _ _ _ _ _ Ei)
    as [g0 [g1' [g2' [t' [H0 [H1 [H2 Hu]]]]]]].
  destruct (initial_table_labels _ _ _ _ Hlabels H0 H1 H2) as [_ [_ L2']].
  assert (Hg2' : NoDup (pd.labels g2')) by (rewrite L2'; exact Hnames).
  assert (HF2' : Forall (fun kv => In (fst kv) (pd.labels g2')) exog).
  { rewrite L2'. exact (check_data_dict_names _ _ _ _ _ _ _ Ha E2). }
  pose proof (update_interventions_sets _ _ _ _ _ _ _ _ Hg2' HF2'
                (check_data_dict_nodup _ _ _ _ _ _ E2 Hkeys) Hin Hu) as C.
  apply (loc_column_is g2 (pd.labels (_X a)) out);
    [exact Hnd|exact Hl| | |].
  - apply Hlab. right. right. exact Hz.
  - apply (column_is_untouched _ (_effect a) _ g1); [exact Hze|exact Te|].
    apply (column_is_untouched _ (_cause a) _ g); [exact Hzc|exact Tc|exact C].
  - unfold pd.shape0. rewrite I2. exact Hlen.
Qed.

Lemma getitem_list_column_is ns g Xf n v :
  pd.getitem_list ns g = inr Xf ->
  In n ns -> column_is n v g -> column_is n v Xf.
Proof.
  unfold pd.getitem_list.
  destruct (pd.take_labels ns (columns g)) as [e|cs] eqn:E; [discriminate|].
  intros H Hin [[c [Hc Hn]] Hall]. injection H as <-. cbn [columns].
  pose proof (take_labels_in _ _ _ E) as Hcs. split.
  - exists c. split; [|exact Hn]. apply Hcs. split; [exact Hc|].
    rewrite Hn. exact Hin.
  - intros c' Hc' Hn'. apply Hall; [|exact Hn']. apply Hcs in Hc'. tauto.
Qed.

(** A variable without endogenous intervention: its mechanism, fitted or
    custom, is given the feature columns of the working table. *)
Lemma resolve_features a target features model_name model_ custom_name
      custom_model custom_model_args interv_endog g self g' self1 t :
  find (fun kv => String.eqb (fst kv) target) interv_endog = None ->
  resolve a target features model_name model_ custom_name custom_model
          custom_model_args interv_endog g self = (inr g', self1, t) ->
  exists Xf,
    pd.getitem_list features g = inr Xf /\
    (In (Predicted model_name Xf) t \/
     exists err, In (Called custom_name Xf err) t).
Proof.
  intros Hf H. destruct custom_model as [f|].
  - destruct (resolve_custom_run _ _ _ _ _ _ _ _ _ _ _ _ _ _ Hf H)
      as [Xf [err [vals [w [HX [_ [_ [_ [-> _]]]]]]]]].
    exists Xf. split; [exact HX|]. right. exists err. left. reflexivity.
  - unfold resolve in H. rewrite Hf in H.
    bind_run H as d s0 t0 t1 Hd. apply lift_run in Hd.
    destruct Hd as [_ [-> ->]].
    destruct (negb (is_category d)).
    + bind_run H as m s1 t2 t3 Hm. bind_run H as Xf s2 t4 t5 HX.
      apply lift_run in HX. destruct HX as [HX [-> ->]].
      bind_run H as u s3 t6 t7 Hu. apply emit_run in Hu.
      destruct Hu as [-> ->].
      exists Xf. split; [exact HX|]. left.
      apply in_or_app. right. apply in_or_app. right.
      apply in_or_app. right. left. reflexivity.
    + bind_run H as m s1 t2 t3 Hm. bind_run H as Xf s2 t4 t5 HX.
      apply lift_run in HX. destruct HX as [HX [-> ->]].
      bind_run H as u s3 t6 t7 Hu. apply emit_run in Hu.
      destruct Hu as [-> ->].
      exists Xf. split; [exact HX|]. left.
      apply in_or_app. right. apply in_or_app. right.
      apply in_or_app. right. left. reflexivity.
Qed.

(** X14.  An endogenous intervention on the cause reaches the effect: when
    the effect has no endogenous intervention of its own, its mechanism
    (the fitted model, or the custom mechanism when there is one) is
    evaluated in that call of [generate] on feature columns whose cause
    column holds the values supplied for the cause (a list or an array,
    written by position).  The names of cause, effect and adjustments are
    distinct, as are the column labels of the fitted table. *)
Theorem intervened_cause_feeds_the_effect
        (self : CausalDataGenerator) (a : fitted)
        (interv_endog interv_exog : dict_arg)
        (cause_model effect_model : option callable_arg)
        (cause_model_args effect_model_args : option (list value))
        (out : frame) (self1 : CausalDataGenerator) (t : list event)
        (v : list value) :
  attributes self = Some a ->
  NoDup (names a) ->
  NoDup (pd.labels (_X a)) ->
  generate interv_endog interv_exog cause_model cause_model_args
           effect_model effect_model_args self = (inr out, self1, t) ->
  dict_get interv_endog (_cause a) = Some v ->
  dict_get interv_endog (_effect a) = None ->
  exists Xf,
    (In (Predicted "model_effect" Xf) t \/
     exists err, In (Called "effect_model" Xf err) t) /\
    column_is (_cause a) v Xf.
Proof.
  intros Ha Hnames Hlabels H Hv Hn. apply generate_ok_inv in H.
  destruct H as [endog [exog [cm [em [a' [g [g1 [g2 [s1 [t1 [tc [te H]]]]]]]]]]]].
  destruct H as [E1 [E2 [_ [_ [Ea [Ei [_ [Hc [He [_ ->]]]]]]]]]].
  rewrite Ha in Ea. injection Ea as <-.
  pose proof (initial_data_labels _ _ _ _ _ _ Hlabels
                (check_data_dict_names _ _ _ _ _ _ _ Ha E2) Ei) as L.
  assert (Hg : NoDup (pd.labels g)) by (rewrite L; exact Hnames).
  pose proof (check_data_dict_find _ _ _ _ _ _ (_cause a) E1) as Hfc.
  rewrite Hv in Hfc. destruct Hfc as [kv [a' [Hfc [<- _]]]].
  pose proof (check_data_dict_find _ _ _ _ _ _ (_effect a) E1) as Hfe.
  rewrite Hn in Hfe.
  destruct (resolve_intervened _ _ _ _ _ _ _ _ _ _ _ _ _ _ _ Hg Hfc Hc)
    as [C _].
  destruct (resolve_features _ _ _ _ _ _ _ _ _ _ _ _ _ _ Hfe He)
    as [Xf [HX Hev]].
  exists Xf. split.
  - destruct Hev as [Hev|[err Hev]].
    + left. apply in_or_app. right. apply in_or_app. right. exact Hev.
    + right. exists err. apply in_or_app. right. apply in_or_app. right.
      exact Hev.
  - apply (getitem_list_column_is _ _ _ _ _ HX); [left; reflexivity|exact C].
Qed.

(** X19.  When the names of cause, effect and adjustments are distinct, as
    are the column labels and the row labels of the fitted table, a table
    that [generate] returns has the layout of the fitted table: the same
    column labels in the same order, and the same row labels. *)
Theorem generate_returns_layout_of_fit_input
        (self : CausalDataGenerator) (a : fitted)
        (interv_endog interv_exog : dict_arg)
        (cause_model effect_model : option callable_arg)
        (cause_model_args effect_model_args : option (list value))
        (out : frame) (self1 : CausalDataGenerator) (t : list event) :
  attributes self = Some a ->
  NoDup (names a) ->
  NoDup (pd.labels (_X a)) ->
  NoDup (index (_X a)) ->
  generate interv_endog interv_exog cause_model cause_model_args
           effect_model effect_model_args self = (inr out, self1, t) ->
  pd.labels out = pd.labels (_X a) /\ index out = index (_X a).
Proof.
  intros Ha Hnames Hlabels Hnd H. apply generate_ok_inv in H.
  destruct H as [endog [exog [cm [em [a' [g [g1 [g2 [s1 [t1 [tc [te H]]]]]]]]]]]].
  destruct H as [_ [E2 [_ [_ [Ea [Ei [_ [Hc [He [Hl _]]]]]]]]]].
  rewrite Ha in Ea. injection Ea as <-.
  destruct (initial_data_index _ _ _ _ _ _ Ei) as [Ig _].
  pose proof (resolve_touches _ _ _ _ _ _ _ _ _ _ _ _ _ _ Hc) as [Ic _].
  pose proof (resolve_touches _ _ _ _ _ _ _ _ _ _ _ _ _ _ He) as [Ie _].
  assert (I2 : index g2 = index (_X a)) by congruence.
  pose proof (initial_data_labels _ _ _ _ _ _ Hlabels
                (check_data_dict_names _ _ _ _ _ _ _ Ha E2) Ei) as L.
  assert (L1 : pd.labels g1 = names a).
  { rewrite <- L. apply (resolve_labels _ _ _ _ _ _ _ _ _ _ _ _ _ _ Hc).
    rewrite L. left. reflexivity. }
  assert (L2 : pd.labels g2 = names a).
  { rewrite <- L1. apply (resolve_labels _ _ _ _ _ _ _ _ _ _ _ _ _ _ He).
    rewrite L1. right. left. reflexivity. }
  split.
  - unfold pd.loc in Hl.
    destruct (pd.take_rows (index (_X a)) (index g2)); [discriminate|].
    destruct (pd.take_labels (pd.labels (_X a)) (columns g2)) as [e|cs] eqn:E;
      [discriminate|].
    injection Hl as <-. unfold pd.labels at 1. cbn [columns].
    rewrite map_map. cbn [cname].
    apply (take_labels_nodup _ (columns g2)); [|exact E].
    unfold pd.labels in L2. rewrite L2. exact Hnames.
  - rewrite <- I2 in Hl, Hnd. rewrite <- I2.
    exact (loc_index g2 _ _ Hnd Hl).
Qed.

(** ** The generated value: noise plus prediction *)

Lemma put_column_column_is name d vals idx cols :
  column_is name vals (Frame idx (pd.put_column name d vals cols)).
Proof.
  split; cbn [columns].
  - exists (Col name d vals). split; [apply put_column_in_same|reflexivity].
  - intros c Hc Hn. apply put_column_in_inv in Hc.
    destruct Hc as [->|[_ Hne]]; [reflexivity|contradiction].
Qed.

Lemma iadd_column_is name p g g' v :
  pd.iadd name p g = inr g' ->
  NoDup (pd.labels g) ->
  column_is name v g ->
  exists vals,
    np.broadcast np.add_cell v p = inr vals /\ column_is name vals g'.
Proof.
  intros H Hnd [[c [Hc Hn]] Hall].
  pose proof (labelled_the name (columns g) c Hnd Hc Hn) as El.
  unfold pd.iadd in H. rewrite El in H.
  rewrite (Hall c Hc Hn) in H.
  destruct (np.broadcast np.add_cell v p) as [e|vals]; [discriminate|].
  injection H as <-. exists vals. split; [reflexivity|].
  apply put_column_column_is.
Qed.

(** A variable that is not categorical, resolved by its fitted model. *)
Lemma resolve_fitted_ok a target features model_name model_ custom_name
      custom_model_args interv_endog g self g' self1 t :
  find (fun kv => String.eqb (fst kv) target) interv_endog = None ->
  dtype_of target (_X a) = inr other ->
  resolve a target features model_name model_ custom_name None
          custom_model_args interv_endog g self = (inr g', self1, t) ->
  exists m Xf p,
    model_ = Some m /\
    pd.getitem_list features g = inr Xf /\
    predict m Xf = inr p /\
    pd.iadd target p g = inr g' /\
    self1 = self /\
    t = [Predicted model_name Xf; ColumnWritten target].
Proof.
  intros Hf Hd H. unfold resolve in H. rewrite Hf in H.
  bind_run H as d s0 t0 t1 Hd'. apply lift_run in Hd'.
  destruct Hd' as [Hd' [-> ->]]. rewrite Hd in Hd'. injection Hd' as <-.
  cbn [is_category negb] in H.
  bind_run H as m s1 t2 t3 Hm.
  unfold method_of in Hm. destruct model_ as [m'|]; [|discriminate].
  apply ret_run in Hm. destruct Hm as [-> [-> ->]].
  bind_run H as Xf s2 t4 t5 HX. apply lift_run in HX.
  destruct HX as [HX [-> ->]].
  bind_run H as u s3 t6 t7 Hu. apply emit_run in Hu. destruct Hu as [-> ->].
  bind_run H as p s4 t8 t9 Hp. apply lift_run in Hp.
  destruct Hp as [Hp [-> ->]].
  apply assign_iadd_run in H. destruct H as [H [-> ->]].
  exists m', Xf, p. auto 10.
Qed.

(** The cause of the table [generate] returns, when it is resolved by its
    fitted model: what the working table held for it, plus the
    prediction. *)
Lemma cause_is_noise_plus_prediction a endog cause_model_args em
      effect_model_args g g1 g2 self s1 self2 tc te out v :
  NoDup (names a) ->
  NoDup (index (_X a)) ->
  pd.labels g = names a ->
  index g = index (_X a) ->
  In (_cause a) (pd.labels (_X a)) ->
  resolve a (_cause a) (_adjustments a) "model_cause" (model_cause_ a)
          "cause_model" None cause_model_args endog g self
  = (inr g1, s1, tc) ->
  resolve a (_effect a) (_cause a :: _adjustments a)
          "model_effect" (Some (model_effect_ a))
          "effect_model" em effect_model_args endog g1 s1
  = (inr g2, self2, te) ->
  pd.loc (index (_X a)) (pd.labels (_X a)) g2 = inr out ->
  find (fun kv => String.eqb (fst kv) (_cause a)) endog = None ->
  dtype_of (_cause a) (_X a) = inr other ->
  column_is (_cause a) v g ->
  List.length v = pd.shape0 (_X a) ->
  exists m Xf p vals,
    model_cause_ a = Some m /\
    In (Predicted "model_cause" Xf) tc /\
    predict m Xf = inr p /\
    np.broadcast np.add_cell v p = inr vals /\
    column_is (_cause a) vals out.
Proof.
  intros Hnames Hnd L Ig Hlab Hc He Hl Hf Hd C Hlen.
  assert (Hce : _cause a <> _effect a).
  { unfold names in Hnames. apply NoDup_cons_iff in Hnames.
    intros E. apply (proj1 Hnames). left. symmetry. exact E. }
  destruct (resolve_fitted_ok _ _ _ _ _ _ _ _ _ _ _ _ _ Hf Hd Hc)
    as [m [Xf [p [Em [_ [Ep [Hi [_ ->]]]]]]]].
  assert (Hndg : NoDup (pd.labels g)) by (rewrite L; exact Hnames).
  destruct (iadd_column_is _ _ _ _ _ Hi Hndg C) as [vals [Eb C1]].
  pose proof (resolve_touches _ _ _ _ _ _ _ _ _ _ _ _ _ _ Hc) as [Ic _].
  pose proof (resolve_touches _ _ _ _ _ _ _ _ _ _ _ _ _ _ He) as Te.
  assert (I2 : index g2 = index (_X a)).
  { destruct Te as [Ie _]. congruence. }
  exists m, Xf, p, vals.
  split; [exact Em|]. split; [left; reflexivity|].
  split; [exact Ep|]. split; [exact Eb|].
  rewrite <- I2 in Hl, Hnd.
  apply (loc_column_is g2 (pd.labels (_X a)) out);
    [exact Hnd|exact Hl|exact Hlab| |].
  - apply (column_is_untouched _ (_effect a) _ g1); [exact Hce|exact Te|exact C1].
  - rewrite (broadcast_length _ _ _ _ Eb). unfold pd.shape0 in *.
    rewrite I2. exact Hlen.
Qed.

(** The same for the effect. *)
Lemma effect_is_noise_plus_prediction a endog cm cause_model_args
      effect_model_args g g1 g2 self s1 self2 tc te out v :
  NoDup (names a) ->
  NoDup (index (_X a)) ->
  pd.labels g = names a ->
  index g = index (_X a) ->
  In (_effect a) (pd.labels (_X a)) ->
  resolve a (_cause a) (_adjustments a) "model_cause" (model_cause_ a)
          "cause_model" cm cause_model_args endog g self
  = (inr g1, s1, tc) ->
  resolve a (_effect a) (_cause a :: _adjustments a)
          "model_effect" (Some (model_effect_ a))
          "effect_model" None effect_model_args endog g1 s1
  = (inr g2, self2, te) ->
  pd.loc (index (_X a)) (pd.labels (_X a)) g2 = inr out ->
  find (fun kv => String.eqb (fst kv) (_effect a)) endog = None ->
  dtype_of (_effect a) (_X a) = inr other ->
  column_is (_effect a) v g ->
  List.length v = pd.shape0 (_X a) ->
  exists Xf p vals,
    In (Predicted "model_effect" Xf) te /\
    predict (model_effect_ a) Xf = inr p /\
    np.broadcast np.add_cell v p = inr vals /\
    column_is (_effect a) vals out /\
    pd.getitem_list (_cause a :: _adjustments a) g1 = inr Xf.
Proof.
  intros Hnames Hnd L Ig Hlab Hc He Hl Hf Hd C Hlen.
  assert (Hce : _effect a <> _cause a).
  { unfold names in Hnames. apply NoDup_cons_iff in Hnames.
    intros E. apply (proj1 Hnames). left. exact E. }
  pose proof (resolve_touches _ _ _ _ _ _ _ _ _ _ _ _ _ _ Hc) as Tc.
  assert (L1 : pd.labels g1 = names a).
  { rewrite <- L. apply (resolve_labels _ _ _ _ _ _ _ _ _ _ _ _ _ _ Hc).
    rewrite L. left. reflexivity. }
  destruct (resolve_fitted_ok _ _ _ _ _ _ _ _ _ _ _ _ _ Hf Hd He)
    as [m [Xf [p [Em [HXf [Ep [Hi [_ ->]]]]]]]].
  injection Em as <-.
  assert (Hndg : NoDup (pd.labels g1)) by (rewrite L1; exact Hnames).
  pose proof (column_is_untouched _ _ _ _ _ Hce Tc C) as C0.
  destruct (iadd_column_is _ _ _ _ _ Hi Hndg C0) as [vals [Eb C1]].
  pose proof (iadd_touches _ _ _ _ Hi) as [Ie _].
  assert (I2 : index g2 = index (_X a)).
  { destruct Tc as [Ic _]. congruence. }
  exists Xf, p, vals.
  split; [left; reflexivity|].
  split; [exact Ep|]. split; [exact Eb|]. split; [|exact HXf].
  rewrite <- I2 in Hl, Hnd.
  apply (loc_column_is g2 (pd.labels (_X a)) out);
    [exact Hnd|exact Hl|exact Hlab|exact C1|].
  rewrite (broadcast_length _ _ _ _ Eb). unfold pd.shape0 in *.
  rewrite I2. exact Hlen.
Qed.

Lemma find_none_keys (items : list (string * list value)) z :
  find (fun kv => String.eqb (fst kv) z) items = None ->
  ~ In z (map fst items).
Proof.
  intros Hf Hin. apply in_map_iff in Hin. destruct Hin as [kv [Hk Hin]].
  pose proof (find_none _ _ Hf kv Hin) as E. cbn beta in E.
  rewrite Hk, String.eqb_refl in E. discriminate.
Qed.

(** X13.  An exogenous intervention on the cause, or on the effect, takes
    the place of the residuals of that variable: when the variable is not
    categorical and is resolved by its fitted model (no endogenous
    intervention, no custom mechanism), its column in the table [generate]
    returns is the array supplied plus the prediction of the model on the
    feature columns.  The values supplied are a list or an array, written
    by position (a Series would be aligned on its row labels).  Names,
    column labels, row labels and the keys of the dict are distinct. *)
Theorem exogenous_intervention_replaces_noise
        (self : CausalDataGenerator) (a : fitted)
        (interv_endog interv_exog : dict_arg)
        (cause_model effect_model : option callable_arg)
        (cause_model_args effect_model_args : option (list value))
        (out : frame) (self1 : CausalDataGenerator) (t : list event) :
  attributes self = Some a ->
  NoDup (names a) ->
  NoDup (pd.labels (_X a)) ->
  NoDup (index (_X a)) ->
  NoDup (keys interv_exog) ->
  generate interv_endog interv_exog cause_model cause_model_args
           effect_model effect_model_args self = (inr out, self1, t) ->
  (forall v,
      dict_get interv_exog (_cause a) = Some v ->
      dict_get interv_endog (_cause a) = None ->
      cause_model = None ->
      dtype_of (_cause a) (_X a) = inr other ->
      exists m Xf p vals,
        model_cause_ a = Some m /\
        In (Predicted "model_cause" Xf) t /\
        predict m Xf = inr p /\
        np.broadcast np.add_cell v p = inr vals /\
        column_is (_cause a) vals out) /\
  (forall v,
      dict_get interv_exog (_effect a) = Some v ->
      dict_get interv_endog (_effect a) = None ->
      effect_model = None ->
      dtype_of (_effect a) (_X a) = inr other ->
      exists Xf p vals,
        In (Predicted "model_effect" Xf) t /\
        predict (model_effect_ a) Xf = inr p /\
        np.broadcast np.add_cell v p = inr vals /\
        column_is (_effect a) vals out).
Proof.
  intros Ha Hnames Hlabels Hnd Hkeys H. apply generate_ok_inv in H.
  destruct H as [endog [exog [cm [em [a' [g [g1 [g2 [s1 [t1 [tc [te H]]]]]]]]]]]].
  destruct H as [E1 [E2 [E3 [E4 [Ea [Ei [_ [Hc [He [Hl ->]]]]]]]]]].
  rewrite Ha in Ea. injection Ea as <-.
  destruct (initial_data_index _ _ _ _ _ _ Ei) as [Ig Hlab].
  pose proof (initial_data_labels _ _ _ _ _ _ Hlabels
                (check_data_dict_names _ _ _ _ _ _ _ Ha E2) Ei) as L.
  destruct (initial_data_inv _ _ _ _ _ _ Ei)
    as [g0 [g1' [g2' [t' [H0 [H1 [H2 Hu]]]]]]].
  destruct (initial_table_labels _ _ _ _ Hlabels H0 H1 H2) as [_ [_ L2']].
  assert (Hg2' : NoDup (pd.labels g2')) by (rewrite L2'; exact Hnames).
  assert (HF2' : Forall (fun kv => In (fst kv) (pd.labels g2')) exog).
  { rewrite L2'. exact (check_data_dict_names _ _ _ _ _ _ _ Ha E2). }
  pose proof (check_data_dict_nodup _ _ _ _ _ _ E2 Hkeys) as Hkn.
  split.
  - intros v Hv Hn -> Hd. injection E3 as <-.
    pose proof (check_data_dict_find _ _ _ _ _ _ (_cause a) E1) as Hfind.
    rewrite Hn in Hfind.
    pose proof (check_data_dict_find _ _ _ _ _ _ (_cause a) E2) as Hx.
    rewrite Hv in Hx. destruct Hx as [kv [a' [Hx [<- [Ea Hlen]]]]].
    rewrite Ha in Ea. injection Ea as <-.
    apply find_some in Hx. destruct Hx as [Hin Hk].
    apply String.eqb_eq in Hk. destruct kv as [k v']. cbn [fst snd] in *.
    subst k.
    pose proof (update_interventions_sets _ _ _ _ _ _ _ _ Hg2' HF2' Hkn Hin Hu)
      as C.
    destruct (cause_is_noise_plus_prediction a endog cause_model_args em
                effect_model_args g g1 g2 self s1 self1 tc te out v'
                Hnames Hnd L Ig (Hlab _ (or_introl eq_refl))
                Hc He Hl Hfind Hd C Hlen)
      as [m [Xf [p [vals [Em [Hin' [Ep [Eb Co]]]]]]]].
    exists m, Xf, p, vals.
    split; [exact Em|]. split; [|auto].
    apply in_or_app. right. apply in_or_app. left. exact Hin'.
  - intros v Hv Hn -> Hd. injection E4 as <-.
    pose proof (check_data_dict_find _ _ _ _ _ _ (_effect a) E1) as Hfind.
    rewrite Hn in Hfind.
    pose proof (check_data_dict_find _ _ _ _ _ _ (_effect a) E2) as Hx.
    rewrite Hv in Hx. destruct Hx as [kv [a' [Hx [<- [Ea Hlen]]]]].
    rewrite Ha in Ea. injection Ea as <-.
    apply find_some in Hx. destruct Hx as [Hin Hk].
    apply String.eqb_eq in Hk. destruct kv as [k v']. cbn [fst snd] in *.
    subst k.
    pose proof (update_interventions_sets _ _ _ _ _ _ _ _ Hg2' HF2' Hkn Hin Hu)
      as C.
    destruct (effect_is_noise_plus_prediction a endog cm cause_model_args
                effect_model_args g g1 g2 self s1 self1 tc te out v'
                Hnames Hnd L Ig (Hlab _ (or_intror (or_introl eq_refl)))
                Hc He Hl Hfind Hd C Hlen)
      as [Xf [p [vals [Hin' [Ep [Eb [Co _]]]]]]].
    exists Xf, p, vals.
    split; [|auto].
    apply in_or_app. right. apply in_or_app. right. exact Hin'.
Qed.


(** X16.  An intervention on the cause propagates to the effect.  Take a
    fitted table with distinct column labels and distinct row labels, and
    distinct names of cause, effect and adjustments.  With an endogenous
    intervention on the cause (a list or an array, written by position)
    and none on the effect, an effect that is not categorical and is
    resolved by its fitted model is, in the table [generate] returns, its
    stored error series plus the prediction of the model on features whose
    cause column holds the values supplied; the cause column of the table
    holds these values too.  The error series is a Series over the rows of
    the fitted table, as [fit] stores it. *)
Theorem intervention_on_cause_propagates
        (self : CausalDataGenerator) (a : fitted)
        (interv_endog interv_exog : dict_arg)
        (cause_model : option callable_arg)
        (cause_model_args effect_model_args : option (list value))
        (out : frame) (self1 : CausalDataGenerator) (t : list event)
        (v : list value) (s : column) :
  attributes self = Some a ->
  NoDup (names a) ->
  NoDup (pd.labels (_X a)) ->
  NoDup (index (_X a)) ->
  columns (error_effect_ a) = [s] ->
  index (error_effect_ a) = index (_X a) ->
  List.length (cells s) = pd.shape0 (_X a) ->
  dtype_of (_effect a) (_X a) = inr other ->
  generate interv_endog interv_exog cause_model cause_model_args
           None effect_model_args self = (inr out, self1, t) ->
  dict_get interv_endog (_cause a) = Some v ->
  dict_get interv_endog (_effect a) = None ->
  dict_get interv_exog (_effect a) = None ->
  exists Xf p vals,
    column_is (_cause a) v Xf /\
    In (Predicted "model_effect" Xf) t /\
    predict (model_effect_ a) Xf = inr p /\
    np.broadcast np.add_cell (cells s) p = inr vals /\
    column_is (_effect a) vals out /\
    column_is (_cause a) v out.
Proof.
  intros Ha Hnames Hlabels Hnd Es Is Ls Hd H Hv Hn Hx.
  apply generate_ok_inv in H.
  destruct H as [endog [exog [cm [em [a' [g [g1 [g2 [s1 [t1 [tc [te H]]]]]]]]]]]].
  destruct H as [E1 [E2 [E3 [E4 [Ea [Ei [_ [Hc [He [Hl ->]]]]]]]]]].
  rewrite Ha in Ea. injection Ea as <-. injection E4 as <-.
  destruct (initial_data_index _ _ _ _ _ _ Ei) as [Ig Hlab].
  pose proof (initial_data_labels _ _ _ _ _ _ Hlabels
                (check_data_dict_names _ _ _ _ _ _ _ Ha E2) Ei) as L.
  destruct (initial_data_inv _ _ _ _ _ _ Ei)
    as [i0 [i1 [i2 [t' [H0 [H1 [H2 Hu]]]]]]].
  destruct (initial_table_labels _ _ _ _ Hlabels H0 H1 H2) as [L0' [L1' _]].
  assert (D0 : forall len, pd.duplicated (_cause a) len i0 = false).
  { intros len. apply duplicated_nodup. rewrite L0'. exact Hnames. }
  assert (D1 : forall len, pd.duplicated (_effect a) len i1 = false).
  { intros len. apply duplicated_nodup. rewrite L1'. exact Hnames. }
  pose proof (getitem_list_index _ _ _ H0) as I0.
  pose proof (setitem_item_touches _ _ _ _ H1) as T1.
  assert (Hce : _cause a <> _effect a).
  { unfold names in Hnames. apply NoDup_cons_iff in Hnames.
    intros E. apply (proj1 Hnames). left. symmetry. exact E. }
  pose proof (check_data_dict_find _ _ _ _ _ _ (_cause a) E1) as Hfc.
  rewrite Hv in Hfc. destruct Hfc as [kv [a' [Hfc [<- [Ea Hlen]]]]].
  rewrite Ha in Ea. injection Ea as <-.
  pose proof (check_data_dict_find _ _ _ _ _ _ (_effect a) E1) as Hfe.
  rewrite Hn in Hfe.
  pose proof (check_data_dict_find _ _ _ _ _ _ (_effect a) E2) as Hfx.
  rewrite Hx in Hfx.
  assert (C : column_is (_effect a) (cells s) g).
  { apply (update_interventions_untouched _ _ _ _ _ _ _ _
             (find_none_keys _ _ Hfx) Hu).
    rewrite (setitem_item_series (_effect a) (error_effect_ a) s i1 Es) in H2.
    - injection H2 as <-. apply put_column_column_is.
    - destruct T1 as [I1 _]. congruence.
    - apply D1. }
  destruct (effect_is_noise_plus_prediction a endog cm cause_model_args
              effect_model_args g g1 g2 self s1 self1 tc te out (cells s)
              Hnames Hnd L Ig (Hlab _ (or_intror (or_introl eq_refl)))
              Hc He Hl Hfe Hd C Ls)
    as [Xf [p [vals [Hin' [Ep [Eb [Co HXf]]]]]]].
  assert (Hg : NoDup (pd.labels g)) by (rewrite L; exact Hnames).
  destruct (resolve_intervened _ _ _ _ _ _ _ _ _ _ _ _ _ _ _ Hg Hfc Hc)
    as [C1 _].
  pose proof (resolve_touches _ _ _ _ _ _ _ _ _ _ _ _ _ _ Hc) as [Ic _].
  pose proof (resolve_touches _ _ _ _ _ _ _ _ _ _ _ _ _ _ He) as Te.
  assert (I2 : index g2 = index (_X a)).
  { destruct Te as [Ie _]. congruence. }
  exists Xf, p, vals.
  split.
  { apply (getitem_list_column_is _ _ _ _ _ HXf); [left; reflexivity|exact C1]. }
  split.
  { apply in_or_app. right. apply in_or_app. right. exact Hin'. }
  split; [exact Ep|]. split; [exact Eb|]. split; [exact Co|].
  rewrite <- I2 in Hl, Hnd.
  apply (loc_column_is g2 (pd.labels (_X a)) out);
    [exact Hnd|exact Hl|exact (Hlab _ (or_introl eq_refl))| |].
  - apply (column_is_untouched _ (_effect a) _ g1); [exact Hce|exact Te|exact C1].
  - unfold pd.shape0 in *. rewrite I2. exact Hlen.
Qed.

Lemma getitem_column_is n g y w :
  pd.getitem n g = inr y -> column_is n w g -> column_is n w y.
Proof.
  intros H [[c [Hc Hn]] Hall]. apply getitem_inv in H. subst y.
  split; cbn [columns].
  - exists c. split; [|exact Hn]. apply in_labelled. auto.
  - intros c' Hc' Hn'. apply in_labelled in Hc'. apply Hall; tauto.
Qed.

(** X17.  A custom mechanism is handed the residuals of its variable: when
    the variable has no intervention of either kind, the second argument
    of the call is a Series over the rows of the fitted table that holds
    the error series [fit] stored for that variable.  This holds for the
    cause and for the effect, when the names of cause, effect and
    adjustments are distinct, as are the column labels of the fitted
    table. *)
Theorem custom_model_receives_residuals
        (self : CausalDataGenerator) (a : fitted)
        (interv_endog interv_exog : dict_arg)
        (cause_model effect_model : option callable_arg)
        (cause_model_args effect_model_args : option (list value))
        (out : frame) (self1 : CausalDataGenerator) (t : list event) :
  attributes self = Some a ->
  NoDup (names a) ->
  NoDup (pd.labels (_X a)) ->
  generate interv_endog interv_exog cause_model cause_model_args
           effect_model effect_model_args self = (inr out, self1, t) ->
  (forall f s,
      cause_model = Some (Callable f) ->
      columns (error_cause_ a) = [s] ->
      index (error_cause_ a) = index (_X a) ->
      dict_get interv_exog (_cause a) = None ->
      dict_get interv_endog (_cause a) = None ->
      exists Xf err,
        In (Called "cause_model" Xf err) t /\
        index err = index (_X a) /\
        column_is (_cause a) (cells s) err) /\
  (forall f s,
      effect_model = Some (Callable f) ->
      columns (error_effect_ a) = [s] ->
      index (error_effect_ a) = index (_X a) ->
      dict_get interv_exog (_effect a) = None ->
      dict_get interv_endog (_effect a) = None ->
      exists Xf err,
        In (Called "effect_model" Xf err) t /\
        index err = index (_X a) /\
        column_is (_effect a) (cells s) err).
Proof.
  intros Ha Hnames Hlabels H. apply generate_ok_inv in H.
  destruct H as [endog [exog [cm [em [a' [g [g1 [g2 [s1 [t1 [tc [te H]]]]]]]]]]]].
  destruct H as [E1 [E2 [E3 [E4 [Ea [Ei [_ [Hc [He [Hl ->]]]]]]]]]].
  rewrite Ha in Ea. injection Ea as <-.
  destruct (initial_data_index _ _ _ _ _ _ Ei) as [Ig Hlab].
  destruct (initial_data_inv _ _ _ _ _ _ Ei)
    as [i0 [i1 [i2 [t' [H0 [H1 [H2 Hu]]]]]]].
  destruct (initial_table_labels _ _ _ _ Hlabels H0 H1 H2) as [L0' [L1' _]].
  assert (D0 : forall len, pd.duplicated (_cause a) len i0 = false).
  { intros len. apply duplicated_nodup. rewrite L0'. exact Hnames. }
  assert (D1 : forall len, pd.duplicated (_effect a) len i1 = false).
  { intros len. apply duplicated_nodup. rewrite L1'. exact Hnames. }
  assert (Hce : _cause a <> _effect a).
  { pose proof Hnames as Hn. unfold names in Hn. apply NoDup_cons_iff in Hn.
    intros E. apply (proj1 Hn). rewrite E. left. reflexivity. }
  pose proof (getitem_list_index _ _ _ H0) as I0.
  pose proof (setitem_item_touches _ _ _ _ H1) as T1.
  pose proof (setitem_item_touches _ _ _ _ H2) as T2.
  pose proof (resolve_touches _ _ _ _ _ _ _ _ _ _ _ _ _ _ Hc) as Tc.
  split.
  - intros f s -> Es Is Hx Hn. injection E3 as <-.
    pose proof (check_data_dict_find _ _ _ _ _ _ (_cause a) E1) as Hfind.
    rewrite Hn in Hfind.
    pose proof (check_data_dict_find _ _ _ _ _ _ (_cause a) E2) as Hfx.
    rewrite Hx in Hfx.
    assert (C : column_is (_cause a) (cells s) g).
    { apply (update_interventions_untouched _ _ _ _ _ _ _ _
               (find_none_keys _ _ Hfx) Hu).
      apply (column_is_untouched _ (_effect a) _ i1); [exact Hce|exact T2|].
      rewrite (setitem_item_series (_cause a) (error_cause_ a) s i0 Es) in H1;
        [|congruence|apply D0].
      injection H1 as <-. apply put_column_column_is. }
    destruct (resolve_custom_run _ _ _ _ _ _ _ _ _ _ _ _ _ _ Hfind Hc)
      as [Xf [err [vals [w [_ [Herr [_ [_ [-> _]]]]]]]]].
    exists Xf, err.
    split; [apply in_or_app; right; left; reflexivity|].
    split.
    + rewrite (getitem_inv _ _ _ Herr). cbn [index]. exact Ig.
    + exact (getitem_column_is _ _ _ _ Herr C).
  - intros f s -> Es Is Hx Hn. injection E4 as <-.
    pose proof (check_data_dict_find _ _ _ _ _ _ (_effect a) E1) as Hfind.
    rewrite Hn in Hfind.
    pose proof (check_data_dict_find _ _ _ _ _ _ (_effect a) E2) as Hfx.
    rewrite Hx in Hfx.
    assert (C : column_is (_effect a) (cells s) g1).
    { apply (column_is_untouched _ (_cause a) _ g);
        [intros E; apply Hce; symmetry; exact E|exact Tc|].
      apply (update_interventions_untouched _ _ _ _ _ _ _ _
               (find_none_keys _ _ Hfx) Hu).
      rewrite (setitem_item_series (_effect a) (error_effect_ a) s i1 Es) in H2.
      - injection H2 as <-. apply put_column_column_is.
      - destruct T1 as [I1 _]. congruence.
      - apply D1. }
    destruct (resolve_custom_run _ _ _ _ _ _ _ _ _ _ _ _ _ _ Hfind He)
      as [Xf [err [vals [w [_ [Herr [_ [_ [-> _]]]]]]]]].
    exists Xf, err.
    split; [apply in_or_app; right; apply in_or_app; right; left; reflexivity|].
    split.
    + rewrite (getitem_inv _ _ _ Herr). cbn [index].
      destruct Tc as [Ic _]. congruence.
    + exact (getitem_column_is _ _ _ _ Herr C).
Qed.

Lemma check_data_dict_missing a good name v rest dname self :
  attributes self = Some a ->
  Forall (valid_item a) good ->
  In name (names a) ->
  existsb is_label v = false ->
  existsb is_nan v = true ->
  exists msg,
    _check_data_dict (Dict (good ++ (StrKey name, v) :: rest)) dname self
    = (inl (Exception ValueError msg), self, []).
Proof.
  intros Ha Hgood Hin Hl Hn. eexists. cbn [_check_data_dict].
  apply (check_items_valid a good _ self Ha Hgood).
  cbn [_check_data_dict_items].
  rewrite (bind_quiet _ _ self a); [|unfold attrs; rewrite Ha; reflexivity].
  replace (existsb (String.eqb name) (_cause a :: _effect a :: _adjustments a))
    with true.
  2:{ symmetry. apply existsb_eqb_In. exact Hin. }
  cbn [negb]. apply bind_raise.
  unfold lift, check_array_values. rewrite Hl, Hn. cbn [negb andb].
  reflexivity.
Qed.

(** X18.  An array of numbers with a missing value is no valid
    intervention, endogenous or exogenous: when the items before it pass
    (and, for an exogenous one, when the endogenous interventions pass),
    [generate] raises a ValueError for it before the working table is
    created, and the instance is as it was. *)
Theorem generate_rejects_missing_values
        (self : CausalDataGenerator) (a : fitted)
        (good rest : list (key * list value)) (name : string)
        (v : list value)
        (cause_model effect_model : option callable_arg)
        (cause_model_args effect_model_args : option (list value)) :
  attributes self = Some a ->
  Forall (valid_item a) good ->
  In name (names a) ->
  existsb is_label v = false ->
  existsb is_nan v = true ->
  (forall interv_exog,
      exists msg,
        generate (Dict (good ++ (StrKey name, v) :: rest)) interv_exog
                 cause_model cause_model_args effect_model effect_model_args
                 self
        = (inl (Exception ValueError msg), self, [])) /\
  (forall interv_endog,
      accepted a interv_endog ->
      exists msg,
        generate interv_endog (Dict (good ++ (StrKey name, v) :: rest))
                 cause_model cause_model_args effect_model effect_model_args
                 self
        = (inl (Exception ValueError msg), self, [])).
Proof.
  intros Ha Hgood Hin Hl Hn. split.
  - intros interv_exog.
    destruct (check_data_dict_missing a good name v rest "interv_endog" self
                Ha Hgood Hin Hl Hn) as [msg E].
    exists msg. unfold generate. apply bind_raise. exact E.
  - intros interv_endog Hacc.
    destruct (check_data_dict_accepted a _ "interv_endog" self Ha Hacc)
      as [items E].
    destruct (check_data_dict_missing a good name v rest "interv_exog" self
                Ha Hgood Hin Hl Hn) as [msg E'].
    exists msg. unfold generate. rewrite (bind_ok _ _ _ _ _ _ E).
    rewrite (bind_raise _ _ _ _ _ _ E'). reflexivity.
Qed.

End Properties.

(** * The code on examples *)

Import Toy.

Ltac fitted_of self a Ea :=
  destruct (attributes self) as [a|] eqn:Ea;
  [ let E := fresh "E" in
    pose proof Ea as E; vm_compute in E; injection E as <-
  | vm_compute in Ea; discriminate ].

Ltac distinct :=
  vm_compute; repeat (constructor; [cbn [In]; intuition discriminate|]);
  constructor.

Lemma run_eta {A} (x : result A * CausalDataGenerator * list event) :
  x = (fst (fst x), snd (fst x), snd x).
Proof. destruct x as [[r s] t]. reflexivity. Defined.

(** Witness of C1: [fit(Xab, "a", "b")], then [generate()]. *)
Lemma generate_without_adjustments_raises_witness :
  let self1 := snd (fst (fit (DataFrame Xab) "a" "b" None None None fresh)) in
  exists e t',
    generate NoDict NoDict None None None None self1 = (inl e, self1, t') /\
    eclass e = AttributeError.
Proof.
  intros self1.
  fitted_of self1 a Ea.
  destruct (proj2 (proj2
    (generate_without_adjustments_raises Xab "a" "b" None None None fresh
       self1 _ _ None None (run_eta _) Ea eq_refl ltac:(distinct))))
    as [e [t' [H Hc]]].
  exists e, t'. split; [exact H|]. apply Hc. discriminate.
Defined.

(** When cause and effect are one column of a table of two rows, the
    working table holds that column twice and the error series is assigned
    to it item by item, by row label: on a table whose rows are not
    labelled 0 and 1 the error comes from there, before the cause is
    resolved. *)
Example generate_same_column_key_error :
  let run := fit (DataFrame Xfar) "a" "a" None None None fresh in
  fst (fst run) = inr tt /\
  fst (fst (generate NoDict NoDict None None None None (snd (fst run))))
  = inl (Exception KeyError "0").
Proof. vm_compute. split; reflexivity. Qed.

(** Witness of C2: the table has a column w that plays no part. *)
Lemma generate_raises_on_unused_column_witness :
  exists e self1 t,
    generate NoDict NoDict None None None None fitted_abzw = (inl e, self1, t).
Proof.
  fitted_of fitted_abzw a Ea.
  apply (generate_raises_on_unused_column fitted_abzw _ "w" NoDict NoDict
           None None None None Ea).
  - vm_compute. tauto.
  - vm_compute. intuition discriminate.
Defined.

(** With an unused column the error is the KeyError of the final selection,
    after both variables were resolved. *)
Example generate_unused_column_key_error :
  fst (fst (generate NoDict NoDict None None None None fitted_abzw))
  = inl (Exception KeyError "w not in index").
Proof. vm_compute. reflexivity. Qed.



(** Counterexample to C4: the cause is also given as the adjustment, on a
    table of two rows.  The working table then holds the column of the
    cause twice, and the two values supplied for the cause go one to each
    of the two columns, on every row: no column of the cause in the table
    [generate] returns is the array supplied. *)
Lemma override_is_spread_over_repeated_cause :
  let run :=
    fit (DataFrame Xab2) "a" "b" (Some (Array1D ["a"])) None None fresh in
  let endog := Dict [(StrKey "a", [q 10; q 20]); (StrKey "b", [q 1; q 2])] in
  fst (fst run) = inr tt /\
  fst (fst (generate endog NoDict None None None None (snd (fst run))))
  = inr (Frame [0; 1]%Z
               [Col "a" other [q 10; q 10];
                Col "a" other [q 20; q 20];
                Col "b" other [q 1; q 2]]) /\
  forall out,
    fst (fst (generate endog NoDict None None None None (snd (fst run))))
    = inr out ->
    ~ column_is "a" [q 10; q 20] out.
Proof.
  vm_compute. split; [reflexivity|]. split; [reflexivity|].
  intros out E [_ H]. injection E as <-.
  specialize (H _ (or_introl eq_refl) eq_refl). discriminate H.
Qed.

(** The same with row labels that are not distinct: the final selection
    takes the rows of a repeated label once for each of its occurrences,
    and the column of the cause has more rows than the array supplied. *)
Example override_with_repeated_row_labels :
  let run :=
    fit (DataFrame Xrows) "a" "b" (Some (Array1D ["z"])) None None fresh in
  fst (fst run) = inr tt /\
  exists out,
    fst (fst (generate (Dict [(StrKey "a", [q 5; q 6; q 7])]) NoDict
                       None None None None (snd (fst run))))
    = inr out /\
    column_is "a" [q 5; q 6; q 5; q 6; q 7] out.
Proof.
  vm_compute. split; [reflexivity|]. eexists. split; [reflexivity|].
  split.
  - eexists. split; [left; reflexivity|reflexivity].
  - intros c [<-|[<-|[<-|[]]]]; intros E; try discriminate E. reflexivity.
Qed.

(** Witness of C4 as amended: the cause is set to 5 on every row. *)
Lemma endogenous_override_takes_precedence_witness :
  let endog := Dict [(StrKey "a", [q 5; q 5; q 5])] in
  exists out t,
    generate endog NoDict None None None None fitted_abz
    = (inr out, fitted_abz, t) /\
    Forall (fun ev => delegate ev <> Some "model_cause" /\
                      delegate ev <> Some "cause_model") t /\
    column_is "a" [q 5; q 5; q 5] out.
Proof.
  intros endog.
  fitted_of fitted_abz a Ea.
  destruct (generate endog NoDict None None None None fitted_abz)
    as [[[e|out] s1] t] eqn:Er; [vm_compute in Er; discriminate|].
  assert (Es : s1 = fitted_abz).
  { vm_compute in Er. injection Er as _ <- _. vm_compute. reflexivity. }
  subst s1.
  destruct (proj1 (endogenous_override_takes_precedence
                     fitted_abz _ endog NoDict None None None None out _ t
                     Ea Er) [q 5; q 5; q 5] ltac:(vm_compute; reflexivity))
    as [HF HC].
  exists out, t. split; [reflexivity|]. split; [exact HF|].
  apply HC; distinct.
Defined.

(** Witness of C5: two values for three rows. *)
Lemma generate_rejects_bad_interventions_witness :
  exists msg,
    generate (Dict [(StrKey "a", [q 1; q 1])]) NoDict None None None None
             fitted_abz
    = (inl (Exception ValueError msg), fitted_abz, []).
Proof.
  fitted_of fitted_abz a Ea.
  apply (generate_rejects_bad_interventions fitted_abz _ _ NoDict None None
           None None ValueError Ea).
  left. apply (length_differs _ [] "a" [q 1; q 1] []).
  - constructor.
  - left. reflexivity.
  - vm_compute. discriminate.
Defined.

(** Counterexample to C6: a nested list of adjustments is not refused. *)
Lemma nested_adjustments_are_accepted :
  fst (fst (fit (DataFrame Xabz) "a" "b" (Some (Array2D [["z"]]))
                (Some RowSum) (Some RowSum) fresh))
  = inr tt.
Proof. vm_compute. reflexivity. Qed.

(** Witness of C6 as amended: the effect is missing from the table. *)
Lemma fit_validates_in_order_witness :
  fit (DataFrame Xab) "a" "z" None None None fresh
  = (inl (Exception ValueError "effect isn't exist in X.columns."), fresh, []).
Proof.
  exact (proj2 (fit_validates_in_order (DataFrame Xab) "a" "z" None None None
                  fresh)).
Defined.



(** The toy [choice] keeps numpy's contract. *)
Lemma toy_choice_contract : choice_contract.
Proof.
  intros r classes p v r'. cbn [choice lib]. unfold toy_choice.
  destruct (negb (Nat.eqb (List.length classes) (List.length p)));
    [discriminate|].
  destruct (nth_error classes (r mod List.length classes)) as [w|] eqn:E;
    [|discriminate].
  intros H. injection H as <- _. eapply nth_error_In. exact E.
Defined.

(** Counterexample to C8: the categorical cause is also given as the
    adjustment, with a classifier and a regressor that take whatever
    feature columns they are given.  The working table holds the column of
    the cause twice; made categorical, the two columns get their label in
    every cell, and the label is none of the classes of the model. *)
Lemma repeated_categorical_cause_gets_its_label :
  let run :=
    fit (DataFrame Xcat2) "a" "b" (Some (Array1D ["a"]))
        (Some EqualOdds) (Some Zero) fresh in
  fst (fst run) = inr tt /\
  dtype_of "a" Xcat2 = inr category /\
  exists a m out,
    attributes (snd (fst run)) = Some a /\
    model_cause_ a = Some m /\
    fst (fst (generate NoDict NoDict None None None None (snd (fst run))))
    = inr out /\
    column_is "a" [Label "a"; Label "a"; Label "a"] out /\
    ~ In (Label "a") (classes_ m).
Proof.
  vm_compute. split; [reflexivity|]. split; [reflexivity|].
  eexists. eexists. eexists.
  split; [reflexivity|]. split; [reflexivity|]. split; [reflexivity|].
  split.
  - split.
    + eexists. split; [left; reflexivity|reflexivity].
    + intros c [<-|[<-|[<-|[]]]]; intros E; try discriminate E; reflexivity.
  - intros [E|[E|[]]]; discriminate E.
Qed.

(** Witness of C8 as amended: the categorical cause of [Xcat] is
    resampled. *)
Lemma categorical_labels_are_sampled_witness :
  exists out a m labels,
    fst (fst (generate NoDict NoDict None None None None fitted_cat)) = inr out /\
    attributes fitted_cat = Some a /\
    model_cause_ a = Some m /\
    column_is "a" labels out /\
    Forall (fun v => In v (classes_ m)) labels.
Proof.
  fitted_of fitted_cat a Ea.
  destruct (generate NoDict NoDict None None None None fitted_cat)
    as [[[e|out] s1] t] eqn:Er; [vm_compute in Er; discriminate|].
  destruct (proj1 (categorical_labels_are_sampled
                     fitted_cat _ NoDict NoDict None None None None out s1 t
                     toy_choice_contract Ea
                     ltac:(distinct) ltac:(distinct) ltac:(distinct)
                     Er)
                  ltac:(vm_compute; reflexivity) eq_refl eq_refl)
    as [m [Xf [proba [labels [Em [_ [_ [C F]]]]]]]].
  exists out. eexists. exists m, labels.
  split; [reflexivity|]. split; [reflexivity|].
  split; [exact Em|]. split; [exact C|exact F].
Defined.

(** Witness of C9: an estimator that cannot be trained, for the cause and
    for the effect; a custom mechanism that raises, for the cause and for
    the effect. *)
Lemma delegate_failure_is_wrapped_witness :
  (exists t,
      fit (DataFrame Xabz) "a" "b" (Some (Array1D ["z"]))
          (Some (Broken "singular matrix")) None fresh
      = (inl (Exception RuntimeError "model_cause.fit(): singular matrix"),
         fresh, t)) /\
  (exists t,
      fit (DataFrame Xabz) "a" "b" (Some (Array1D ["z"]))
          None (Some (Broken "singular matrix")) fresh
      = (inl (Exception RuntimeError "model_effect.fit(): singular matrix"),
         fresh, t)) /\
  (exists t,
      generate NoDict NoDict (Some (Callable failing)) None None None
               fitted_abz
      = (inl (Exception RuntimeError
                "Exception: cause_model: division by zero"),
         fitted_abz, t)) /\
  (exists t,
      generate NoDict NoDict None None (Some (Callable failing)) None
               fitted_abz
      = (inl (Exception RuntimeError
                "Exception: effect_model: division by zero"),
         fitted_abz, t)).
Proof.
  pose proof delegate_failure_is_wrapped as [F1 [F2 [F3 [F4 _]]]].
  split; [|split; [|split]].
  - eexists.
    refine (F1 (DataFrame Xabz) "a" "b" (Some (Array1D ["z"]))
               (Broken "singular matrix") None fresh Xabz ["z"]
               (Frame [0; 1; 2]%Z [Col "z" other [q 7; q 9; q 8]])
               (Frame [0; 1; 2]%Z [Col "a" other [q 1; q 2; q 3]])
               (Exception (OtherException "LinAlgError") "singular matrix")
               _ _ _ _ _);
      [vm_compute; reflexivity|discriminate|vm_compute; reflexivity..].
  - eexists.
    refine (F2 (DataFrame Xabz) "a" "b" (Some (Array1D ["z"]))
               None (Broken "singular matrix") fresh Xabz ["z"] _ _
               (Frame [0; 1; 2]%Z [Col "a" other [q 1; q 2; q 3];
                                   Col "z" other [q 7; q 9; q 8]])
               (Frame [0; 1; 2]%Z [Col "b" other [q 4; q 6; q 5]])
               (Exception (OtherException "LinAlgError") "singular matrix")
               _ _ _ _ _);
      vm_compute; reflexivity.
  - fitted_of fitted_abz a Ea. eexists.
    refine (F3 NoDict NoDict failing None None None fitted_abz _ [] [] None
               _ _ _ _
               (Exception (OtherException "ZeroDivisionError")
                          "division by zero")
               Ea eq_refl eq_refl eq_refl _ _ _ _ _);
      vm_compute; reflexivity.
  - fitted_of fitted_abz a Ea. eexists.
    refine (F4 NoDict NoDict None None failing None fitted_abz _ [] [] None
               _ _ _ fitted_abz _ _ _
               (Exception (OtherException "ZeroDivisionError")
                          "division by zero")
               Ea eq_refl eq_refl eq_refl _ _ _ _ _ _);
      vm_compute; reflexivity.
Defined.

(** Witness of C10. *)
Lemma generate_continuous_deterministic_witness :
  let run := generate NoDict NoDict None None None None fitted_abz in
  snd (fst run) = fitted_abz /\
  generate NoDict NoDict None None None None (snd (fst run)) = run.
Proof.
  intros run.
  fitted_of fitted_abz a Ea.
  destruct run as [[r s1] t] eqn:Er. cbn [fst snd].
  apply (generate_continuous_deterministic fitted_abz _ NoDict NoDict None None
           r s1 t Ea); [vm_compute; reflexivity|vm_compute; reflexivity|].
  exact Er.
Defined.

(** * The further properties on examples *)

(** Witness of X1: the effect is not a column; the earlier fit is kept. *)
Lemma fit_failure_leaves_instance_witness :
  snd (fst (fit (DataFrame Xab) "a" "z" None None None fitted_abz))
  = fitted_abz.
Proof.
  destruct (fit (DataFrame Xab) "a" "z" None None None fitted_abz)
    as [[[e|u] s1] t] eqn:Er; [|vm_compute in Er; discriminate].
  exact (proj2 (proj2 (fit_failure_leaves_instance _ _ _ _ _ _ _ _ _ _ Er))
               eq_refl eq_refl).
Defined.

(** Witness of X2: [fit(Xabz, "a", "b", ["z"])]. *)
Lemma fit_success_writes_once_witness :
  exists a t0,
    fitted_abz = Self (_random_state fresh) (Some a) /\
    _adjustments a = ["z"] /\
    snd (fit (DataFrame Xabz) "a" "b" (Some (Array1D ["z"])) None None fresh)
    = t0 ++ [AttributesWritten].
Proof.
  destruct (fit_success_writes_once (DataFrame Xabz) "a" "b"
              (Some (Array1D ["z"])) None None fresh fitted_abz _ (run_eta _))
    as [a [t0 [E [_ [_ [_ [Hadj [Ht _]]]]]]]].
  exists a, t0. split; [exact E|]. split; [|exact Ht].
  cbn [check_array_flat] in Hadj. injection Hadj as <-. reflexivity.
Defined.

(** Witness of X4: a fresh instance. *)
Lemma generate_unfitted_raises_witness :
  exists e,
    generate NoDict NoDict None None None None fresh = (inl e, fresh, []) /\
    (eclass e = TypeError \/ eclass e = AttributeError).
Proof.
  exact (generate_unfitted_raises NoDict NoDict None None None None fresh
           eq_refl).
Defined.

(** Witness of X5: a categorical cause is resampled, the attributes stay. *)
Lemma generate_never_refits_witness :
  attributes
    (snd (fst (generate NoDict NoDict None None None None fitted_cat)))
  = attributes fitted_cat.
Proof.
  exact (proj1 (generate_never_refits NoDict NoDict None None None None
                  fitted_cat _ _ _ (run_eta _))).
Defined.

(** Witness of X6: the adjustment w is no column of the table. *)
Lemma fit_missing_adjustment_raises_key_error_witness :
  exists msg,
    fit (DataFrame Xab) "a" "b" (Some (Array1D ["w"])) None None fresh
    = (inl (Exception KeyError msg), fresh, []).
Proof.
  apply (fit_missing_adjustment_raises_key_error
           (DataFrame Xab) "a" "b" (Some (Array1D ["w"])) None None
           fresh fresh [] Xab ["w"] "w").
  - reflexivity.
  - left. reflexivity.
  - vm_compute. intuition discriminate.
Defined.

(** Witness of X7: a regressor for a categorical cause, and no adjustment. *)
Lemma fit_rejects_model_cause_of_wrong_kind_witness :
  fit (DataFrame Xcat2) "a" "b" None (Some RowSum) None fresh
  = (inl (Exception TypeError
            "The Object variable is categorical but the estimator is a regressor."),
     fresh, []).
Proof.
  apply (proj1 (fit_rejects_model_cause_of_wrong_kind
                  Xcat2 "a" "b" None [] RowSum None category fresh
                  eq_refl eq_refl eq_refl eq_refl eq_refl));
    reflexivity.
Defined.

(** Witness of X8: two regressors for two columns of numbers. *)
Lemma fit_accepts_only_matching_estimators_witness :
  exists d,
    dtype_of "a" Xabz = inr d /\
    if is_category d
    then is_regressor RowSum = false /\ has_predict_proba RowSum = true
    else is_classifier RowSum = false.
Proof.
  destruct (fit_accepts_only_matching_estimators
              (DataFrame Xabz) "a" "b" (Some (Array1D ["z"]))
              (Some RowSum) (Some RowSum) fresh _ _ (run_eta _))
    as [df [EX [Hc _]]].
  injection EX as <-. exact (Hc RowSum eq_refl).
Defined.

(** Witness of X9: [fit(Xabz, "a", "b", ["z"])] trains two models. *)
Lemma fit_trains_each_model_once_witness :
  exists Xa yc Xe ye,
    snd (fit (DataFrame Xabz) "a" "b" (Some (Array1D ["z"])) None None fresh)
    = [Trained "model_cause" Xa yc; Predicted "model_cause" Xa;
       Trained "model_effect" Xe ye; Predicted "model_effect" Xe;
       AttributesWritten].
Proof.
  destruct (fit_trains_each_model_once
              (DataFrame Xabz) "a" "b" (Some (Array1D ["z"])) None None
              fresh _ _ (run_eta _))
    as [a [Xe [ye [de [tc [Ea [_ [_ [Hde [Ht [_ Hc]]]]]]]]]]].
  vm_compute in Ea. injection Ea as <-.
  vm_compute in Hde. injection Hde as <-.
  destruct (Hc ltac:(discriminate)) as [Xa [yc [dc [_ [_ [Hdc ->]]]]]].
  vm_compute in Hdc. injection Hdc as <-.
  exists Xa, yc, Xe, ye. exact Ht.
Defined.

(** Witness of X10: a custom mechanism for the cause. *)
Lemma custom_model_output_is_the_column_witness :
  let mech := Some (Callable (constant [q 5; q 6; q 7])) in
  exists out,
    fst (fst (generate NoDict NoDict mech None None None fitted_abz))
    = inr out /\
    column_is "a" [q 5; q 6; q 7] out.
Proof.
  intros mech.
  fitted_of fitted_abz a Ea.
  destruct (generate NoDict NoDict mech None None None fitted_abz)
    as [[[e|out] s1] t] eqn:Er; [vm_compute in Er; discriminate|].
  exists out. split; [reflexivity|].
  destruct (proj1 (custom_model_output_is_the_column
                     fitted_abz _ NoDict NoDict mech None None None out s1 t
                     Ea ltac:(distinct) ltac:(distinct) ltac:(distinct)
                     Er)
                  (constant [q 5; q 6; q 7]) eq_refl eq_refl)
    as [Xf [err [vals [_ [Ef [C _]]]]]].
  unfold constant, ok in Ef. injection Ef as <-. exact C.
Defined.

(** Witness of X11: the mechanism returns two values for three rows. *)
Lemma custom_output_of_wrong_length_raises_witness :
  fst (fst (generate NoDict NoDict (Some (Callable (constant [q 5; q 6])))
                     None None None fitted_abz))
  = inl (Exception ValueError
           "Length of values (2) does not match length of index (3)").
Proof.
  fitted_of fitted_abz a Ea.
  refine (proj1 (proj1 custom_output_of_wrong_length_raises
                   NoDict NoDict (constant [q 5; q 6]) None None None
                   fitted_abz _ _ _ _
                   (Frame [0; 1; 2]%Z [Col "z" other [q 7; q 9; q 8]])
                   (Frame [0; 1; 2]%Z [Col "a" other [q (-6); q (-7); q (-5)]])
                   [q 5; q 6]
                   (run_eta _) Ea _ _ _ eq_refl _)).
  - distinct.
  - distinct.
  - vm_compute. right. right. right. left. reflexivity.
  - vm_compute. discriminate.
Defined.

(** Witness of X12: the adjustment z is set to zero. *)
Lemma exogenous_adjustment_is_kept_witness :
  let exog := Dict [(StrKey "z", [q 0; q 0; q 0])] in
  exists out,
    fst (fst (generate NoDict exog None None None None fitted_abz)) = inr out /\
    column_is "z" [q 0; q 0; q 0] out.
Proof.
  intros exog.
  fitted_of fitted_abz a Ea.
  destruct (generate NoDict exog None None None None fitted_abz)
    as [[[e|out] s1] t] eqn:Er; [vm_compute in Er; discriminate|].
  exists out. split; [reflexivity|].
  refine (proj2 (exogenous_adjustment_is_kept
                   fitted_abz _ NoDict exog None None None None out s1 t
                   "z" [q 0; q 0; q 0] Ea _ _ _ _ Er eq_refl _ _)).
  - distinct.
  - distinct.
  - distinct.
  - distinct.
  - vm_compute. discriminate.
  - vm_compute. discriminate.
Defined.

(** Witness of X13: the cause is given the noise 0; it becomes the
    prediction of its model. *)
Lemma exogenous_intervention_replaces_noise_witness :
  let exog := Dict [(StrKey "a", [q 0; q 0; q 0])] in
  exists out p vals,
    fst (fst (generate NoDict exog None None None None fitted_abz)) = inr out /\
    np.broadcast np.add_cell [q 0; q 0; q 0] p = inr vals /\
    column_is "a" vals out.
Proof.
  intros exog.
  fitted_of fitted_abz a Ea.
  destruct (generate NoDict exog None None None None fitted_abz)
    as [[[e|out] s1] t] eqn:Er; [vm_compute in Er; discriminate|].
  destruct (proj1 (exogenous_intervention_replaces_noise
                     fitted_abz _ NoDict exog None None None None out s1 t
                     Ea ltac:(distinct) ltac:(distinct) ltac:(distinct)
                     ltac:(distinct) Er)
                  [q 0; q 0; q 0] eq_refl eq_refl eq_refl
                  ltac:(vm_compute; reflexivity))
    as [m [Xf [p [vals [_ [_ [_ [Eb C]]]]]]]].
  exists out, p, vals. split; [reflexivity|]. split; [exact Eb|exact C].
Defined.

(** Witness of X14: the cause is set to 5 on every row. *)
Lemma intervened_cause_feeds_the_effect_witness :
  let endog := Dict [(StrKey "a", [q 5; q 5; q 5])] in
  exists Xf,
    In (Predicted "model_effect" Xf)
       (snd (generate endog NoDict None None None None fitted_abz)) /\
    column_is "a" [q 5; q 5; q 5] Xf.
Proof.
  intros endog.
  fitted_of fitted_abz a Ea.
  destruct (generate endog NoDict None None None None fitted_abz)
    as [[[e|out] s1] t] eqn:Er; [vm_compute in Er; discriminate|].
  destruct (intervened_cause_feeds_the_effect
              fitted_abz _ endog NoDict None None None None out s1 t
              [q 5; q 5; q 5] Ea ltac:(distinct) ltac:(distinct) Er
              eq_refl eq_refl)
    as [Xf [[Hin|[err Hin]] C]].
  - exists Xf. split; [exact Hin|exact C].
  - exfalso. vm_compute in Er. injection Er as _ _ <-.
    cbn [In] in Hin.
    repeat (destruct Hin as [Hin|Hin]; [discriminate Hin|]).
    exact Hin.
Defined.


(** Witness of X16: the cause is set to 5 on every row. *)
Lemma intervention_on_cause_propagates_witness :
  let endog := Dict [(StrKey "a", [q 5; q 5; q 5])] in
  exists out Xf p vals,
    fst (fst (generate endog NoDict None None None None fitted_abz)) = inr out /\
    column_is "a" [q 5; q 5; q 5] Xf /\
    np.broadcast np.add_cell [q (-4); q (-5); q (-6)] p = inr vals /\
    column_is "b" vals out /\
    column_is "a" [q 5; q 5; q 5] out.
Proof.
  intros endog.
  fitted_of fitted_abz a Ea.
  destruct (generate endog NoDict None None None None fitted_abz)
    as [[[e|out] s1] t] eqn:Er; [vm_compute in Er; discriminate|].
  destruct (intervention_on_cause_propagates
              fitted_abz _ endog NoDict None None None out s1 t
              [q 5; q 5; q 5] (Col "b" other [q (-4); q (-5); q (-6)])
              Ea ltac:(distinct) ltac:(distinct) ltac:(distinct)
              ltac:(vm_compute; reflexivity) eq_refl eq_refl
              ltac:(vm_compute; reflexivity) Er eq_refl eq_refl eq_refl)
    as [Xf [p [vals [CX [_ [_ [Eb [Co Ca]]]]]]]].
  exists out, Xf, p, vals. auto.
Defined.

(** Witness of X17: a custom mechanism for the cause. *)
Lemma custom_model_receives_residuals_witness :
  let mech := Some (Callable (constant [q 5; q 6; q 7])) in
  exists Xf err,
    In (Called "cause_model" Xf err)
       (snd (generate NoDict NoDict mech None None None fitted_abz)) /\
    column_is "a" [q (-6); q (-7); q (-5)] err.
Proof.
  intros mech.
  fitted_of fitted_abz a Ea.
  destruct (generate NoDict NoDict mech None None None fitted_abz)
    as [[[e|out] s1] t] eqn:Er; [vm_compute in Er; discriminate|].
  destruct (proj1 (custom_model_receives_residuals
                     fitted_abz _ NoDict NoDict mech None None None out s1 t
                     Ea ltac:(distinct) ltac:(distinct) Er)
                  (constant [q 5; q 6; q 7])
                  (Col "a" other [q (-6); q (-7); q (-5)])
                  eq_refl ltac:(vm_compute; reflexivity) eq_refl
                  eq_refl eq_refl)
    as [Xf [err [Hin [_ C]]]].
  exists Xf, err. split; [exact Hin|exact C].
Defined.

(** Witness of X18: a missing value among the numbers, in either dict. *)
Lemma generate_rejects_missing_values_witness :
  (exists msg,
      generate (Dict [(StrKey "a", [q 1; NaN; q 1])]) NoDict
               None None None None fitted_abz
      = (inl (Exception ValueError msg), fitted_abz, [])) /\
  (exists msg,
      generate NoDict (Dict [(StrKey "a", [q 1; NaN; q 1])])
               None None None None fitted_abz
      = (inl (Exception ValueError msg), fitted_abz, [])).
Proof.
  fitted_of fitted_abz a Ea.
  destruct (generate_rejects_missing_values fitted_abz _ [] [] "a"
              [q 1; NaN; q 1] None None None None Ea
              (Forall_nil _) (or_introl eq_refl) eq_refl eq_refl)
    as [H1 H2].
  split; [exact (H1 NoDict)|].
  apply (H2 NoDict). left. reflexivity.
Defined.

(** Witness of X19: [generate()] after [fit(Xabz, "a", "b", ["z"])]. *)
Lemma generate_returns_layout_of_fit_input_witness :
  exists out,
    fst (fst (generate NoDict NoDict None None None None fitted_abz))
    = inr out /\
    pd.labels out = ["a"; "b"; "z"] /\ index out = [0; 1; 2]%Z.
Proof.
  fitted_of fitted_abz a Ea.
  destruct (generate NoDict NoDict None None None None fitted_abz)
    as [[[e|out] s1] t] eqn:Er; [vm_compute in Er; discriminate|].
  exists out. split; [reflexivity|].
  exact (generate_returns_layout_of_fit_input
           fitted_abz _ NoDict NoDict None None None None out s1 t
           Ea ltac:(distinct) ltac:(distinct) ltac:(distinct) Er).
Defined.
